(** * valve-a2s: the A2S query client, embedded and verified

    A shallow embedding of the Go package [a2s] (errors.go, the data types
    and the client): the packet codec, the binary cursor, the INFO / PLAYER /
    RULES parsers and the query client with its retry wrapper, followed by
    the properties proved about them.

    Conventions.
    - A Go [byte] is a [Byte.byte]; a [[]byte] is a [list byte]; a Go
      [string] (a byte sequence) is shown as a [string].
    - Fixed-width integers are [Z] with the conversion written out
      ([uint32], [int32]); offsets and lengths are [nat].
    - A Go function returning [(T, error)] returns an [Outcome T]; a run-time
      panic has constructors of its own (an index out of range, a method
      called through a nil pointer), so that an unguarded read or call is
      visible in the model.
    - Methods that mutate the client take the client and return the new one
      (the monad [M]).
    - The UDP socket is a log of what was written and read; what the network
      answers is a parameter ([Net]).  Time is not modelled: a deadline shows
      as a read that times out, the pause before a retry not at all.

    Layout: the program, function by function in the order of the source;
    the same parsers and queries cut into the parts the properties speak of;
    the notions the properties are stated with; samples; the properties. *)

From Stdlib Require Import String Strings.Byte.
From Stdlib Require Import ZArith NArith Bool Arith Lia List.
Import ListNotations.

Set Implicit Arguments.

(* ================================================================= *)
(** ** Integers and bytes *)

Definition u8 (b : byte) : Z := Z.of_N (Byte.to_N b).

(** [a == b] on bytes. *)
Definition beq (a b : byte) : bool := Byte.eqb a b.

(** Go's [byte(v)]: the low eight bits. *)
Definition byte_of (v : Z) : byte :=
  match Byte.of_N (Z.to_N (v mod 256)%Z) with
  | Some b => b
  | None => x00
  end.

(** Go's [uint32(v)] and [int32(v)] conversions. *)
Definition uint32 (v : Z) : Z := (v mod 2 ^ 32)%Z.

Definition int32 (v : Z) : Z :=
  let u := (v mod 2 ^ 32)%Z in
  if (u <? 2 ^ 31)%Z then u else (u - 2 ^ 32)%Z.

(** [data[lo:hi]] for [lo <= hi <= len(data)], and [data[lo:]]. *)
Definition slice (data : list byte) (lo hi : nat) : list byte :=
  firstn (hi - lo) (skipn lo data).

Definition text (bs : list byte) : string := string_of_list_byte bs.

(* ================================================================= *)
(** ** errors.go *)

Inductive Error : Type :=
| ErrChallengeRequired
| ErrTimeout
| ErrInvalidResponse
| ErrNotConnected
| ErrTooManyRetries
| ErrUnsupportedFeature
| ErrShortResponse
| ProtocolError (Expected Actual : byte)
| ErrUnknownHeader (header : Z)       (* fmt.Errorf("unknown header: 0x%X") *)
| ErrChallengeNotReceived             (* errors.New("challenge not received") *)
| ErrWrite                            (* fmt.Errorf("write error: %w", err) *)
| ErrRead                             (* fmt.Errorf("read error: %w", err) *)
| ErrNet.                             (* an error of package net, passed on *)

(** [errors.Is(err, ErrChallengeRequired)].  The wrapped errors come from
    package net and are never the sentinel. *)
Definition is_challenge_required (e : Error) : bool :=
  match e with
  | ErrChallengeRequired => true
  | _ => false
  end.

(** The result of a call: a value, a returned error, or a run-time panic:
    [Panic] is raised by reading index [index] of a slice of length [len],
    [PanicNil] by calling a method through a nil pointer. *)
Inductive Outcome (A : Type) : Type :=
| Ok (a : A)
| Fail (e : Error)
| Panic (index len : nat)
| PanicNil.

Arguments Ok {A} a.
Arguments Fail {A} e.
Arguments Panic {A} index len.
Arguments PanicNil {A}.

Definition obind {A B} (m : Outcome A) (k : A -> Outcome B) : Outcome B :=
  match m with
  | Ok a => k a
  | Fail e => Fail e
  | Panic i n => Panic i n
  | PanicNil => PanicNil
  end.

Declare Scope outcome_scope.
Delimit Scope outcome_scope with outcome.
Notation "x <- m ;; k" := (obind m (fun x => k))
  (at level 61, m at next level, right associativity) : outcome_scope.
Notation "' p <- m ;; k" := (obind m (fun p => k))
  (at level 61, p pattern, m at next level, right associativity) : outcome_scope.

Definition is_ok {A} (o : Outcome A) : bool :=
  match o with Ok _ => true | _ => false end.

(** An index out of range. *)
Definition is_panic {A} (o : Outcome A) : bool :=
  match o with Panic _ _ => true | _ => false end.

(** [data[i]]: panics when [i] is out of range. *)
Definition index (data : list byte) (i : nat) : Outcome byte :=
  match nth_error data i with
  | Some b => Ok b
  | None => Panic i (length data)
  end.

(* ================================================================= *)
(** ** encoding/binary, little endian *)

Definition le16 (b0 b1 : byte) : Z :=
  Z.lor (u8 b0) (Z.shiftl (u8 b1) 8).

Definition le32 (b0 b1 b2 b3 : byte) : Z :=
  Z.lor (Z.lor (Z.lor (u8 b0) (Z.shiftl (u8 b1) 8)) (Z.shiftl (u8 b2) 16))
        (Z.shiftl (u8 b3) 24).

Definition le64 (b0 b1 b2 b3 b4 b5 b6 b7 : byte) : Z :=
  Z.lor (Z.lor (Z.lor (Z.lor (Z.lor (Z.lor (Z.lor
    (u8 b0) (Z.shiftl (u8 b1) 8)) (Z.shiftl (u8 b2) 16)) (Z.shiftl (u8 b3) 24))
    (Z.shiftl (u8 b4) 32)) (Z.shiftl (u8 b5) 40)) (Z.shiftl (u8 b6) 48))
    (Z.shiftl (u8 b7) 56).

(** [binary.LittleEndian.Uint16(b)], [Uint32(b)], [Uint64(b)]: they read the
    first bytes of [b] and panic when [b] is too short. *)
Definition Uint16 (b : list byte) : Outcome Z :=
  match b with
  | b0 :: b1 :: _ => Ok (le16 b0 b1)
  | _ => Panic 1 (length b)
  end.

Definition Uint32 (b : list byte) : Outcome Z :=
  match b with
  | b0 :: b1 :: b2 :: b3 :: _ => Ok (le32 b0 b1 b2 b3)
  | _ => Panic 3 (length b)
  end.

Definition Uint64 (b : list byte) : Outcome Z :=
  match b with
  | b0 :: b1 :: b2 :: b3 :: b4 :: b5 :: b6 :: b7 :: _ =>
      Ok (le64 b0 b1 b2 b3 b4 b5 b6 b7)
  | _ => Panic 7 (length b)
  end.

(** The four bytes [PutUint32] stores for [v]. *)
Definition bytes32 (v : Z) : list byte :=
  [byte_of v; byte_of (Z.shiftr v 8); byte_of (Z.shiftr v 16);
   byte_of (Z.shiftr v 24)].

(** [copy(dst[off:], src)]: overwrites [dst] from [off] on, as far as [dst]
    reaches; slicing at [off > len(dst)] panics. *)
Definition copy_at (dst : list byte) (off : nat) (src : list byte)
  : Outcome (list byte) :=
  if length dst <? off then Panic off (length dst)
  else
    let n := Nat.min (length dst - off) (length src) in
    Ok (firstn off dst ++ firstn n src ++ skipn (off + n) dst).

(** [binary.LittleEndian.PutUint32(dst[off:], v)]: panics unless four bytes
    are available. *)
Definition PutUint32_at (dst : list byte) (off : nat) (v : Z)
  : Outcome (list byte) :=
  if length dst <? off + 4 then Panic (off + 3) (length dst)
  else copy_at dst off (bytes32 v).

(* ================================================================= *)
(** ** Protocol constants *)

Definition Header : Z := 0xFFFFFFFF%Z.
Definition SPLIT_FLAG : Z := 0xFFFFFFFE%Z.
Definition A2S_INFO : byte := x54.
Definition A2S_PLAYER : byte := x55.
Definition A2S_RULES : byte := x56.
Definition A2S_CHALLENGE : byte := x41.
Definition S2C_CHALLENGE : byte := x41.
Definition S2A_INFO_SRC : byte := x49.
Definition S2A_INFO_GOLD : byte := x6d.
Definition S2A_PLAYER : byte := x44.
Definition S2A_RULES : byte := x45.

(* ================================================================= *)
(** ** The binary cursor: readString *)

(** The scanning loop of [readString]:
    [for *offset < len(data) && data[*offset] != 0 { *offset++ }],
    run over the bytes from [offset] on. *)
Fixpoint scan (rest : list byte) (offset : nat) : nat :=
  match rest with
  | [] => offset
  | b :: rest' => if beq b x00 then offset else scan rest' (S offset)
  end.

(** [readString(data, &offset)]: the text and the new offset. *)
Definition readString (data : list byte) (offset : nat) : string * nat :=
  if length data <=? offset then (EmptyString, offset)
  else
    let start := offset in
    let stop := scan (skipn offset data) offset in
    let str := text (slice data start stop) in
    if stop <? length data then (str, S stop) else (str, stop).

(* ================================================================= *)
(** ** The data types *)

Module SourceTV.
Record t : Type := make { Port : Z; Name : string }.
Definition zero : t := {| Port := 0; Name := EmptyString |}.
End SourceTV.

Module ServerInfo.
Record t : Type := make {
  Protocol : byte;
  Name : string;
  Map : string;
  Folder : string;
  Game : string;
  AppID : Z;
  Players : byte;
  MaxPlayers : byte;
  Bots : byte;
  ServerType : byte;
  Environment : byte;
  Visibility : byte;
  VAC : byte;
  Version : string;
  GamePort : Z;
  SteamID : Z;
  SourceTV : SourceTV.t;
  Keywords : list string;
  GameID : Z;
  EDF : byte
}.
End ServerInfo.

(** [Duration] is a [float32]; it only ever comes from
  [math.Float32frombits], so it is kept as its 32 bits. *)
Module PlayerInfo.
Record t : Type := make {
  Index : byte;
  Name : string;
  Score : Z;
  Duration : Z;
  Deaths : Z;
  Money : Z
}.
End PlayerInfo.

Module Rule.
Record t : Type := make { Name : string; Value : string }.
End Rule.

Module ServerFeatures.
Record t : Type := make {
  Info : bool;
  Players : bool;
  Rules : bool;
  Ping : bool
}.
End ServerFeatures.

(* ================================================================= *)
(** ** Reads at an offset *)

Local Open Scope outcome_scope.

(** [data[offset:]]: panics when [offset > len(data)]. *)
Definition from (data : list byte) (offset : nat) : Outcome (list byte) :=
  if length data <? offset then Panic offset (length data)
  else Ok (skipn offset data).

Definition Uint16_at (data : list byte) (offset : nat) : Outcome Z :=
  rest <- from data offset ;; Uint16 rest.

Definition Uint32_at (data : list byte) (offset : nat) : Outcome Z :=
  rest <- from data offset ;; Uint32 rest.

Definition Uint64_at (data : list byte) (offset : nat) : Outcome Z :=
  rest <- from data offset ;; Uint64 rest.

(** [e & mask != 0] on a byte. *)
Definition flag (e : byte) (mask : Z) : bool :=
  negb (Z.land (u8 e) mask =? 0)%Z.

(* ================================================================= *)
(** ** parseSourceInfo *)

(** [info] is a fresh [ServerInfo] that nothing sees before it is returned:
    the fields are bound as they are read and the record is built at the
    end; a field that is not assigned has its zero value. *)
Definition parseSourceInfo (data : list byte) : Outcome ServerInfo.t :=
  if length data <? 20 then Fail ErrShortResponse else
  let offset := 0 in
  protocol <- index data offset ;;
  let offset := offset + 1 in
  let '(name, offset) := readString data offset in
  let '(map, offset) := readString data offset in
  let '(folder, offset) := readString data offset in
  let '(game, offset) := readString data offset in
  '(appID, offset) <-
    (if offset + 2 <=? length data
     then v <- Uint16_at data offset ;; Ok (v, offset + 2)
     else Ok (0%Z, offset)) ;;
  if length data <? offset + 3 then Fail ErrShortResponse else
  players <- index data offset ;;
  let offset := offset + 1 in
  maxPlayers <- index data offset ;;
  let offset := offset + 1 in
  bots <- index data offset ;;
  let offset := offset + 1 in
  if length data <? offset + 4 then Fail ErrShortResponse else
  serverType <- index data offset ;;
  let offset := offset + 1 in
  environment <- index data offset ;;
  let offset := offset + 1 in
  visibility <- index data offset ;;
  let offset := offset + 1 in
  vac <- index data offset ;;
  let offset := offset + 1 in
  let '(version, offset) := readString data offset in
  '(edf, gamePort, steamID, sourceTV, gameID) <-
    (if offset <? length data then
       edf <- index data offset ;;
       let offset := offset + 1 in
       '(gamePort, offset) <-
         (if flag edf 0x80 && (offset + 2 <=? length data)
          then v <- Uint16_at data offset ;; Ok (v, offset + 2)
          else Ok (0%Z, offset)) ;;
       '(steamID, offset) <-
         (if flag edf 0x10 && (offset + 8 <=? length data)
          then v <- Uint64_at data offset ;; Ok (v, offset + 8)
          else Ok (0%Z, offset)) ;;
       '(sourceTV, offset) <-
         (if flag edf 0x40 && (offset + 2 <=? length data)
          then
            port <- Uint16_at data offset ;;
            let offset := offset + 2 in
            let '(name, offset) := readString data offset in
            Ok ({| SourceTV.Port := port; SourceTV.Name := name |}, offset)
          else Ok (SourceTV.zero, offset)) ;;
       let offset :=
         if flag edf 0x20
         then let '(tags, offset) := readString data offset in offset
         else offset in
       gameID <-
         (if flag edf 0x01 && (offset + 8 <=? length data)
          then Uint64_at data offset
          else Ok 0%Z) ;;
       Ok (edf, gamePort, steamID, sourceTV, gameID)
     else Ok (x00, 0%Z, 0%Z, SourceTV.zero, 0%Z)) ;;
  Ok {| ServerInfo.Protocol := protocol;
        ServerInfo.Name := name;
        ServerInfo.Map := map;
        ServerInfo.Folder := folder;
        ServerInfo.Game := game;
        ServerInfo.AppID := appID;
        ServerInfo.Players := players;
        ServerInfo.MaxPlayers := maxPlayers;
        ServerInfo.Bots := bots;
        ServerInfo.ServerType := serverType;
        ServerInfo.Environment := environment;
        ServerInfo.Visibility := visibility;
        ServerInfo.VAC := vac;
        ServerInfo.Version := version;
        ServerInfo.GamePort := gamePort;
        ServerInfo.SteamID := steamID;
        ServerInfo.SourceTV := sourceTV;
        ServerInfo.Keywords := [];
        ServerInfo.GameID := gameID;
        ServerInfo.EDF := edf |}.

(* ================================================================= *)
(** ** parseGoldSourceInfo *)

Definition parseGoldSourceInfo (data : list byte) : Outcome ServerInfo.t :=
  let offset := 0 in
  let '(_, offset) := readString data offset in
  let '(name, offset) := readString data offset in
  let '(map, offset) := readString data offset in
  let '(folder, offset) := readString data offset in
  let '(game, offset) := readString data offset in
  if length data <? offset + 2 then Fail ErrShortResponse else
  players <- index data offset ;;
  let offset := offset + 1 in
  maxPlayers <- index data offset ;;
  let offset := offset + 1 in
  protocol <- index data offset ;;
  let offset := offset + 1 in
  serverType <- index data offset ;;
  let offset := offset + 1 in
  environment <- index data offset ;;
  let offset := offset + 1 in
  visibility <- index data offset ;;
  let offset := offset + 1 in
  modFlag <- index data offset ;;
  let offset := offset + 1 in
  let offset :=
    if beq modFlag x01 then
      let '(_, offset) := readString data offset in
      let '(_, offset) := readString data offset in
      let offset := offset + 1 in
      let offset := offset + 4 in
      let offset := offset + 4 in
      let offset := offset + 1 in
      let offset := offset + 1 in
      offset
    else offset in
  vac <- index data offset ;;
  let offset := offset + 1 in
  bots <- (if offset <? length data then index data offset else Ok x00) ;;
  Ok {| ServerInfo.Protocol := protocol;
        ServerInfo.Name := name;
        ServerInfo.Map := map;
        ServerInfo.Folder := folder;
        ServerInfo.Game := game;
        ServerInfo.AppID := 0;
        ServerInfo.Players := players;
        ServerInfo.MaxPlayers := maxPlayers;
        ServerInfo.Bots := bots;
        ServerInfo.ServerType := serverType;
        ServerInfo.Environment := environment;
        ServerInfo.Visibility := visibility;
        ServerInfo.VAC := vac;
        ServerInfo.Version := EmptyString;
        ServerInfo.GamePort := 0;
        ServerInfo.SteamID := 0;
        ServerInfo.SourceTV := SourceTV.zero;
        ServerInfo.Keywords := [];
        ServerInfo.GameID := 0;
        ServerInfo.EDF := x00 |}.

(* ================================================================= *)
(** ** parsePlayersResponse *)

(** [for i := 0; i < numPlayers && offset < len(data); i++], with
    [remaining = numPlayers - i]; returns the slice and the offset where the
    loop stopped. *)
Fixpoint playersLoop (data : list byte) (remaining : nat) (offset : nat)
    (players : list PlayerInfo.t) : Outcome (list PlayerInfo.t * nat) :=
  match remaining with
  | O => Ok (players, offset)
  | S remaining' =>
      if offset <? length data then
        idx <- index data offset ;;
        let offset := offset + 1 in
        let '(name, offset) := readString data offset in
        if length data <? offset + 4 then Fail ErrShortResponse else
        score <- Uint32_at data offset ;;
        let offset := offset + 4 in
        if length data <? offset + 4 then Fail ErrShortResponse else
        bits <- Uint32_at data offset ;;
        let offset := offset + 4 in
        let player :=
          {| PlayerInfo.Index := idx; PlayerInfo.Name := name;
             PlayerInfo.Score := int32 score; PlayerInfo.Duration := bits;
             PlayerInfo.Deaths := 0; PlayerInfo.Money := 0 |} in
        playersLoop data remaining' offset (players ++ [player])
      else Ok (players, offset)
  end.

Definition parsePlayersResponse (data : list byte)
  : Outcome (list PlayerInfo.t) :=
  if length data <? 1 then Fail ErrShortResponse else
  let offset := 0 in
  b <- index data offset ;;
  let numPlayers := Z.to_nat (u8 b) in
  let offset := offset + 1 in
  '(players, _) <- playersLoop data numPlayers offset [] ;;
  Ok players.

(* ================================================================= *)
(** ** parseRulesResponse *)

(** [for i := 0; i < numRules && offset < len(data); i++], with
    [remaining = numRules - i]. *)
Fixpoint rulesLoop (data : list byte) (remaining : nat) (offset : nat)
    (rules : list Rule.t) : list Rule.t * nat :=
  match remaining with
  | O => (rules, offset)
  | S remaining' =>
      if offset <? length data then
        let '(name, offset) := readString data offset in
        let '(value, offset) := readString data offset in
        let rule := {| Rule.Name := name; Rule.Value := value |} in
        rulesLoop data remaining' offset (rules ++ [rule])
      else (rules, offset)
  end.

Definition parseRulesResponse (data : list byte) : Outcome (list Rule.t) :=
  if length data <? 2 then Fail ErrShortResponse else
  let offset := 0 in
  n <- Uint16_at data offset ;;
  let numRules := Z.to_nat n in
  let offset := offset + 2 in
  Ok (fst (rulesLoop data numRules offset [])).

(* ================================================================= *)
(** ** The client and the network *)

(** What one [conn.Read] gives: a timeout, another error, or a datagram. *)
Inductive ReadResult : Type :=
| ReadTimeout
| ReadError
| ReadOk (datagram : list byte).

(** What went over the socket, oldest first. *)
Inductive Event : Type :=
| Wrote (packet : list byte)
| WriteFailed (packet : list byte)
| Received (r : ReadResult).

(** The [*net.UDPConn]: whether it was closed, and its history. *)
Record UDPConn : Type := {
  closed : bool;
  history : list Event
}.

Record Client : Type := {
  conn : option UDPConn;        (* [None] is the nil pointer *)
  challenge : Z;
  timeout : Z;
  connected : bool
}.

(** The other end: whether dialling [addr] works, whether a write goes
    through, and what the next read returns, each given the history of the
    socket so far.  Deadlines appear only as [ReadTimeout]. *)
Inductive DialResult : Type :=
| ResolveFailed
| DialFailed
| Dialed (deadlineSet : bool).

Record Net : Type := {
  net_dial : string -> DialResult;
  net_write : list Event -> list byte -> bool;
  net_read : list Event -> ReadResult
}.

Definition set_challenge (v : Z) (c : Client) : Client :=
  {| conn := conn c; challenge := v;
     timeout := timeout c; connected := connected c |}.

Definition set_conn (k : option UDPConn) (c : Client) : Client :=
  {| conn := k; challenge := challenge c;
     timeout := timeout c; connected := connected c |}.

Definition set_connected (b : bool) (c : Client) : Client :=
  {| conn := conn c; challenge := challenge c;
     timeout := timeout c; connected := b |}.

(** A method on [*Client]: the result and the client afterwards. *)
Definition M (A : Type) : Type := Client -> Outcome A * Client.

Definition mret {A} (a : A) : M A := fun c => (Ok a, c).
Definition mfail {A} (e : Error) : M A := fun c => (Fail e, c).
Definition lift {A} (o : Outcome A) : M A := fun c => (o, c).
Definition modify (f : Client -> Client) : M unit := fun c => (Ok tt, f c).

Definition mbind {A B} (m : M A) (k : A -> M B) : M B :=
  fun c =>
    match m c with
    | (Ok a, c') => k a c'
    | (Fail e, c') => (Fail e, c')
    | (Panic i n, c') => (Panic i n, c')
    | (PanicNil, c') => (PanicNil, c')
    end.

Declare Scope client_scope.
Delimit Scope client_scope with client.
Notation "x <- m ;; k" := (mbind m (fun x => k))
  (at level 61, m at next level, right associativity) : client_scope.
Notation "m ;;; k" := (mbind m (fun _ => k))
  (at level 61, right associativity) : client_scope.

Definition NewClient (timeout : Z) : Client :=
  {| conn := None; challenge := -1; timeout := timeout; connected := false |}.

Definition Connect (net : Net) (addr : string) : M unit :=
  fun c =>
    match net_dial net addr with
    | ResolveFailed => (Fail ErrNet, c)
    | DialFailed => (Fail ErrNet, c)
    | Dialed deadlineSet =>
        let c := set_conn (Some {| closed := false; history := [] |}) c in
        let c := set_connected true c in
        (if deadlineSet then Ok tt else Fail ErrNet, c)
    end.

Definition Close : M unit :=
  fun c =>
    match conn c with
    | Some k =>
        let c := set_connected false c in
        if closed k then (Fail ErrNet, c)
        else (Ok tt, set_conn (Some {| closed := true; history := history k |}) c)
    | None => (Ok tt, c)
    end.

Definition IsConnected (c : Client) : bool :=
  connected c && match conn c with Some _ => true | None => false end.

(* ================================================================= *)
(** ** buildPacket *)

(** [packet[offset] = v]. *)
Definition store (packet : list byte) (offset : nat) (v : byte)
  : Outcome (list byte) :=
  if offset <? length packet
  then Ok (firstn offset packet ++ v :: skipn (S offset) packet)
  else Panic offset (length packet).

Definition buildPacket (c : Client) (packetType : byte) (payload : list byte)
  : Outcome (list byte) :=
  let challengeAtBeginning :=
    beq packetType A2S_PLAYER || beq packetType A2S_RULES in
  let challengeAtEnd :=
    beq packetType A2S_INFO && negb (challenge c =? -1)%Z in
  let size := 4 + 1 in
  let size := if challengeAtBeginning then size + 4 else size in
  let size := size + length payload in
  let size := if challengeAtEnd then size + 4 else size in
  let packet := repeat x00 size in
  let offset := 0 in
  packet <- PutUint32_at packet offset (uint32 Header) ;;
  let offset := offset + 4 in
  packet <- store packet offset packetType ;;
  let offset := offset + 1 in
  '(packet, offset) <-
    (if challengeAtBeginning
     then packet <- PutUint32_at packet offset (uint32 (challenge c)) ;;
          Ok (packet, offset + 4)
     else Ok (packet, offset)) ;;
  packet <- copy_at packet offset payload ;;
  let offset := offset + length payload in
  if challengeAtEnd
  then PutUint32_at packet offset (uint32 (challenge c))
  else Ok packet.

(* ================================================================= *)
(** ** processResponse *)

Local Open Scope client_scope.

Definition processSinglePacket (data : list byte) (expect : byte)
  : M (list byte) :=
  if length data <? 1 then mfail ErrShortResponse else
  responseType <- lift (index data 0) ;;
  if beq responseType S2C_CHALLENGE then
    if length data <? 5 then mfail ErrShortResponse else
    v <- lift (Uint32 (slice data 1 5)) ;;
    modify (set_challenge (int32 v)) ;;;
    mfail ErrChallengeRequired
  else if negb (beq responseType expect)
  then mfail (ProtocolError expect responseType)
  else lift (from data 1).

(** [payloadStart] as processSplitPacket computes it. *)
Definition payloadStart (len : nat) : nat :=
  let payloadStart := 4 + 1 + 1 in
  if 8 <? len then payloadStart + 2 else payloadStart.

Definition processSplitPacket (data : list byte) (expect : byte)
  : M (list byte) :=
  if length data <? 9 then mfail ErrShortResponse else
  let payloadStart := payloadStart (length data) in
  if length data <=? payloadStart then mfail ErrInvalidResponse else
  rest <- lift (from data payloadStart) ;;
  processSinglePacket rest expect.

Definition processResponse (data : list byte) (expect : byte)
  : M (list byte) :=
  if length data <? 4 then mfail ErrShortResponse else
  header <- lift (Uint32 (slice data 0 4)) ;;
  if (header =? uint32 Header)%Z then
    rest <- lift (from data 4) ;; processSinglePacket rest expect
  else if (header =? uint32 SPLIT_FLAG)%Z then
    rest <- lift (from data 4) ;; processSplitPacket rest expect
  else mfail (ErrUnknownHeader header).

(* ================================================================= *)
(** ** sendRequestRaw and sendRequest *)

Definition log_event (e : Event) (k : UDPConn) : UDPConn :=
  {| closed := closed k; history := history k ++ [e] |}.

(** A method called on the nil [*net.UDPConn] panics with a nil-pointer
    dereference: the methods of [UDPConn] are those of its embedded [conn],
    whose address is taken through the pointer. *)

(** [c.conn.SetDeadline(time.Now().Add(c.timeout))], its error dropped. *)
Definition conn_SetDeadline : M unit :=
  fun c =>
    match conn c with
    | None => (PanicNil, c)
    | Some _ => (Ok tt, c)
    end.

(** [c.conn.Write(packet)]: fails on a closed socket, or when the network
    refuses the write. *)
Definition conn_Write (net : Net) (packet : list byte) : M unit :=
  fun c =>
    match conn c with
    | None => (PanicNil, c)
    | Some k =>
        if closed k then (Fail ErrWrite, c)
        else if net_write net (history k) packet
        then (Ok tt, set_conn (Some (log_event (Wrote packet) k)) c)
        else (Fail ErrWrite, set_conn (Some (log_event (WriteFailed packet) k)) c)
    end.

(** [c.conn.Read(buffer)] on a 4096-byte buffer, then [buffer[:n]]. *)
Definition conn_Read (net : Net) : M (list byte) :=
  fun c =>
    match conn c with
    | None => (PanicNil, c)
    | Some k =>
        let r := net_read net (history k) in
        let c := set_conn (Some (log_event (Received r) k)) c in
        match r with
        | ReadTimeout => (Fail ErrTimeout, c)
        | ReadError => (Fail ErrRead, c)
        | ReadOk datagram => (Ok (firstn 4096 datagram), c)
        end
    end.

Definition sendRequestRaw (net : Net) (packetType : byte)
    (payload : list byte) (expectResponse : byte) : M (list byte) :=
  packet <- (fun c => (buildPacket c packetType payload, c)) ;;
  conn_SetDeadline ;;;
  conn_Write net packet ;;;
  data <- conn_Read net ;;
  processResponse data expectResponse.

(** [for retry := 0; retry < 3; retry++], with [remaining = 3 - retry].
    The 100ms sleep before a retry takes time only. *)
Fixpoint sendRequestLoop (net : Net) (remaining : nat) (packetType : byte)
    (payload : list byte) (expectResponse : byte) : M (list byte) :=
  fun c =>
    match remaining with
    | O => (Fail ErrTooManyRetries, c)
    | S remaining' =>
        match sendRequestRaw net packetType payload expectResponse c with
        | (Ok response, c) => (Ok response, c)
        | (Fail err, c) =>
            if is_challenge_required err
            then sendRequestLoop net remaining' packetType payload
                   expectResponse c
            else (Fail err, c)
        | (Panic i n, c) => (Panic i n, c)
        | (PanicNil, c) => (PanicNil, c)
        end
    end.

Definition sendRequest (net : Net) : byte -> list byte -> byte -> M (list byte) :=
  sendRequestLoop net 3.

(* ================================================================= *)
(** ** The public operations *)

(** "Source Engine Query\0" *)
Definition infoPayload : list byte :=
  [x53; x6f; x75; x72; x63; x65; x20; x45; x6e; x67; x69; x6e; x65; x20;
   x51; x75; x65; x72; x79; x00].

Definition GetInfo (net : Net) : M ServerInfo.t :=
  fun c =>
    if negb (IsConnected c) then (Fail ErrNotConnected, c) else
    let payload := infoPayload in
    match sendRequest net A2S_INFO payload S2A_INFO_SRC c with
    | (Ok response, c) => (parseSourceInfo response, c)
    | (Panic i n, c) => (Panic i n, c)
    | (PanicNil, c) => (PanicNil, c)
    | (Fail _, c) =>
        match sendRequest net A2S_INFO payload S2A_INFO_GOLD c with
        | (Ok response, c) => (parseGoldSourceInfo response, c)
        | (Fail err, c) => (Fail err, c)
        | (Panic i n, c) => (Panic i n, c)
        | (PanicNil, c) => (PanicNil, c)
        end
    end.

Definition challengeReq : list byte := [xff; xff; xff; xff].

(** In GetPlayers and GetRules [proceed] is the text after the probe's error
    check, reached when the probe returned no error or
    ErrChallengeRequired. *)
Definition GetPlayers (net : Net) : M (list PlayerInfo.t) :=
  fun c =>
    if negb (IsConnected c) then (Fail ErrNotConnected, c) else
    let '(probe, c) := sendRequest net A2S_PLAYER challengeReq S2C_CHALLENGE c in
    let proceed (c : Client) : Outcome (list PlayerInfo.t) * Client :=
      if (challenge c =? -1)%Z then (Fail ErrChallengeNotReceived, c) else
      let challengeBytes := bytes32 (uint32 (challenge c)) in
      match sendRequest net A2S_PLAYER challengeBytes S2A_PLAYER c with
      | (Ok response, c) => (parsePlayersResponse response, c)
      | (Fail err, c) => (Fail err, c)
      | (Panic i n, c) => (Panic i n, c)
      | (PanicNil, c) => (PanicNil, c)
      end in
    match probe with
    | Ok _ => proceed c
    | Fail err =>
        if negb (is_challenge_required err) then (Fail err, c) else proceed c
    | Panic i n => (Panic i n, c)
    | PanicNil => (PanicNil, c)
    end.

Definition GetRules (net : Net) : M (list Rule.t) :=
  fun c =>
    if negb (IsConnected c) then (Fail ErrNotConnected, c) else
    let '(probe, c) := sendRequest net A2S_RULES challengeReq S2C_CHALLENGE c in
    let proceed (c : Client) : Outcome (list Rule.t) * Client :=
      if (challenge c =? -1)%Z then (Fail ErrChallengeNotReceived, c) else
      let challengeBytes := bytes32 (uint32 (challenge c)) in
      match sendRequest net A2S_RULES challengeBytes S2A_RULES c with
      | (Ok response, c) => (parseRulesResponse response, c)
      | (Fail err, c) => (Fail err, c)
      | (Panic i n, c) => (Panic i n, c)
      | (PanicNil, c) => (PanicNil, c)
      end in
    match probe with
    | Ok _ => proceed c
    | Fail err =>
        if negb (is_challenge_required err) then (Fail err, c) else proceed c
    | Panic i n => (Panic i n, c)
    | PanicNil => (PanicNil, c)
    end.

Definition CheckFeatures (net : Net) : M ServerFeatures.t :=
  fun c =>
    match GetPlayers net c with
    | (Panic i n, c) => (Panic i n, c)
    | (PanicNil, c) => (PanicNil, c)
    | (players, c) =>
        match GetRules net c with
        | (Panic i n, c) => (Panic i n, c)
        | (PanicNil, c) => (PanicNil, c)
        | (rules, c) =>
            (Ok {| ServerFeatures.Info := true;
                   ServerFeatures.Players := is_ok players;
                   ServerFeatures.Rules := is_ok rules;
                   ServerFeatures.Ping := false |}, c)
        end
    end.

(* ================================================================= *)
(** ** The parsers and the queries in parts

    The same text as above, cut into the pieces the properties speak of;
    each piece is shown equal to its place in the whole. *)

Local Open Scope outcome_scope.

(** The fields read up to and including the version string, in the order
    the parser reads them. *)
Record SourceFixed : Type := {
  sf_Protocol : byte;
  sf_Name : string;
  sf_Map : string;
  sf_Folder : string;
  sf_Game : string;
  sf_AppID : Z;
  sf_Players : byte;
  sf_MaxPlayers : byte;
  sf_Bots : byte;
  sf_ServerType : byte;
  sf_Environment : byte;
  sf_Visibility : byte;
  sf_VAC : byte;
  sf_Version : string
}.

(** The fields of the optional tail; a field that is not read keeps the
    zero value of the fresh [ServerInfo]. *)
Record SourceExtra : Type := {
  se_EDF : byte;
  se_GamePort : Z;
  se_SteamID : Z;
  se_SourceTV : SourceTV.t;
  se_GameID : Z
}.

Definition no_extra : SourceExtra :=
  {| se_EDF := x00; se_GamePort := 0; se_SteamID := 0;
     se_SourceTV := SourceTV.zero; se_GameID := 0 |}.

(** parseSourceInfo, from the length check to the version string; returns
    the fields and the offset reached. *)
Definition parseSourceFixed (data : list byte) : Outcome (SourceFixed * nat) :=
  if length data <? 20 then Fail ErrShortResponse else
  let offset := 0 in
  protocol <- index data offset ;;
  let offset := offset + 1 in
  let '(name, offset) := readString data offset in
  let '(map, offset) := readString data offset in
  let '(folder, offset) := readString data offset in
  let '(game, offset) := readString data offset in
  '(appID, offset) <-
    (if offset + 2 <=? length data
     then v <- Uint16_at data offset ;; Ok (v, offset + 2)
     else Ok (0%Z, offset)) ;;
  if length data <? offset + 3 then Fail ErrShortResponse else
  players <- index data offset ;;
  let offset := offset + 1 in
  maxPlayers <- index data offset ;;
  let offset := offset + 1 in
  bots <- index data offset ;;
  let offset := offset + 1 in
  if length data <? offset + 4 then Fail ErrShortResponse else
  serverType <- index data offset ;;
  let offset := offset + 1 in
  environment <- index data offset ;;
  let offset := offset + 1 in
  visibility <- index data offset ;;
  let offset := offset + 1 in
  vac <- index data offset ;;
  let offset := offset + 1 in
  let '(version, offset) := readString data offset in
  Ok ({| sf_Protocol := protocol; sf_Name := name; sf_Map := map;
         sf_Folder := folder; sf_Game := game; sf_AppID := appID;
         sf_Players := players; sf_MaxPlayers := maxPlayers; sf_Bots := bots;
         sf_ServerType := serverType; sf_Environment := environment;
         sf_Visibility := visibility; sf_VAC := vac;
         sf_Version := version |}, offset).

(** The five optional reads, each a step on the offset. *)
Definition readGamePort (data : list byte) (edf : byte) (offset : nat)
  : Outcome (Z * nat) :=
  if flag edf 0x80 && (offset + 2 <=? length data)
  then v <- Uint16_at data offset ;; Ok (v, offset + 2)
  else Ok (0%Z, offset).

Definition readSteamID (data : list byte) (edf : byte) (offset : nat)
  : Outcome (Z * nat) :=
  if flag edf 0x10 && (offset + 8 <=? length data)
  then v <- Uint64_at data offset ;; Ok (v, offset + 8)
  else Ok (0%Z, offset).

Definition readSourceTV (data : list byte) (edf : byte) (offset : nat)
  : Outcome (SourceTV.t * nat) :=
  if flag edf 0x40 && (offset + 2 <=? length data)
  then
    port <- Uint16_at data offset ;;
    let offset := offset + 2 in
    let '(name, offset) := readString data offset in
    Ok ({| SourceTV.Port := port; SourceTV.Name := name |}, offset)
  else Ok (SourceTV.zero, offset).

(** The keywords are read and dropped; only the offset moves. *)
Definition readKeywords (data : list byte) (edf : byte) (offset : nat) : nat :=
  if flag edf 0x20
  then let '(tags, offset) := readString data offset in offset
  else offset.

Definition readGameID (data : list byte) (edf : byte) (offset : nat)
  : Outcome Z :=
  if flag edf 0x01 && (offset + 8 <=? length data)
  then Uint64_at data offset
  else Ok 0%Z.

(** parseSourceInfo, from [if offset < len(data)] to the end. *)
Definition parseSourceExtra (data : list byte) (offset : nat)
  : Outcome SourceExtra :=
  if offset <? length data then
    edf <- index data offset ;;
    let offset := offset + 1 in
    '(gamePort, offset) <- readGamePort data edf offset ;;
    '(steamID, offset) <- readSteamID data edf offset ;;
    '(sourceTV, offset) <- readSourceTV data edf offset ;;
    let offset := readKeywords data edf offset in
    gameID <- readGameID data edf offset ;;
    Ok {| se_EDF := edf; se_GamePort := gamePort; se_SteamID := steamID;
          se_SourceTV := sourceTV; se_GameID := gameID |}
  else Ok no_extra.

(** parseSourceInfo as its two parts. *)
Definition parseSourceParts (data : list byte) : Outcome ServerInfo.t :=
  '(f, offset) <- parseSourceFixed data ;;
  x <- parseSourceExtra data offset ;;
  Ok {| ServerInfo.Protocol := sf_Protocol f;
        ServerInfo.Name := sf_Name f;
        ServerInfo.Map := sf_Map f;
        ServerInfo.Folder := sf_Folder f;
        ServerInfo.Game := sf_Game f;
        ServerInfo.AppID := sf_AppID f;
        ServerInfo.Players := sf_Players f;
        ServerInfo.MaxPlayers := sf_MaxPlayers f;
        ServerInfo.Bots := sf_Bots f;
        ServerInfo.ServerType := sf_ServerType f;
        ServerInfo.Environment := sf_Environment f;
        ServerInfo.Visibility := sf_Visibility f;
        ServerInfo.VAC := sf_VAC f;
        ServerInfo.Version := sf_Version f;
        ServerInfo.GamePort := se_GamePort x;
        ServerInfo.SteamID := se_SteamID x;
        ServerInfo.SourceTV := se_SourceTV x;
        ServerInfo.Keywords := [];
        ServerInfo.GameID := se_GameID x;
        ServerInfo.EDF := se_EDF x |}.

(** The offset parseGoldSourceInfo reaches after its five strings. *)
Definition goldStrings (data : list byte) : nat :=
  let offset := 0 in
  let '(_, offset) := readString data offset in
  let '(_, offset) := readString data offset in
  let '(_, offset) := readString data offset in
  let '(_, offset) := readString data offset in
  let '(_, offset) := readString data offset in
  offset.

(** One iteration of the players loop: the player read at [offset] and the
    offset after it. *)
Definition readPlayer (data : list byte) (offset : nat)
  : Outcome (PlayerInfo.t * nat) :=
  idx <- index data offset ;;
  let offset := offset + 1 in
  let '(name, offset) := readString data offset in
  if length data <? offset + 4 then Fail ErrShortResponse else
  score <- Uint32_at data offset ;;
  let offset := offset + 4 in
  if length data <? offset + 4 then Fail ErrShortResponse else
  bits <- Uint32_at data offset ;;
  let offset := offset + 4 in
  Ok ({| PlayerInfo.Index := idx; PlayerInfo.Name := name;
         PlayerInfo.Score := int32 score; PlayerInfo.Duration := bits;
         PlayerInfo.Deaths := 0; PlayerInfo.Money := 0 |}, offset).

(** One iteration of the rules loop. *)
Definition readRule (data : list byte) (offset : nat) : Rule.t * nat :=
  let '(name, offset) := readString data offset in
  let '(value, offset) := readString data offset in
  ({| Rule.Name := name; Rule.Value := value |}, offset).

(** GetPlayers and GetRules differ in the request type, the response type
    and the parser only; [challengeQuery] is their common text. *)
Definition challengeQuery {A} (net : Net) (request response : byte)
    (parse : list byte -> Outcome A) : M A :=
  fun c =>
    if negb (IsConnected c) then (Fail ErrNotConnected, c) else
    let '(probe, c) := sendRequest net request challengeReq S2C_CHALLENGE c in
    let proceed (c : Client) : Outcome A * Client :=
      if (challenge c =? -1)%Z then (Fail ErrChallengeNotReceived, c) else
      let challengeBytes := bytes32 (uint32 (challenge c)) in
      match sendRequest net request challengeBytes response c with
      | (Ok response, c) => (parse response, c)
      | (Fail err, c) => (Fail err, c)
      | (Panic i n, c) => (Panic i n, c)
      | (PanicNil, c) => (PanicNil, c)
      end in
    match probe with
    | Ok _ => proceed c
    | Fail err =>
        if negb (is_challenge_required err) then (Fail err, c) else proceed c
    | Panic i n => (Panic i n, c)
    | PanicNil => (PanicNil, c)
    end.

(* ================================================================= *)
(** ** What the properties are stated with *)

Definition challengeAtBeginning (packetType : byte) : bool :=
  beq packetType A2S_PLAYER || beq packetType A2S_RULES.

Definition challengeAtEnd (c : Client) (packetType : byte) : bool :=
  beq packetType A2S_INFO && negb (challenge c =? -1)%Z.

(** The layout of a request, as the wire format lists it. *)
Definition requestLayout (c : Client) (packetType : byte)
    (payload : list byte) : list byte :=
  [xff; xff; xff; xff] ++ [packetType]
  ++ (if challengeAtBeginning packetType
      then bytes32 (uint32 (challenge c)) else [])
  ++ payload
  ++ (if challengeAtEnd c packetType
      then bytes32 (uint32 (challenge c)) else []).

(** The challenge a single packet carries: type byte 0x41, then four
    bytes. *)
Definition challengeIn (packet : list byte) : option Z :=
  match packet with
  | t :: b1 :: b2 :: b3 :: b4 :: _ =>
      if beq t S2C_CHALLENGE then Some (int32 (le32 b1 b2 b3 b4)) else None
  | _ => None
  end.

(** The challenge a datagram carries, behind a single-packet header or
    behind a split header and its eight bytes of metadata. *)
Definition carriedChallenge (data : list byte) : option Z :=
  match data with
  | h0 :: h1 :: h2 :: h3 :: rest =>
      if (le32 h0 h1 h2 h3 =? Header)%Z then challengeIn rest
      else if (le32 h0 h1 h2 h3 =? SPLIT_FLAG)%Z
      then challengeIn (skipn 8 rest)
      else None
  | _ => None
  end.

(** The cached challenge after a datagram was read into the 4096-byte
    buffer. *)
Definition challengeAfter (ch : Z) (datagram : list byte) : Z :=
  match carriedChallenge (firstn 4096 datagram) with
  | Some v => v
  | None => ch
  end.

Definition bytes_eqb (a b : list byte) : bool :=
  if list_eq_dec Byte.byte_eq_dec a b then true else false.

(** A request of type PLAYER or RULES has [ch] in the four bytes after its
    type byte. *)
Definition requestCarries (ch : Z) (packet : list byte) : bool :=
  match nth_error packet 4 with
  | Some t =>
      if challengeAtBeginning t
      then bytes_eqb (slice packet 5 9) (bytes32 (uint32 ch))
      else true
  | None => true
  end.

(** The cached challenge after the events [evs] of a socket, from [ch]:
    only a datagram that carries a challenge changes it. *)
Fixpoint cached (ch : Z) (evs : list Event) : Z :=
  match evs with
  | [] => ch
  | Received (ReadOk datagram) :: evs' => cached (challengeAfter ch datagram) evs'
  | _ :: evs' => cached ch evs'
  end.

(** Every PLAYER or RULES request among [evs] carries the challenge that
    was cached when it was handed to the socket. *)
Fixpoint embedded (ch : Z) (evs : list Event) : bool :=
  match evs with
  | [] => true
  | Wrote packet :: evs' => requestCarries ch packet && embedded ch evs'
  | WriteFailed packet :: evs' => requestCarries ch packet && embedded ch evs'
  | Received (ReadOk datagram) :: evs' =>
      embedded (challengeAfter ch datagram) evs'
  | Received _ :: evs' => embedded ch evs'
  end.

Definition conn_history (c : Client) : list Event :=
  match conn c with
  | Some k => history k
  | None => []
  end.

(** [c'] comes from [c] by socket traffic alone: the history grew by some
    events, the challenge is what those events make of it, and the requests
    among them carry the challenge of their moment. *)
Definition follows (c c' : Client) : Prop :=
  exists evs,
    conn_history c' = conn_history c ++ evs /\
    challenge c' = cached (challenge c) evs /\
    embedded (challenge c) evs = true.

(* ================================================================= *)
(** ** Sample clients and servers *)

Definition c_fresh : Client := NewClient 5.

(** A client connected to a server, before any request. *)
Definition c_connected : Client :=
  {| conn := Some {| closed := false; history := [] |};
     challenge := -1; timeout := 5; connected := true |}.

(** A server that answers every request with the challenge 42. *)
Definition challengeReply : list byte :=
  [xff; xff; xff; xff; x41; x2a; x00; x00; x00].

Definition net_challenging : Net :=
  {| net_dial := fun _ => Dialed true;
     net_write := fun _ _ => true;
     net_read := fun _ => ReadOk challengeReply |}.

(** A server that hands out the challenge 42 and answers a request that
    carries it after the type byte with a list of one player. *)
Definition playersReply : list byte :=
  [xff; xff; xff; xff; x44; x01; x00; x61; x00; x01; x00; x00; x00;
   x00; x00; x80; x3f].

Definition net_honest : Net :=
  {| net_dial := fun _ => Dialed true;
     net_write := fun _ _ => true;
     net_read := fun evs =>
       match rev evs with
       | Wrote packet :: _ =>
           if bytes_eqb (slice packet 5 9) [x2a; x00; x00; x00]
           then ReadOk playersReply
           else ReadOk challengeReply
       | _ => ReadTimeout
       end |}.

(** A server that answers every request with a challenge of four FF
    bytes. *)
Definition net_resetting : Net :=
  {| net_dial := fun _ => Dialed true;
     net_write := fun _ _ => true;
     net_read := fun _ =>
       ReadOk [xff; xff; xff; xff; x41; xff; xff; xff; xff] |}.

(* ================================================================= *)
(** ** Wire order and encodings *)

(** Entries read one after the other: [entries] are what [read] returns
    from [start] on, each beginning inside the buffer, where the one before
    it ended, and ending further on; [stop] is where the last one ends. *)
Inductive InWireOrder {A : Type} (len : nat) (read : nat -> option (A * nat))
  : nat -> list A -> nat -> Prop :=
| wire_done (offset : nat) : InWireOrder len read offset [] offset
| wire_next (offset : nat) (a : A) (next : nat) (rest : list A) (stop : nat) :
    offset < len ->
    read offset = Some (a, next) ->
    offset < next ->
    InWireOrder len read next rest stop ->
    InWireOrder len read offset (a :: rest) stop.

Definition playerAt (data : list byte) (offset : nat)
  : option (PlayerInfo.t * nat) :=
  match readPlayer data offset with
  | Ok x => Some x
  | _ => None
  end.

Definition ruleAt (data : list byte) (offset : nat) : option (Rule.t * nat) :=
  Some (readRule data offset).

(** Text on the wire: the bytes of a string have no zero among them and a
    zero ends it. *)
Definition nullFree (s : list byte) : bool :=
  forallb (fun b => negb (beq b x00)) s.

Definition cstring (s : list byte) : list byte := s ++ [x00].

Definition encodeRule (r : list byte * list byte) : list byte :=
  cstring (fst r) ++ cstring (snd r).

Definition encodeRules (rs : list (list byte * list byte)) : list byte :=
  flat_map encodeRule rs.

Definition ruleOf (r : list byte * list byte) : Rule.t :=
  {| Rule.Name := text (fst r); Rule.Value := text (snd r) |}.

Definition wellFormedRule (r : list byte * list byte) : bool :=
  nullFree (fst r) && nullFree (snd r).

(** A player entry on the wire: the slot byte, the name, four score bytes
    and four duration bytes. *)
Record PlayerEntry : Type := {
  pe_Index : byte;
  pe_Name : list byte;
  pe_Score : byte * byte * byte * byte;
  pe_Duration : byte * byte * byte * byte
}.

Definition quad (q : byte * byte * byte * byte) : list byte :=
  let '(b0, b1, b2, b3) := q in [b0; b1; b2; b3].

Definition quad32 (q : byte * byte * byte * byte) : Z :=
  let '(b0, b1, b2, b3) := q in le32 b0 b1 b2 b3.

Definition encodePlayer (e : PlayerEntry) : list byte :=
  [pe_Index e] ++ cstring (pe_Name e) ++ quad (pe_Score e)
  ++ quad (pe_Duration e).

Definition encodePlayers (es : list PlayerEntry) : list byte :=
  flat_map encodePlayer es.

Definition playerOf (e : PlayerEntry) : PlayerInfo.t :=
  {| PlayerInfo.Index := pe_Index e;
     PlayerInfo.Name := text (pe_Name e);
     PlayerInfo.Score := int32 (quad32 (pe_Score e));
     PlayerInfo.Duration := quad32 (pe_Duration e);
     PlayerInfo.Deaths := 0;
     PlayerInfo.Money := 0 |}.

Definition wellFormedPlayer (e : PlayerEntry) : bool := nullFree (pe_Name e).

(* ================================================================= *)
(** ** Sample payloads *)

(** A PLAYER payload announcing two players: slot 7, "a", score 1, duration
    0, complete; then slot 8, "b" and two of the four score bytes. *)
Definition playersCut : list byte :=
  [x02; x07; x61; x00; x01; x00; x00; x00; x00; x00; x00; x00;
   x08; x62; x00; x05; x00].

(** A Source INFO payload: protocol 0x11, "A", "B", "C", "D", app id 2,
    5/16/0 players, type 'd', environment 'l', public, VAC on, "v1", then
    the flags byte 0x80 and the port bytes 87 69 (27015). *)
Definition sourceInfoHead : list byte :=
  [x11; x41; x00; x42; x00; x43; x00; x44; x00; x02; x00;
   x05; x10; x00; x64; x6c; x00; x01; x76; x31; x00].

Definition sourceInfoSample : list byte := sourceInfoHead ++ [x80; x87; x69].




(** GoldSource INFO payloads: five empty strings, then [tail]. *)
Definition goldPayload (tail : list byte) : list byte :=
  [x00; x00; x00; x00; x00] ++ tail.

(** The initial check of parseGoldSourceInfo, [offset+2 > len(data)],
    passes. *)
Definition goldCheckPasses (data : list byte) : bool :=
  goldStrings data + 2 <=? length data.

(* ================================================================= *)
(** ** Further notions for the properties *)

(** The two headers as they stand in a datagram. *)
Definition singleHeader : list byte := [xff; xff; xff; xff].
Definition splitHeader : list byte := [xfe; xff; xff; xff].

(** The errors a query on a connected client can hand to its caller. *)
Definition surfaces (e : Error) : bool :=
  match e with
  | ErrTimeout | ErrTooManyRetries | ErrShortResponse
  | ProtocolError _ _ | ErrUnknownHeader _ | ErrWrite | ErrRead => true
  | ErrNotConnected | ErrChallengeRequired | ErrInvalidResponse
  | ErrUnsupportedFeature | ErrChallengeNotReceived | ErrNet => false
  end.

(** A ProtocolError names [expect] as the expected type. *)
Definition expects (expect : byte) (e : Error) : bool :=
  match e with
  | ProtocolError x _ => beq x expect
  | _ => true
  end.

(** The packets handed to the socket among [evs]. *)
Fixpoint writes (evs : list Event) : nat :=
  match evs with
  | [] => 0
  | Wrote _ :: evs' => S (writes evs')
  | WriteFailed _ :: evs' => S (writes evs')
  | Received _ :: evs' => writes evs'
  end.

(** From [c] to [c'] the socket saw at most [n] writes, and at most one
    read for each. *)
Definition traffic (n : nat) (c c' : Client) : Prop :=
  exists evs,
    conn_history c' = conn_history c ++ evs /\
    writes evs <= n /\ length evs <= 2 * writes evs.

(** The client after one request went out and one datagram came back. *)
Definition exchanged (request datagram : list byte) (c : Client) : Client :=
  match conn c with
  | Some k =>
      set_conn (Some {| closed := closed k;
                        history := history k
                          ++ [Wrote request; Received (ReadOk datagram)] |}) c
  | None => c
  end.

(** The socket is open, takes [request] and answers it with [datagram]. *)
Definition answers (net : Net) (c : Client) (request datagram : list byte)
  : Prop :=
  exists k,
    conn c = Some k /\ closed k = false /\
    net_write net (history k) request = true /\
    net_read net (history k ++ [Wrote request]) = ReadOk datagram.

Definition featuresNone : ServerFeatures.t :=
  {| ServerFeatures.Info := true; ServerFeatures.Players := false;
     ServerFeatures.Rules := false; ServerFeatures.Ping := false |}.

(** Two and eight bytes on the wire, and their little-endian values. *)
Definition pair16 (p : byte * byte) : list byte := [fst p; snd p].
Definition val16 (p : byte * byte) : Z := le16 (fst p) (snd p).

Record Oct : Type := {
  oct0 : byte; oct1 : byte; oct2 : byte; oct3 : byte;
  oct4 : byte; oct5 : byte; oct6 : byte; oct7 : byte
}.

Definition oct (o : Oct) : list byte :=
  [oct0 o; oct1 o; oct2 o; oct3 o; oct4 o; oct5 o; oct6 o; oct7 o].

Definition val64 (o : Oct) : Z :=
  le64 (oct0 o) (oct1 o) (oct2 o) (oct3 o) (oct4 o) (oct5 o) (oct6 o) (oct7 o).

(** A Source INFO payload as it stands on the wire. *)
Record SourceWire : Type := {
  sw_Protocol : byte;
  sw_Name : list byte;
  sw_Map : list byte;
  sw_Folder : list byte;
  sw_Game : list byte;
  sw_AppID : byte * byte;
  sw_Players : byte;
  sw_MaxPlayers : byte;
  sw_Bots : byte;
  sw_ServerType : byte;
  sw_Environment : byte;
  sw_Visibility : byte;
  sw_VAC : byte;
  sw_Version : list byte;
  sw_EDF : byte;
  sw_GamePort : byte * byte;
  sw_SteamID : Oct;
  sw_TVPort : byte * byte;
  sw_TVName : list byte;
  sw_Keywords : list byte;
  sw_GameID : Oct
}.

Definition encodeSourceFixed (w : SourceWire) : list byte :=
  [sw_Protocol w] ++ cstring (sw_Name w) ++ cstring (sw_Map w)
  ++ cstring (sw_Folder w) ++ cstring (sw_Game w) ++ pair16 (sw_AppID w)
  ++ [sw_Players w; sw_MaxPlayers w; sw_Bots w]
  ++ [sw_ServerType w; sw_Environment w; sw_Visibility w; sw_VAC w]
  ++ cstring (sw_Version w).

(** The flags byte, then each optional field whose bit is set, in the order
    0x80, 0x10, 0x40, 0x20, 0x01. *)
Definition encodeSourceExtra (w : SourceWire) : list byte :=
  let e := sw_EDF w in
  [e]
  ++ (if flag e 0x80 then pair16 (sw_GamePort w) else [])
  ++ (if flag e 0x10 then oct (sw_SteamID w) else [])
  ++ (if flag e 0x40 then pair16 (sw_TVPort w) ++ cstring (sw_TVName w)
      else [])
  ++ (if flag e 0x20 then cstring (sw_Keywords w) else [])
  ++ (if flag e 0x01 then oct (sw_GameID w) else []).

Definition sourceStringsOk (w : SourceWire) : bool :=
  nullFree (sw_Name w) && nullFree (sw_Map w) && nullFree (sw_Folder w)
  && nullFree (sw_Game w) && nullFree (sw_Version w)
  && nullFree (sw_TVName w) && nullFree (sw_Keywords w).

(** The record a payload stands for; without the optional part every
    optional field is zero. *)
Definition sourceInfoOf (w : SourceWire) (extra : bool) : ServerInfo.t :=
  let e := sw_EDF w in
  {| ServerInfo.Protocol := sw_Protocol w;
     ServerInfo.Name := text (sw_Name w);
     ServerInfo.Map := text (sw_Map w);
     ServerInfo.Folder := text (sw_Folder w);
     ServerInfo.Game := text (sw_Game w);
     ServerInfo.AppID := val16 (sw_AppID w);
     ServerInfo.Players := sw_Players w;
     ServerInfo.MaxPlayers := sw_MaxPlayers w;
     ServerInfo.Bots := sw_Bots w;
     ServerInfo.ServerType := sw_ServerType w;
     ServerInfo.Environment := sw_Environment w;
     ServerInfo.Visibility := sw_Visibility w;
     ServerInfo.VAC := sw_VAC w;
     ServerInfo.Version := text (sw_Version w);
     ServerInfo.GamePort :=
       if extra && flag e 0x80 then val16 (sw_GamePort w) else 0%Z;
     ServerInfo.SteamID :=
       if extra && flag e 0x10 then val64 (sw_SteamID w) else 0%Z;
     ServerInfo.SourceTV :=
       if extra && flag e 0x40
       then {| SourceTV.Port := val16 (sw_TVPort w);
               SourceTV.Name := text (sw_TVName w) |}
       else SourceTV.zero;
     ServerInfo.Keywords := [];
     ServerInfo.GameID :=
       if extra && flag e 0x01 then val64 (sw_GameID w) else 0%Z;
     ServerInfo.EDF := if extra then e else x00 |}.

(** A GoldSource INFO payload as it stands on the wire; the eleven bytes
    after the two mod strings (separator, version, size, two flags) are
    there only when the mod flag is 1. *)
Record GoldWire : Type := {
  gw_Address : list byte;
  gw_Name : list byte;
  gw_Map : list byte;
  gw_Folder : list byte;
  gw_Game : list byte;
  gw_Players : byte;
  gw_MaxPlayers : byte;
  gw_Protocol : byte;
  gw_ServerType : byte;
  gw_Environment : byte;
  gw_Visibility : byte;
  gw_Mod : byte;
  gw_ModURL : list byte;
  gw_ModDownload : list byte;
  gw_ModRest : list byte;
  gw_VAC : byte
}.

Definition encodeGold (g : GoldWire) : list byte :=
  cstring (gw_Address g) ++ cstring (gw_Name g) ++ cstring (gw_Map g)
  ++ cstring (gw_Folder g) ++ cstring (gw_Game g)
  ++ [gw_Players g; gw_MaxPlayers g; gw_Protocol g; gw_ServerType g;
      gw_Environment g; gw_Visibility g; gw_Mod g]
  ++ (if beq (gw_Mod g) x01
      then cstring (gw_ModURL g) ++ cstring (gw_ModDownload g)
           ++ gw_ModRest g
      else [])
  ++ [gw_VAC g].

Definition goldOk (g : GoldWire) : bool :=
  nullFree (gw_Address g) && nullFree (gw_Name g) && nullFree (gw_Map g)
  && nullFree (gw_Folder g) && nullFree (gw_Game g)
  && nullFree (gw_ModURL g) && nullFree (gw_ModDownload g)
  && (length (gw_ModRest g) =? 11).

Definition goldInfoOf (g : GoldWire) (bots : byte) : ServerInfo.t :=
  {| ServerInfo.Protocol := gw_Protocol g;
     ServerInfo.Name := text (gw_Name g);
     ServerInfo.Map := text (gw_Map g);
     ServerInfo.Folder := text (gw_Folder g);
     ServerInfo.Game := text (gw_Game g);
     ServerInfo.AppID := 0;
     ServerInfo.Players := gw_Players g;
     ServerInfo.MaxPlayers := gw_MaxPlayers g;
     ServerInfo.Bots := bots;
     ServerInfo.ServerType := gw_ServerType g;
     ServerInfo.Environment := gw_Environment g;
     ServerInfo.Visibility := gw_Visibility g;
     ServerInfo.VAC := gw_VAC g;
     ServerInfo.Version := EmptyString;
     ServerInfo.GamePort := 0;
     ServerInfo.SteamID := 0;
     ServerInfo.SourceTV := SourceTV.zero;
     ServerInfo.Keywords := [];
     ServerInfo.GameID := 0;
     ServerInfo.EDF := x00 |}.

(** A server that asks for the challenge 42 first and then answers with
    the sample Source info; and a GoldSource server. *)
Definition net_info_challenge : Net :=
  {| net_dial := fun _ => Dialed true;
     net_write := fun _ _ => true;
     net_read := fun evs =>
       if length evs <? 2 then ReadOk challengeReply
       else ReadOk (singleHeader ++ S2A_INFO_SRC :: sourceInfoSample) |}.

Definition goldInfoSample : list byte :=
  goldPayload [x05; x10; x2f; x64; x6c; x00; x00; x01].

Definition net_gold : Net :=
  {| net_dial := fun _ => Dialed true;
     net_write := fun _ _ => true;
     net_read := fun _ => ReadOk (singleHeader ++ S2A_INFO_GOLD :: goldInfoSample) |}.

(** The client after a request went out and the read timed out. *)
Definition timedOut (request : list byte) (c : Client) : Client :=
  match conn c with
  | Some k =>
      set_conn (Some {| closed := closed k;
                        history := history k
                          ++ [Wrote request; Received ReadTimeout] |}) c
  | None => c
  end.

(** The socket is open and takes [request], and the read then times out. *)
Definition silent (net : Net) (c : Client) (request : list byte) : Prop :=
  exists k,
    conn c = Some k /\ closed k = false /\
    net_write net (history k) request = true /\
    net_read net (history k ++ [Wrote request]) = ReadTimeout.

(** A server that never answers. *)
Definition net_silent : Net :=
  {| net_dial := fun _ => Dialed true;
     net_write := fun _ _ => true;
     net_read := fun _ => ReadTimeout |}.

(** Sample payloads on the wire. *)
Definition zeroOct : Oct :=
  {| oct0 := x00; oct1 := x00; oct2 := x00; oct3 := x00;
     oct4 := x00; oct5 := x00; oct6 := x00; oct7 := x00 |}.

Definition sourceWireSample : SourceWire :=
  {| sw_Protocol := x11; sw_Name := [x53; x65; x72; x76; x65; x72];
     sw_Map := [x64; x65; x5f; x64; x75; x73; x74]; sw_Folder := [x63];
     sw_Game := [x43; x53]; sw_AppID := (x0a, x00);
     sw_Players := x05; sw_MaxPlayers := x10; sw_Bots := x00;
     sw_ServerType := x64; sw_Environment := x6c; sw_Visibility := x00;
     sw_VAC := x01; sw_Version := [x31; x2e; x30];
     sw_EDF := xa1; sw_GamePort := (x87, x69); sw_SteamID := zeroOct;
     sw_TVPort := (x00, x00); sw_TVName := [];
     sw_Keywords := [x61; x2c; x62];
     sw_GameID := {| oct0 := x0a; oct1 := x00; oct2 := x00; oct3 := x00;
                     oct4 := x00; oct5 := x00; oct6 := x00; oct7 := x00 |} |}.

(** Every string empty: complete, and fifteen bytes long. *)
Definition sourceWireMinimal : SourceWire :=
  {| sw_Protocol := x11; sw_Name := []; sw_Map := []; sw_Folder := [];
     sw_Game := []; sw_AppID := (x0a, x00);
     sw_Players := x00; sw_MaxPlayers := x10; sw_Bots := x00;
     sw_ServerType := x64; sw_Environment := x6c; sw_Visibility := x00;
     sw_VAC := x01; sw_Version := [];
     sw_EDF := x00; sw_GamePort := (x00, x00); sw_SteamID := zeroOct;
     sw_TVPort := (x00, x00); sw_TVName := []; sw_Keywords := [];
     sw_GameID := zeroOct |}.

Definition goldWireSample : GoldWire :=
  {| gw_Address := [x31; x3a; x32]; gw_Name := [x48; x4c];
     gw_Map := [x63; x31]; gw_Folder := [x76]; gw_Game := [x48];
     gw_Players := x03; gw_MaxPlayers := x10; gw_Protocol := x2f;
     gw_ServerType := x64; gw_Environment := x6c; gw_Visibility := x00;
     gw_Mod := x01; gw_ModURL := [x75]; gw_ModDownload := [];
     gw_ModRest := [x00; x01; x00; x00; x00; x02; x00; x00; x00; x00; x00];
     gw_VAC := x01 |}.

(* ================================================================= *)
(** * Properties *)

Unset Implicit Arguments.

Arguments beq : simpl never.
Arguments u8 : simpl never.
Arguments byte_of : simpl never.
Arguments le16 : simpl never.
Arguments le32 : simpl never.
Arguments le64 : simpl never.
Arguments text : simpl never.
Arguments flag : simpl never.
Arguments uint32 : simpl never.
Arguments int32 : simpl never.

(** Case analysis on every scrutinee, innermost first. *)
Ltac crunch :=
  repeat match goal with
         | |- context [match ?p with _ => _ end] =>
             lazymatch p with
             | context [match _ with _ => _ end] => fail
             | _ => destruct p
             end
         end.

(** ** Bytes and little-endian words *)

Section Bytes.
Local Open Scope Z_scope.

Lemma u8_range (b : byte) : 0 <= u8 b < 256.
Proof.
  unfold u8. pose proof (Byte.to_N_bounded b) as H. lia.
Qed.

Lemma u8_byte_of (v : Z) : u8 (byte_of v) = v mod 256.
Proof.
  unfold u8, byte_of.
  assert (Hr : 0 <= v mod 256 < 256) by (apply Z.mod_pos_bound; lia).
  destruct (Byte.of_N (Z.to_N (v mod 256))) as [b|] eqn:E.
  - apply Byte.to_of_N in E. rewrite E. lia.
  - apply Byte.of_N_None_iff in E. lia.
Qed.

Lemma byte_of_u8 (b : byte) : byte_of (u8 b) = b.
Proof.
  unfold byte_of, u8.
  pose proof (Byte.to_N_bounded b) as H.
  rewrite Z.mod_small by lia.
  rewrite N2Z.id, Byte.of_to_N. reflexivity.
Qed.

Lemma byte_of_mod (v w : Z) : v mod 256 = w mod 256 -> byte_of v = byte_of w.
Proof. unfold byte_of. intros ->. reflexivity. Qed.

Lemma byte_of_eq (v : Z) (b : byte) : v mod 256 = u8 b -> byte_of v = b.
Proof.
  intros H. rewrite <- (byte_of_u8 b). apply byte_of_mod.
  rewrite H. symmetry. apply Z.mod_small. apply u8_range.
Qed.

Lemma lor_shiftl_add (a b n : Z) :
  0 <= n -> 0 <= a < 2 ^ n -> Z.lor a (Z.shiftl b n) = a + b * 2 ^ n.
Proof.
  intros Hn Ha.
  rewrite Z.shiftl_mul_pow2 by assumption.
  assert (Hd : Z.land a (b * 2 ^ n) = 0).
  2:{ rewrite <- Z.lxor_lor by exact Hd. symmetry.
      apply Z.add_nocarry_lxor. exact Hd. }
  apply Z.bits_inj'. intros k Hk.
  rewrite Z.land_spec, Z.bits_0.
  destruct (Z.lt_ge_cases k n) as [Hlt|Hge].
  - rewrite Z.mul_pow2_bits_low by lia. apply andb_false_r.
  - destruct (Z.eq_dec a 0) as [->|Hne].
    + rewrite Z.bits_0. reflexivity.
    + rewrite (Z.bits_above_log2 a k); [reflexivity|lia|].
      apply Z.log2_lt_pow2; try lia.
      apply Z.lt_le_trans with (2 ^ n); [lia|].
      apply Z.pow_le_mono_r; lia.
Qed.

Lemma le16_arith b0 b1 : le16 b0 b1 = u8 b0 + u8 b1 * 2 ^ 8.
Proof.
  unfold le16. pose proof (u8_range b0).
  rewrite lor_shiftl_add; lia.
Qed.

Lemma le32_arith b0 b1 b2 b3 :
  le32 b0 b1 b2 b3 = u8 b0 + u8 b1 * 2 ^ 8 + u8 b2 * 2 ^ 16 + u8 b3 * 2 ^ 24.
Proof.
  unfold le32.
  pose proof (u8_range b0). pose proof (u8_range b1).
  pose proof (u8_range b2). pose proof (u8_range b3).
  rewrite (lor_shiftl_add (u8 b0)) by lia.
  rewrite (lor_shiftl_add _ (u8 b2)) by lia.
  rewrite (lor_shiftl_add _ (u8 b3)) by lia.
  reflexivity.
Qed.

Lemma le32_range b0 b1 b2 b3 : 0 <= le32 b0 b1 b2 b3 < 2 ^ 32.
Proof.
  rewrite le32_arith.
  pose proof (u8_range b0). pose proof (u8_range b1).
  pose proof (u8_range b2). pose proof (u8_range b3). lia.
Qed.

Lemma bytes32_le32 b0 b1 b2 b3 : bytes32 (le32 b0 b1 b2 b3) = [b0; b1; b2; b3].
Proof.
  unfold bytes32. rewrite !Z.shiftr_div_pow2 by lia. rewrite le32_arith.
  pose proof (u8_range b0). pose proof (u8_range b1).
  pose proof (u8_range b2). pose proof (u8_range b3).
  repeat (f_equal; try (apply byte_of_eq; Z.div_mod_to_equations; lia)).
Qed.

Lemma uint32_int32 (v : Z) : uint32 (int32 v) = v mod 2 ^ 32.
Proof.
  unfold uint32, int32.
  destruct (v mod 2 ^ 32 <? 2 ^ 31) eqn:E.
  - apply Z.mod_mod. lia.
  - Z.div_mod_to_equations. lia.
Qed.

Lemma int32_range v : - 2 ^ 31 <= int32 v < 2 ^ 31.
Proof.
  unfold int32. pose proof (Z.mod_pos_bound v (2 ^ 32)).
  destruct (v mod 2 ^ 32 <? 2 ^ 31) eqn:E; [apply Z.ltb_lt in E|apply Z.ltb_ge in E]; lia.
Qed.

End Bytes.

(** ** The packet codec *)

Lemma beq_refl (b : byte) : beq b b = true.
Proof. unfold beq. apply Byte.byte_dec_lb. reflexivity. Qed.

Lemma beq_true (a b : byte) : beq a b = true -> a = b.
Proof. unfold beq. apply Byte.byte_dec_bl. Qed.

Lemma beq_false (a b : byte) : beq a b = false -> a <> b.
Proof. unfold beq. apply Byte.eqb_false. Qed.

Lemma beq_neq (a b : byte) : a <> b -> beq a b = false.
Proof.
  intros H. destruct (beq a b) eqn:E; [|reflexivity].
  apply beq_true in E. contradiction.
Qed.

Section Codec.

Variable c : Client.
Variable expect : byte.

Lemma processSinglePacket_challenge_eq (b1 b2 b3 b4 : byte) (rest : list byte) :
  processSinglePacket (S2C_CHALLENGE :: b1 :: b2 :: b3 :: b4 :: rest) expect c
  = (Fail ErrChallengeRequired, set_challenge (int32 (le32 b1 b2 b3 b4)) c).
Proof.
  unfold processSinglePacket, mbind, lift, modify, mfail. simpl.
  reflexivity.
Qed.


End Codec.


Lemma from_ok (data : list byte) (offset : nat) :
  offset <= length data -> from data offset = Ok (skipn offset data).
Proof.
  intros H. unfold from.
  destruct (length data <? offset) eqn:E; [apply Nat.ltb_lt in E; lia|reflexivity].
Qed.

Section Split.

Variable c : Client.
Variable expect : byte.

Lemma processResponse_split_eq (data : list byte) :
  4 <= length data ->
  Uint32 (slice data 0 4) = Ok SPLIT_FLAG ->
  processResponse data expect c = processSplitPacket (skipn 4 data) expect c.
Proof.
  intros Hlen Hh. unfold processResponse, mbind, lift.
  destruct (length data <? 4) eqn:E; [apply Nat.ltb_lt in E; lia|].
  rewrite Hh. rewrite from_ok by exact Hlen.
  reflexivity.
Qed.

Lemma processSplitPacket_long (rest : list byte) :
  9 <= length rest ->
  processSplitPacket rest expect c
  = processSinglePacket (skipn 8 rest) expect c.
Proof.
  intros Hlen. unfold processSplitPacket, payloadStart, mbind, lift.
  destruct (length rest <? 9) eqn:E; [apply Nat.ltb_lt in E; lia|].
  destruct (8 <? length rest) eqn:E8; [|apply Nat.ltb_ge in E8; lia].
  change (4 + 1 + 1 + 2) with 8.
  destruct (length rest <=? 8) eqn:E'; [apply Nat.leb_le in E'; lia|].
  rewrite from_ok by lia.
  destruct (processSinglePacket (skipn 8 rest) expect c) as [[r|e|i n|] c'];
    reflexivity.
Qed.

(** C3.  A datagram whose header is the split flag 0xFFFFFFFE, with [rest]
    the bytes after the header: fewer than 9 bytes of [rest] give
    ErrShortResponse; otherwise the payload start is 6, or 8 when more than 8
    bytes remain; a start at or beyond the length of [rest] gives
    ErrInvalidResponse, and otherwise single-packet processing runs on [rest]
    from that start.  With 9 bytes or more the start is always 8 and below
    the length, so the result is single-packet processing from offset 8. *)
Theorem processResponse_split (data : list byte) :
  4 <= length data ->
  Uint32 (slice data 0 4) = Ok SPLIT_FLAG ->
  let rest := skipn 4 data in
  (length rest < 9 ->
   processResponse data expect c = (Fail ErrShortResponse, c)) /\
  (9 <= length rest ->
   exists start,
     start = (if 8 <? length rest then 6 + 2 else 6) /\
     payloadStart (length rest) = start /\
     (length rest <= start ->
      processResponse data expect c = (Fail ErrInvalidResponse, c)) /\
     (start < length rest ->
      processResponse data expect c
      = processSinglePacket (skipn start rest) expect c) /\
     start = 8 /\ start < length rest).
Proof.
  intros Hlen Hh rest. rewrite (processResponse_split_eq data Hlen Hh).
  fold rest. split.
  - intros Hshort. unfold processSplitPacket.
    apply Nat.ltb_lt in Hshort. rewrite Hshort. reflexivity.
  - intros Hlong. exists 8.
    assert (E8 : (8 <? length rest) = true) by (apply Nat.ltb_lt; lia).
    rewrite E8. unfold payloadStart. rewrite E8.
    repeat split; try reflexivity; try lia.
    intros _. apply processSplitPacket_long. exact Hlong.
Qed.

End Split.

Lemma processResponse_split_witness :
  processResponse
    [xfe; xff; xff; xff; x01; x00; x00; x00; x00; x02; x00; x00;
     x44; x00; x07] S2A_PLAYER c_fresh
  = (Ok [x00; x07], c_fresh) /\
  processResponse
    [xfe; xff; xff; xff; x01; x00; x00; x00; x00; x02; x00; x44]
    S2A_PLAYER c_fresh
  = (Fail ErrShortResponse, c_fresh).
Proof.
  split.
  - destruct (processResponse_split c_fresh S2A_PLAYER
      [xfe; xff; xff; xff; x01; x00; x00; x00; x00; x02; x00; x00;
       x44; x00; x07] ltac:(simpl; lia) eq_refl) as [_ H].
    destruct (H ltac:(simpl; lia)) as (start & _ & _ & _ & Hrun & -> & Hlt).
    rewrite (Hrun Hlt). reflexivity.
  - apply (processResponse_split c_fresh S2A_PLAYER
      [xfe; xff; xff; xff; x01; x00; x00; x00; x00; x02; x00; x44]
      ltac:(simpl; lia) eq_refl).
    simpl. lia.
Defined.

(** ** buildPacket *)

Section Build.

Lemma skipn_zeros (k n : nat) : skipn k (repeat x00 n) = repeat x00 (n - k).
Proof.
  revert n. induction k as [|k IH]; intros n.
  - rewrite Nat.sub_0_r. reflexivity.
  - destruct n as [|n]; [reflexivity|]. simpl. apply IH.
Qed.

(** A packet under construction: the bytes written so far, then zeros. *)
Lemma copy_at_fill (pre src : list byte) (n : nat) :
  length src <= n ->
  copy_at (pre ++ repeat x00 n) (length pre) src
  = Ok ((pre ++ src) ++ repeat x00 (n - length src)).
Proof.
  intros Hn. unfold copy_at.
  rewrite length_app, repeat_length.
  destruct (length pre + n <? length pre) eqn:E; [apply Nat.ltb_lt in E; lia|].
  replace (length pre + n - length pre) with n by lia.
  rewrite Nat.min_r by exact Hn.
  rewrite firstn_app, Nat.sub_diag, firstn_all, firstn_O, app_nil_r.
  rewrite firstn_all.
  rewrite skipn_app.
  rewrite skipn_all2 by lia.
  replace (length pre + length src - length pre) with (length src) by lia.
  rewrite skipn_zeros, <- app_assoc. reflexivity.
Qed.

Lemma PutUint32_at_fill (pre : list byte) (n : nat) (v : Z) :
  4 <= n ->
  PutUint32_at (pre ++ repeat x00 n) (length pre) v
  = Ok ((pre ++ bytes32 v) ++ repeat x00 (n - 4)).
Proof.
  intros Hn. unfold PutUint32_at.
  rewrite length_app, repeat_length.
  destruct (length pre + n <? length pre + 4) eqn:E;
    [apply Nat.ltb_lt in E; lia|].
  apply (copy_at_fill pre (bytes32 v) n). exact Hn.
Qed.

Lemma store_fill (pre : list byte) (n : nat) (v : byte) :
  store (pre ++ repeat x00 (S n)) (length pre) v
  = Ok ((pre ++ [v]) ++ repeat x00 n).
Proof.
  unfold store. rewrite length_app, repeat_length.
  destruct (length pre <? length pre + S n) eqn:E;
    [|apply Nat.ltb_ge in E; lia].
  rewrite firstn_app, Nat.sub_diag, firstn_all, firstn_O, app_nil_r.
  rewrite skipn_app, skipn_all2 by lia.
  replace (S (length pre) - length pre) with 1 by lia.
  simpl. rewrite <- app_assoc. reflexivity.
Qed.

Lemma store_next (pre : list byte) (n : nat) (packet : list byte)
    (off : nat) (v : byte) :
  packet = pre ++ repeat x00 (S n) -> off = length pre ->
  store packet off v = Ok ((pre ++ [v]) ++ repeat x00 n).
Proof. intros -> ->. apply store_fill. Qed.

Lemma PutUint32_next (pre : list byte) (n : nat) (packet : list byte)
    (off : nat) (v : Z) :
  packet = pre ++ repeat x00 (4 + n) -> off = length pre ->
  PutUint32_at packet off v = Ok ((pre ++ bytes32 v) ++ repeat x00 n).
Proof.
  intros -> ->. rewrite PutUint32_at_fill by lia.
  replace (4 + n - 4) with n by lia. reflexivity.
Qed.

Lemma copy_next (pre src : list byte) (n : nat) (packet : list byte)
    (off : nat) :
  packet = pre ++ repeat x00 (length src + n) -> off = length pre ->
  copy_at packet off src = Ok ((pre ++ src) ++ repeat x00 n).
Proof.
  intros -> ->. rewrite copy_at_fill by lia.
  replace (length src + n - length src) with n by lia. reflexivity.
Qed.

Ltac side :=
  first [ reflexivity
        | rewrite ?length_app; simpl; lia
        | rewrite <- ?app_assoc; simpl; repeat f_equal; lia ].

Lemma buildPacket_layout (c : Client) (packetType : byte) (payload : list byte) :
  buildPacket c packetType payload = Ok (requestLayout c packetType payload).
Proof.
  unfold buildPacket, requestLayout.
  fold (challengeAtBeginning packetType). fold (challengeAtEnd c packetType).
  set (ch := bytes32 (uint32 (challenge c))).
  assert (Hch : length ch = 4) by reflexivity.
  set (hd := [xff; xff; xff; xff]).
  destruct (challengeAtBeginning packetType), (challengeAtEnd c packetType);
    cbv zeta.
  - rewrite (PutUint32_next [] (1 + 4 + length payload + 4)) by side.
    unfold obind at 1.
    rewrite (store_next hd (4 + length payload + 4)) by side.
    unfold obind at 1.
    rewrite (PutUint32_next (hd ++ [packetType]) (length payload + 4))
      by side.
    unfold obind at 1 2.
    rewrite (copy_next ((hd ++ [packetType]) ++ ch) payload 4 _ _)
      by side.
    unfold obind at 1.
    rewrite (PutUint32_next (((hd ++ [packetType]) ++ ch) ++ payload) 0)
      by side.
    fold ch. simpl repeat. rewrite app_nil_r, <- !app_assoc. reflexivity.
  - rewrite (PutUint32_next [] (1 + 4 + length payload)) by side.
    unfold obind at 1.
    rewrite (store_next hd (4 + length payload)) by side.
    unfold obind at 1.
    rewrite (PutUint32_next (hd ++ [packetType]) (length payload))
      by side.
    unfold obind at 1 2.
    rewrite (copy_next ((hd ++ [packetType]) ++ ch) payload 0)
      by side.
    unfold obind at 1.
    fold ch. simpl repeat. rewrite !app_nil_r, <- !app_assoc. reflexivity.
  - rewrite (PutUint32_next [] (1 + length payload + 4)) by side.
    unfold obind at 1.
    rewrite (store_next hd (length payload + 4)) by side.
    unfold obind at 1 2.
    rewrite (copy_next (hd ++ [packetType]) payload 4) by side.
    unfold obind at 1.
    rewrite (PutUint32_next ((hd ++ [packetType]) ++ payload) 0)
      by side.
    fold ch. simpl repeat. rewrite app_nil_r, <- !app_assoc. reflexivity.
  - rewrite (PutUint32_next [] (1 + length payload)) by side.
    unfold obind at 1.
    rewrite (store_next hd (length payload)) by side.
    unfold obind at 1 2.
    rewrite (copy_next (hd ++ [packetType]) payload 0) by side.
    unfold obind at 1.
    simpl repeat. rewrite !app_nil_r, <- !app_assoc. reflexivity.
Qed.

End Build.

Lemma le32_bytes32 (v : Z) : Uint32 (bytes32 v) = Ok (v mod 2 ^ 32)%Z.
Proof.
  unfold bytes32, Uint32. f_equal. rewrite le32_arith, !u8_byte_of.
  rewrite !Z.shiftr_div_pow2 by lia.
  Z.div_mod_to_equations. lia.
Qed.

(** C4.  Every packet [buildPacket] returns is the header FF FF FF FF, the
    type byte, for a PLAYER or RULES request the four little-endian bytes of
    the cached challenge, the payload as it is, and for an INFO request with
    a cached challenge other than -1 the four challenge bytes at the end; an
    INFO request with challenge -1 has no challenge bytes. *)
Theorem buildPacket_request_layout (c : Client) (payload : list byte) :
  let ch := bytes32 (uint32 (challenge c)) in
  (forall packetType,
     buildPacket c packetType payload
     = Ok (requestLayout c packetType payload)) /\
  Uint32 ch = Ok (uint32 (challenge c)) /\
  buildPacket c A2S_PLAYER payload
    = Ok ([xff; xff; xff; xff; x55] ++ ch ++ payload) /\
  buildPacket c A2S_RULES payload
    = Ok ([xff; xff; xff; xff; x56] ++ ch ++ payload) /\
  (challenge c <> (-1)%Z ->
   buildPacket c A2S_INFO payload
     = Ok ([xff; xff; xff; xff; x54] ++ payload ++ ch)) /\
  (challenge c = (-1)%Z ->
   buildPacket c A2S_INFO payload
     = Ok ([xff; xff; xff; xff; x54] ++ payload)).
Proof.
  intros ch. split; [intros pt; apply buildPacket_layout|].
  split.
  { unfold ch. rewrite le32_bytes32. unfold uint32.
    rewrite Z.mod_mod by lia. reflexivity. }
  rewrite !buildPacket_layout. unfold requestLayout, challengeAtEnd.
  change (challengeAtBeginning A2S_PLAYER) with true.
  change (challengeAtBeginning A2S_RULES) with true.
  change (challengeAtBeginning A2S_INFO) with false.
  change (beq A2S_PLAYER A2S_INFO) with false.
  change (beq A2S_RULES A2S_INFO) with false.
  change (beq A2S_INFO A2S_INFO) with true.
  fold ch. cbn [andb app]. rewrite !app_nil_r.
  repeat split.
  - intros Hne. apply Z.eqb_neq in Hne. rewrite Hne. reflexivity.
  - intros ->. rewrite app_nil_r. reflexivity.
Qed.

Lemma buildPacket_request_layout_witness :
  buildPacket (set_challenge 42 c_fresh) A2S_INFO infoPayload
    = Ok ([xff; xff; xff; xff; x54] ++ infoPayload ++ [x2a; x00; x00; x00]) /\
  buildPacket c_fresh A2S_INFO infoPayload
    = Ok ([xff; xff; xff; xff; x54] ++ infoPayload).
Proof.
  split.
  - apply (buildPacket_request_layout (set_challenge 42 c_fresh) infoPayload).
    simpl. discriminate.
  - apply (buildPacket_request_layout c_fresh infoPayload). reflexivity.
Defined.


(** ** The retry wrapper *)

Lemma is_challenge_required_true (e : Error) :
  is_challenge_required e = true <-> e = ErrChallengeRequired.
Proof. destruct e; simpl; split; intros H; try discriminate; reflexivity. Qed.

Lemma is_challenge_required_false (e : Error) :
  is_challenge_required e = false <-> e <> ErrChallengeRequired.
Proof.
  destruct e; simpl; split; intros H; try reflexivity; try discriminate;
    try congruence.
Qed.

Section Retry.

Variable net : Net.
Variables (packetType : byte) (payload : list byte) (expectResponse : byte).

Local Abbreviation raw := (sendRequestRaw net packetType payload expectResponse).
Local Abbreviation send := (sendRequest net packetType payload expectResponse).
Local Abbreviation loop n := (sendRequestLoop net n packetType payload expectResponse).

Lemma sendRequestLoop_done (n : nat) (c : Client) :
  fst (raw c) <> Fail ErrChallengeRequired -> loop (S n) c = raw c.
Proof.
  intros H. simpl. destruct (raw c) as [[r|e|i k|] c1]; try reflexivity.
  simpl in H. destruct (is_challenge_required e) eqn:E; [|reflexivity].
  apply is_challenge_required_true in E. congruence.
Qed.

Lemma sendRequestLoop_again (n : nat) (c : Client) :
  fst (raw c) = Fail ErrChallengeRequired ->
  loop (S n) c = loop n (snd (raw c)).
Proof.
  intros H. simpl. destruct (raw c) as [[r|e|i k|] c1]; simpl in H;
    try discriminate.
  injection H as ->. reflexivity.
Qed.

(** C5.  [sendRequest] runs at most three send/receive cycles, each on the
    client the previous one left: a cycle that does not yield
    ErrChallengeRequired ends the call with that cycle's result (a payload or
    any other error) and no further cycle; ErrChallengeRequired leads to the
    next cycle; three in a row give ErrTooManyRetries. *)
Theorem sendRequest_retry (c : Client) :
  let a1 := raw c in
  let a2 := raw (snd a1) in
  let a3 := raw (snd a2) in
  (fst a1 <> Fail ErrChallengeRequired -> send c = a1) /\
  (fst a1 = Fail ErrChallengeRequired ->
   fst a2 <> Fail ErrChallengeRequired -> send c = a2) /\
  (fst a1 = Fail ErrChallengeRequired ->
   fst a2 = Fail ErrChallengeRequired ->
   fst a3 <> Fail ErrChallengeRequired -> send c = a3) /\
  (fst a1 = Fail ErrChallengeRequired ->
   fst a2 = Fail ErrChallengeRequired ->
   fst a3 = Fail ErrChallengeRequired ->
   send c = (Fail ErrTooManyRetries, snd a3)).
Proof.
  intros a1 a2 a3. unfold sendRequest. repeat split.
  - intros H1. apply sendRequestLoop_done. exact H1.
  - intros H1 H2. rewrite sendRequestLoop_again by exact H1.
    apply sendRequestLoop_done. exact H2.
  - intros H1 H2 H3. rewrite sendRequestLoop_again by exact H1.
    rewrite sendRequestLoop_again by exact H2.
    apply sendRequestLoop_done. exact H3.
  - intros H1 H2 H3. rewrite sendRequestLoop_again by exact H1.
    rewrite sendRequestLoop_again by exact H2.
    rewrite sendRequestLoop_again by exact H3. reflexivity.
Qed.

Lemma sendRequestLoop_not_challenge (n : nat) (c : Client) :
  fst (loop n c) <> Fail ErrChallengeRequired.
Proof.
  revert c. induction n as [|n IH]; intros c; [simpl; discriminate|].
  simpl. destruct (raw c) as [[r|e|i k|] c1]; try (simpl; discriminate).
  destruct (is_challenge_required e) eqn:E; [apply IH|].
  simpl. apply is_challenge_required_false in E. congruence.
Qed.

Lemma sendRequestLoop_ok (n : nat) (c : Client) (r : list byte) (c' : Client) :
  loop n c = (Ok r, c') -> exists c0, raw c0 = (Ok r, c').
Proof.
  revert c. induction n as [|n IH]; intros c; [simpl; discriminate|].
  simpl. destruct (raw c) as [[r1|e|i k|] c1] eqn:E.
  - intros H. exists c. congruence.
  - destruct (is_challenge_required e); [apply IH|discriminate].
  - discriminate.
  - discriminate.
Qed.

End Retry.

Lemma sendRequest_retry_witness :
  sendRequest net_challenging A2S_PLAYER challengeReq S2A_PLAYER c_connected
  = (Fail ErrTooManyRetries,
     snd (sendRequestRaw net_challenging A2S_PLAYER challengeReq S2A_PLAYER
       (snd (sendRequestRaw net_challenging A2S_PLAYER challengeReq S2A_PLAYER
         (snd (sendRequestRaw net_challenging A2S_PLAYER challengeReq
                 S2A_PLAYER c_connected)))))).
Proof.
  apply (sendRequest_retry net_challenging A2S_PLAYER challengeReq S2A_PLAYER
           c_connected); reflexivity.
Defined.

(** ** What a response does to the client *)

Lemma processSinglePacket_state (data : list byte) (expect : byte) (c : Client) :
  snd (processSinglePacket data expect c)
  = match challengeIn data with
    | Some v => set_challenge v c
    | None => c
    end.
Proof.
  unfold processSinglePacket, challengeIn, mbind, lift, modify, mfail.
  destruct data as [|t [|b1 [|b2 [|b3 [|b4 rest]]]]]; simpl;
    try reflexivity;
    destruct (beq t S2C_CHALLENGE); try reflexivity;
    destruct (beq t expect); reflexivity.
Qed.

Lemma challengeIn_short (data : list byte) :
  length data < 5 -> challengeIn data = None.
Proof.
  destruct data as [|t [|b1 [|b2 [|b3 [|b4 rest]]]]]; simpl; try reflexivity.
  lia.
Qed.

Lemma processSplitPacket_state (data : list byte) (expect : byte) (c : Client) :
  snd (processSplitPacket data expect c)
  = match challengeIn (skipn 8 data) with
    | Some v => set_challenge v c
    | None => c
    end.
Proof.
  destruct (Nat.lt_ge_cases (length data) 9) as [Hs|Hl].
  - rewrite challengeIn_short by (rewrite length_skipn; lia).
    unfold processSplitPacket. apply Nat.ltb_lt in Hs. rewrite Hs.
    reflexivity.
  - rewrite processSplitPacket_long by exact Hl.
    apply processSinglePacket_state.
Qed.

Lemma processResponse_state (data : list byte) (expect : byte) (c : Client) :
  snd (processResponse data expect c)
  = match carriedChallenge data with
    | Some v => set_challenge v c
    | None => c
    end.
Proof.
  destruct data as [|h0 [|h1 [|h2 [|h3 rest]]]]; try reflexivity.
  unfold processResponse, carriedChallenge, mbind, lift.
  change (length (h0 :: h1 :: h2 :: h3 :: rest) <? 4) with false.
  change (Uint32 (slice (h0 :: h1 :: h2 :: h3 :: rest) 0 4))
    with (Ok (A := Z) (le32 h0 h1 h2 h3)).
  change (from (h0 :: h1 :: h2 :: h3 :: rest) 4) with (Ok rest).
  change (uint32 Header) with Header.
  change (uint32 SPLIT_FLAG) with SPLIT_FLAG.
  cbv iota beta.
  destruct (le32 h0 h1 h2 h3 =? Header)%Z.
  - rewrite <- processSinglePacket_state with (expect := expect).
    destruct (processSinglePacket rest expect c) as [[r|e|i n|] c']; reflexivity.
  - destruct (le32 h0 h1 h2 h3 =? SPLIT_FLAG)%Z; [|reflexivity].
    rewrite <- processSplitPacket_state with (expect := expect).
    destruct (processSplitPacket rest expect c) as [[r|e|i n|] c']; reflexivity.
Qed.

Lemma processResponse_conn (data : list byte) (expect : byte) (c : Client) :
  conn (snd (processResponse data expect c)) = conn c.
Proof.
  rewrite processResponse_state.
  destruct (carriedChallenge data); reflexivity.
Qed.

(** With the challenge type as the expected type no packet is a payload. *)
Lemma processSinglePacket_expect_challenge (data : list byte) (c : Client) :
  is_ok (fst (processSinglePacket data S2C_CHALLENGE c)) = false.
Proof.
  unfold processSinglePacket, mbind, lift, modify, mfail.
  destruct data as [|t [|b1 [|b2 [|b3 [|b4 rest]]]]]; simpl;
    try reflexivity;
    destruct (beq t S2C_CHALLENGE); reflexivity.
Qed.

Lemma processResponse_expect_challenge (data : list byte) (c : Client) :
  is_ok (fst (processResponse data S2C_CHALLENGE c)) = false.
Proof.
  destruct data as [|h0 [|h1 [|h2 [|h3 rest]]]]; try reflexivity.
  unfold processResponse, mbind, lift.
  change (length (h0 :: h1 :: h2 :: h3 :: rest) <? 4) with false.
  change (Uint32 (slice (h0 :: h1 :: h2 :: h3 :: rest) 0 4))
    with (Ok (A := Z) (le32 h0 h1 h2 h3)).
  change (from (h0 :: h1 :: h2 :: h3 :: rest) 4) with (Ok rest).
  cbv iota beta.
  destruct (le32 h0 h1 h2 h3 =? uint32 Header)%Z.
  - pose proof (processSinglePacket_expect_challenge rest c) as H.
    destruct (processSinglePacket rest S2C_CHALLENGE c) as [[r|e|i n|] c'];
      [discriminate H|reflexivity..].
  - destruct (le32 h0 h1 h2 h3 =? uint32 SPLIT_FLAG)%Z; [|reflexivity].
    destruct (Nat.lt_ge_cases (length rest) 9) as [Hs|Hl].
    + unfold processSplitPacket. apply Nat.ltb_lt in Hs. rewrite Hs.
      reflexivity.
    + rewrite processSplitPacket_long by exact Hl.
      pose proof (processSinglePacket_expect_challenge (skipn 8 rest) c) as H.
      destruct (processSinglePacket (skipn 8 rest) S2C_CHALLENGE c)
        as [[r|e|i n|] c']; [discriminate H|reflexivity..].
Qed.

Lemma GetPlayers_query (net : Net) :
  GetPlayers net = challengeQuery net A2S_PLAYER S2A_PLAYER parsePlayersResponse.
Proof. reflexivity. Qed.

Lemma GetRules_query (net : Net) :
  GetRules net = challengeQuery net A2S_RULES S2A_RULES parseRulesResponse.
Proof. reflexivity. Qed.

Section Probe.

Variable net : Net.

(** One cycle, spelled out. *)
Lemma sendRequestRaw_cases (packetType : byte) (payload : list byte)
    (expectResponse : byte) (c : Client) :
  sendRequestRaw net packetType payload expectResponse c
  = let packet := requestLayout c packetType payload in
    match conn c with
    | None => (PanicNil, c)
    | Some k =>
        if closed k then (Fail ErrWrite, c)
        else if net_write net (history k) packet then
          let k1 := log_event (Wrote packet) k in
          let r := net_read net (history k1) in
          let c2 := set_conn (Some (log_event (Received r) k1)) c in
          match r with
          | ReadTimeout => (Fail ErrTimeout, c2)
          | ReadError => (Fail ErrRead, c2)
          | ReadOk datagram =>
              processResponse (firstn 4096 datagram) expectResponse c2
          end
        else
          (Fail ErrWrite, set_conn (Some (log_event (WriteFailed packet) k)) c)
    end.
Proof.
  unfold sendRequestRaw, mbind. rewrite buildPacket_layout.
  unfold conn_SetDeadline, conn_Write, conn_Read. cbv zeta.
  destruct (conn c) as [k|] eqn:Ek; [|reflexivity].
  rewrite Ek. destruct (closed k); [reflexivity|].
  destruct (net_write net (history k) (requestLayout c packetType payload));
    [|reflexivity].
  cbn [conn set_conn].
  destruct (net_read net
              (history (log_event (Wrote (requestLayout c packetType payload)) k)))
    as [| |d]; reflexivity.
Qed.

(** Without a socket the cycle panics before anything is sent; with one,
    the client has a socket afterwards too. *)
Lemma sendRequestRaw_nil (packetType : byte) (payload : list byte)
    (expectResponse : byte) (c : Client) :
  conn c = None ->
  sendRequestRaw net packetType payload expectResponse c = (PanicNil, c).
Proof. intros H. rewrite sendRequestRaw_cases. cbv zeta. rewrite H. reflexivity. Qed.

Lemma sendRequestRaw_conn (packetType : byte) (payload : list byte)
    (expectResponse : byte) (c : Client) :
  conn c <> None ->
  conn (snd (sendRequestRaw net packetType payload expectResponse c)) <> None.
Proof.
  intros H. rewrite sendRequestRaw_cases. cbv zeta.
  destruct (conn c) as [k|] eqn:Ek; [|contradiction].
  destruct (closed k); [simpl; congruence|].
  destruct (net_write net (history k) (requestLayout c packetType payload));
    [|simpl; discriminate].
  destruct (net_read net
              (history (log_event (Wrote (requestLayout c packetType payload)) k)))
    as [| |d]; try (simpl; discriminate).
  rewrite processResponse_conn. simpl. discriminate.
Qed.

Lemma sendRequestLoop_conn (n : nat) (packetType : byte) (payload : list byte)
    (expectResponse : byte) (c : Client) :
  conn c <> None ->
  conn (snd (sendRequestLoop net n packetType payload expectResponse c))
    <> None.
Proof.
  revert c. induction n as [|n IH]; intros c H; [exact H|].
  simpl.
  pose proof (sendRequestRaw_conn packetType payload expectResponse c H) as H1.
  destruct (sendRequestRaw net packetType payload expectResponse c)
    as [[r|e|i k|] c1]; simpl in H1; try exact H1.
  destruct (is_challenge_required e); [apply IH; exact H1|exact H1].
Qed.

Lemma IsConnected_conn (c : Client) : IsConnected c = true -> conn c <> None.
Proof.
  unfold IsConnected. intros H. apply andb_prop in H. destruct H as [_ H].
  destruct (conn c); [discriminate|discriminate H].
Qed.

Lemma sendRequestRaw_expect_challenge (packetType : byte) (payload : list byte)
    (c : Client) :
  is_ok (fst (sendRequestRaw net packetType payload S2C_CHALLENGE c)) = false.
Proof.
  rewrite sendRequestRaw_cases. cbv zeta.
  destruct (conn c) as [k|]; [|reflexivity].
  destruct (closed k); [reflexivity|].
  destruct (net_write net (history k) (requestLayout c packetType payload));
    [|reflexivity].
  destruct (net_read net
              (history (log_event (Wrote (requestLayout c packetType payload)) k)))
    as [| |d]; try reflexivity.
  apply processResponse_expect_challenge.
Qed.

(** The probe of GetPlayers and GetRules never returns a payload and never
    returns ErrChallengeRequired. *)
Lemma probe_fails (packetType : byte) (c : Client) :
  match fst (sendRequest net packetType challengeReq S2C_CHALLENGE c) with
  | Ok _ => False
  | Fail err => is_challenge_required err = false
  | Panic _ _ => True
  | PanicNil => True
  end.
Proof.
  destruct (sendRequest net packetType challengeReq S2C_CHALLENGE c)
    as [[r|e|i n|] c'] eqn:E; simpl; [| |exact I..].
  - apply sendRequestLoop_ok in E. destruct E as [c0 E].
    pose proof (sendRequestRaw_expect_challenge packetType challengeReq c0) as H.
    rewrite E in H. discriminate H.
  - apply is_challenge_required_false. intros ->.
    apply (sendRequestLoop_not_challenge net packetType challengeReq
             S2C_CHALLENGE 3 c).
    unfold sendRequest in E. rewrite E. reflexivity.
Qed.

Lemma challengeQuery_never_ok {A : Type} (request response : byte)
    (parse : list byte -> Outcome A) (c : Client) :
  is_ok (fst (challengeQuery net request response parse c)) = false.
Proof.
  unfold challengeQuery.
  destruct (negb (IsConnected c)); [reflexivity|].
  pose proof (probe_fails request c) as H.
  destruct (sendRequest net request challengeReq S2C_CHALLENGE c)
    as [[r|e|i n|] c']; simpl in H; [contradiction| |reflexivity..].
  rewrite H. reflexivity.
Qed.

End Probe.

(** C1 (the code departs from it).  A connected client, a server that
    answers every request with a challenge: each probe cycle yields
    ErrChallengeRequired inside [sendRequest], which retries it and gives up
    with ErrTooManyRetries; GetPlayers and GetRules return that error after
    three probes, with the challenge 42 cached, and never send the real
    request.  Against a server that answers the retried probe, which now
    carries the challenge, with the player list, GetPlayers returns the
    ProtocolError of the probe (expected 0x41, got 0x44).  In general
    neither GetPlayers nor GetRules ever returns a result. *)
Theorem challenge_probe_aborts :
  let probe1 t := [xff; xff; xff; xff; t; xff; xff; xff; xff;
                   xff; xff; xff; xff] in
  let probe2 t := [xff; xff; xff; xff; t; x2a; x00; x00; x00;
                   xff; xff; xff; xff] in
  let after t :=
    {| conn := Some {| closed := false;
                       history := [Wrote (probe1 t); Received (ReadOk challengeReply);
                                   Wrote (probe2 t); Received (ReadOk challengeReply);
                                   Wrote (probe2 t); Received (ReadOk challengeReply)] |};
       challenge := 42; timeout := 5; connected := true |} in
  GetPlayers net_challenging c_connected = (Fail ErrTooManyRetries, after x55) /\
  GetRules net_challenging c_connected = (Fail ErrTooManyRetries, after x56) /\
  GetPlayers net_honest c_connected
  = (Fail (ProtocolError S2C_CHALLENGE S2A_PLAYER),
     {| conn := Some {| closed := false;
                        history := [Wrote (probe1 x55);
                                    Received (ReadOk challengeReply);
                                    Wrote (probe2 x55);
                                    Received (ReadOk playersReply)] |};
        challenge := 42; timeout := 5; connected := true |}) /\
  (forall net c, is_ok (fst (GetPlayers net c)) = false) /\
  (forall net c, is_ok (fst (GetRules net c)) = false).
Proof.
  cbv zeta. split; [vm_compute; reflexivity|].
  split; [vm_compute; reflexivity|].
  split; [vm_compute; reflexivity|].
  split; intros net c;
    [rewrite GetPlayers_query|rewrite GetRules_query];
    apply challengeQuery_never_ok.
Qed.

(** ** The cached challenge over the life of a client *)

Lemma cached_app (evs1 evs2 : list Event) (ch : Z) :
  cached ch (evs1 ++ evs2) = cached (cached ch evs1) evs2.
Proof.
  revert ch. induction evs1 as [|e evs1 IH]; intros ch; [reflexivity|].
  destruct e as [p|p|[| |d]]; simpl; apply IH.
Qed.

Lemma embedded_app (evs1 evs2 : list Event) (ch : Z) :
  embedded ch (evs1 ++ evs2)
  = embedded ch evs1 && embedded (cached ch evs1) evs2.
Proof.
  revert ch. induction evs1 as [|e evs1 IH]; intros ch; [reflexivity|].
  destruct e as [p|p|[| |d]]; simpl; rewrite IH;
    try reflexivity; apply andb_assoc.
Qed.

Lemma follows_refl (c : Client) : follows c c.
Proof.
  exists []. rewrite app_nil_r. repeat split.
Qed.

Lemma follows_trans (c1 c2 c3 : Client) :
  follows c1 c2 -> follows c2 c3 -> follows c1 c3.
Proof.
  intros (e1 & Hh1 & Hc1 & He1) (e2 & Hh2 & Hc2 & He2).
  exists (e1 ++ e2). split; [|split].
  - rewrite Hh2, Hh1, app_assoc. reflexivity.
  - rewrite cached_app, <- Hc1. exact Hc2.
  - rewrite embedded_app, He1, <- Hc1, He2. reflexivity.
Qed.

Lemma bytes_eqb_refl (a : list byte) : bytes_eqb a a = true.
Proof.
  unfold bytes_eqb. destruct (list_eq_dec Byte.byte_eq_dec a a);
    [reflexivity|contradiction].
Qed.

Lemma requestCarries_layout (c : Client) (packetType : byte)
    (payload : list byte) :
  requestCarries (challenge c) (requestLayout c packetType payload) = true.
Proof.
  unfold requestCarries, requestLayout. cbn [app nth_error].
  destruct (challengeAtBeginning packetType); [|reflexivity].
  unfold slice. cbn [skipn Nat.sub firstn app bytes32].
  apply bytes_eqb_refl.
Qed.

Section Follows.

Variable net : Net.

Lemma sendRequestRaw_follows (packetType : byte) (payload : list byte)
    (expectResponse : byte) (c : Client) :
  follows c (snd (sendRequestRaw net packetType payload expectResponse c)).
Proof.
  rewrite sendRequestRaw_cases. cbv zeta.
  set (packet := requestLayout c packetType payload).
  pose proof (requestCarries_layout c packetType payload) as Hp.
  fold packet in Hp.
  destruct (conn c) as [k|] eqn:Ek; [|apply follows_refl].
  destruct (closed k); [apply follows_refl|].
  destruct (net_write net (history k) packet).
  - set (r := net_read net (history (log_event (Wrote packet) k))).
    exists [Wrote packet; Received r].
    assert (Hh : forall c2,
               conn c2 = Some (log_event (Received r) (log_event (Wrote packet) k)) ->
               conn_history c2 = conn_history c ++ [Wrote packet; Received r]).
    { intros c2 H2. unfold conn_history. rewrite H2, Ek. simpl.
      rewrite <- app_assoc. reflexivity. }
    destruct r as [| |d] eqn:Er.
    + simpl. rewrite Hp. repeat split. apply Hh. reflexivity.
    + simpl. rewrite Hp. repeat split. apply Hh. reflexivity.
    + rewrite processResponse_state. simpl cached. simpl embedded.
      rewrite Hp. unfold challengeAfter.
      destruct (carriedChallenge (firstn 4096 d)) as [v|];
        repeat split; apply Hh; reflexivity.
  - exists [WriteFailed packet]. simpl. rewrite Hp.
    unfold conn_history. simpl. rewrite Ek. repeat split.
Qed.

Lemma sendRequestLoop_follows (n : nat) (packetType : byte)
    (payload : list byte) (expectResponse : byte) (c : Client) :
  follows c (snd (sendRequestLoop net n packetType payload expectResponse c)).
Proof.
  revert c. induction n as [|n IH]; intros c; [apply follows_refl|].
  simpl.
  pose proof (sendRequestRaw_follows packetType payload expectResponse c) as H.
  destruct (sendRequestRaw net packetType payload expectResponse c)
    as [[r|e|i k|] c1]; simpl in H; try exact H.
  destruct (is_challenge_required e); [|exact H].
  apply follows_trans with c1; [exact H|apply IH].
Qed.

Lemma sendRequest_follows (packetType : byte) (payload : list byte)
    (expectResponse : byte) (c : Client) :
  follows c (snd (sendRequest net packetType payload expectResponse c)).
Proof. apply sendRequestLoop_follows. Qed.

Lemma GetInfo_follows (c : Client) : follows c (snd (GetInfo net c)).
Proof.
  unfold GetInfo. destruct (negb (IsConnected c)); [apply follows_refl|].
  pose proof (sendRequest_follows A2S_INFO infoPayload S2A_INFO_SRC c) as H1.
  destruct (sendRequest net A2S_INFO infoPayload S2A_INFO_SRC c)
    as [[r|e|i k|] c1]; simpl in H1; try exact H1.
  pose proof (sendRequest_follows A2S_INFO infoPayload S2A_INFO_GOLD c1) as H2.
  destruct (sendRequest net A2S_INFO infoPayload S2A_INFO_GOLD c1)
    as [[r|e'|i k|] c2]; simpl in H2;
    apply follows_trans with c1; assumption.
Qed.

Lemma challengeQuery_follows {A : Type} (request response : byte)
    (parse : list byte -> Outcome A) (c : Client) :
  follows c (snd (challengeQuery net request response parse c)).
Proof.
  unfold challengeQuery. destruct (negb (IsConnected c)); [apply follows_refl|].
  pose proof (sendRequest_follows request challengeReq S2C_CHALLENGE c) as H1.
  destruct (sendRequest net request challengeReq S2C_CHALLENGE c)
    as [probe c1]; simpl in H1.
  assert (Hgo : follows c
            (snd (if (challenge c1 =? -1)%Z
                  then (Fail (A := A) ErrChallengeNotReceived, c1)
                  else
                    match sendRequest net request
                            (bytes32 (uint32 (challenge c1))) response c1 with
                    | (Ok response0, c0) => (parse response0, c0)
                    | (Fail err, c0) => (Fail err, c0)
                    | (Panic i n, c0) => (Panic i n, c0)
                    | (PanicNil, c0) => (PanicNil, c0)
                    end))).
  { destruct (challenge c1 =? -1)%Z; [exact H1|].
    pose proof (sendRequest_follows request
                  (bytes32 (uint32 (challenge c1))) response c1) as H2.
    destruct (sendRequest net request (bytes32 (uint32 (challenge c1)))
                response c1) as [[r|e|i k|] c2]; simpl in H2;
      apply follows_trans with c1; assumption. }
  destruct probe as [r|e|i k|]; try exact Hgo; try exact H1.
  destruct (negb (is_challenge_required e)); [exact H1|exact Hgo].
Qed.

Lemma CheckFeatures_follows (c : Client) :
  follows c (snd (CheckFeatures net c)).
Proof.
  unfold CheckFeatures.
  pose proof (challengeQuery_follows A2S_PLAYER S2A_PLAYER
                parsePlayersResponse c) as H1.
  rewrite <- GetPlayers_query in H1.
  destruct (GetPlayers net c) as [players c1]; simpl in H1.
  pose proof (challengeQuery_follows A2S_RULES S2A_RULES
                parseRulesResponse c1) as H2.
  rewrite <- GetRules_query in H2.
  destruct (GetRules net c1) as [rules c2]; simpl in H2.
  pose proof (follows_trans _ _ _ H1 H2) as H3.
  destruct players as [p|e|i k|]; try exact H1;
    destruct rules as [r|e'|i' k'|]; assumption.
Qed.

End Follows.

(** C9, as stated, fails: a connected client that holds the challenge 5
    calls GetInfo, the server answers with a challenge response whose four
    bytes are FF FF FF FF, and the cached challenge is -1 again. *)
Lemma challenge_reset_by_response :
  challenge (set_challenge 5 c_connected) = 5%Z /\
  challenge (snd (GetInfo net_resetting (set_challenge 5 c_connected)))
  = (-1)%Z.
Proof. split; vm_compute; reflexivity. Qed.

(** C9, amended.  A new client holds the challenge -1; Connect and Close do
    not touch it; GetInfo, GetPlayers, GetRules and CheckFeatures change it
    only through the datagrams they read, each datagram that carries a
    challenge response storing its four bytes as an int32 (so a response of
    four FF bytes stores -1) and nothing else changing it; and every PLAYER
    or RULES request handed to the socket carries, after its type byte, the
    challenge cached at that moment. *)
Theorem challenge_lifecycle :
  (forall timeout, challenge (NewClient timeout) = (-1)%Z) /\
  (forall net addr c, challenge (snd (Connect net addr c)) = challenge c) /\
  (forall c, challenge (snd (Close c)) = challenge c) /\
  (forall net c, follows c (snd (GetInfo net c))) /\
  (forall net c, follows c (snd (GetPlayers net c))) /\
  (forall net c, follows c (snd (GetRules net c))) /\
  (forall net c, follows c (snd (CheckFeatures net c))) /\
  (forall c payload,
     exists packet,
       buildPacket c A2S_PLAYER payload = Ok packet /\
       slice packet 5 9 = bytes32 (uint32 (challenge c))) /\
  (forall c payload,
     exists packet,
       buildPacket c A2S_RULES payload = Ok packet /\
       slice packet 5 9 = bytes32 (uint32 (challenge c))).
Proof.
  split; [reflexivity|].
  split.
  { intros net addr c. unfold Connect.
    destruct (net_dial net addr) as [| |d]; reflexivity. }
  split.
  { intros c. unfold Close. destruct (conn c) as [k|]; [|reflexivity].
    destruct (closed k); reflexivity. }
  split; [intros; apply GetInfo_follows|].
  split; [intros; rewrite GetPlayers_query; apply challengeQuery_follows|].
  split; [intros; rewrite GetRules_query; apply challengeQuery_follows|].
  split; [intros; apply CheckFeatures_follows|].
  split; intros c payload;
    [exists (requestLayout c A2S_PLAYER payload)
    |exists (requestLayout c A2S_RULES payload)];
    (split; [apply buildPacket_layout|reflexivity]).
Qed.

(** ** The binary cursor *)

Lemma scan_bounds (rest : list byte) (offset : nat) :
  offset <= scan rest offset <= offset + length rest.
Proof.
  revert offset. induction rest as [|b rest IH]; intros offset; simpl; [lia|].
  destruct (beq b x00); [lia|]. specialize (IH (S offset)). lia.
Qed.

Lemma scan_text (s rest : list byte) (offset : nat) :
  nullFree s = true ->
  scan (s ++ x00 :: rest) offset = offset + length s.
Proof.
  revert offset. induction s as [|b s IH]; intros offset Hs; simpl.
  - change (beq x00 x00) with true. cbv iota. lia.
  - simpl in Hs. apply andb_prop in Hs. destruct Hs as [Hb Hs].
    apply negb_true_iff in Hb. rewrite Hb, IH by exact Hs. lia.
Qed.

Lemma scan_open (s : list byte) (offset : nat) :
  nullFree s = true -> scan s offset = offset + length s.
Proof.
  revert offset. induction s as [|b s IH]; intros offset Hs; simpl; [lia|].
  simpl in Hs. apply andb_prop in Hs. destruct Hs as [Hb Hs].
  apply negb_true_iff in Hb. rewrite Hb, IH by exact Hs. lia.
Qed.

Lemma readString_advance (data : list byte) (offset : nat) :
  offset <= snd (readString data offset) /\
  (offset < length data ->
   offset < snd (readString data offset) <= length data).
Proof.
  unfold readString.
  destruct (length data <=? offset) eqn:E.
  - apply Nat.leb_le in E. simpl. lia.
  - apply Nat.leb_gt in E.
    pose proof (scan_bounds (skipn offset data) offset) as Hb.
    rewrite length_skipn in Hb.
    destruct (scan (skipn offset data) offset <? length data) eqn:E';
      [apply Nat.ltb_lt in E'|apply Nat.ltb_ge in E']; simpl; lia.
Qed.

Lemma readString_at_end (data : list byte) (offset : nat) :
  length data <= offset -> readString data offset = (EmptyString, offset).
Proof.
  intros H. unfold readString. apply Nat.leb_le in H. rewrite H. reflexivity.
Qed.

Lemma skipn_prefix (pre rest : list byte) :
  skipn (length pre) (pre ++ rest) = rest.
Proof.
  rewrite skipn_app, skipn_all, Nat.sub_diag. reflexivity.
Qed.

Lemma firstn_prefix (s rest : list byte) : firstn (length s) (s ++ rest) = s.
Proof.
  rewrite firstn_app, firstn_all, Nat.sub_diag, firstn_O, app_nil_r.
  reflexivity.
Qed.

(** A terminated string is read whole and the cursor ends after its zero. *)
Lemma readString_cstring (pre s rest : list byte) :
  nullFree s = true ->
  readString (pre ++ cstring s ++ rest) (length pre)
  = (text s, length (pre ++ cstring s)).
Proof.
  intros Hs. unfold readString, cstring, slice.
  rewrite skipn_prefix, <- app_assoc. simpl app.
  rewrite scan_text by exact Hs.
  rewrite !length_app. simpl length.
  destruct (length pre + (length s + S (length rest)) <=? length pre) eqn:E;
    [apply Nat.leb_le in E; lia|].
  destruct (length pre + length s <? length pre + (length s + S (length rest)))
    eqn:E'; [|apply Nat.ltb_ge in E'; lia].
  replace (length pre + length s - length pre) with (length s) by lia.
  rewrite firstn_prefix. f_equal. lia.
Qed.

(** A string that runs into the end of the buffer is read as far as it
    goes and the cursor ends at the end. *)
Lemma readString_open (pre s : list byte) :
  nullFree s = true -> s <> [] ->
  readString (pre ++ s) (length pre) = (text s, length (pre ++ s)).
Proof.
  intros Hs Hne. unfold readString, slice.
  rewrite skipn_prefix, scan_open by exact Hs.
  rewrite length_app.
  assert (0 < length s) by (destruct s; [contradiction|simpl; lia]).
  destruct (length pre + length s <=? length pre) eqn:E;
    [apply Nat.leb_le in E; lia|].
  rewrite Nat.ltb_irrefl.
  replace (length pre + length s - length pre) with (length s) by lia.
  rewrite <- (app_nil_r s) at 2. rewrite firstn_prefix. reflexivity.
Qed.

(** ** Reads at an offset *)

Lemma index_ok (data : list byte) (i : nat) (b : byte) :
  nth_error data i = Some b -> index data i = Ok b.
Proof. intros H. unfold index. rewrite H. reflexivity. Qed.

Lemma nth_error_in_range (data : list byte) (i : nat) :
  i < length data -> exists b, nth_error data i = Some b.
Proof.
  intros H. destruct (nth_error data i) as [b|] eqn:E; [exists b; reflexivity|].
  apply nth_error_None in E. lia.
Qed.

Lemma Uint16_at_ok (data : list byte) (offset : nat) :
  offset + 2 <= length data ->
  exists b0 b1,
    nth_error data offset = Some b0 /\
    nth_error data (offset + 1) = Some b1 /\
    Uint16_at data offset = Ok (le16 b0 b1).
Proof.
  intros H. unfold Uint16_at. rewrite from_ok by lia. unfold obind.
  pose proof (nth_error_skipn offset data 0) as H0.
  pose proof (nth_error_skipn offset data 1) as H1.
  pose proof (length_skipn offset data) as Hl.
  rewrite Nat.add_0_r in H0.
  destruct (skipn offset data) as [|b0 [|b1 rest]]; simpl in Hl; try lia.
  exists b0, b1. simpl in H0, H1. repeat split; congruence.
Qed.

Lemma Uint64_at_ok (data : list byte) (offset : nat) :
  offset + 8 <= length data -> exists v, Uint64_at data offset = Ok v.
Proof.
  intros H. unfold Uint64_at. rewrite from_ok by lia. unfold obind.
  pose proof (length_skipn offset data) as Hl.
  destruct (skipn offset data)
    as [|b0 [|b1 [|b2 [|b3 [|b4 [|b5 [|b6 [|b7 rest]]]]]]]];
    simpl in Hl; try lia.
  eexists. reflexivity.
Qed.

Lemma Uint32_at_ok (data : list byte) (offset : nat) :
  offset + 4 <= length data -> exists v, Uint32_at data offset = Ok v.
Proof.
  intros H. unfold Uint32_at. rewrite from_ok by lia. unfold obind.
  pose proof (length_skipn offset data) as Hl.
  destruct (skipn offset data) as [|b0 [|b1 [|b2 [|b3 rest]]]];
    simpl in Hl; try lia.
  eexists. reflexivity.
Qed.


(** ** parseRulesResponse *)

Lemma rulesLoop_step (data : list byte) (remaining offset : nat)
    (rules : list Rule.t) :
  rulesLoop data (S remaining) offset rules
  = if offset <? length data
    then let '(rule, next) := readRule data offset in
         rulesLoop data remaining next (rules ++ [rule])
    else (rules, offset).
Proof. cbn [rulesLoop]. unfold readRule. crunch; reflexivity. Qed.

Lemma readRule_encoded (pre rest : list byte) (r : list byte * list byte) :
  wellFormedRule r = true ->
  readRule (pre ++ encodeRule r ++ rest) (length pre)
  = (ruleOf r, length (pre ++ encodeRule r)).
Proof.
  intros Hr. apply andb_prop in Hr. destruct Hr as [Hn Hv].
  unfold readRule, encodeRule, ruleOf.
  rewrite <- (app_assoc (cstring (fst r))).
  rewrite readString_cstring by exact Hn.
  rewrite (app_assoc pre (cstring (fst r))).
  rewrite readString_cstring by exact Hv.
  rewrite <- !app_assoc. reflexivity.
Qed.

Lemma rulesLoop_encoded (rs : list (list byte * list byte)) :
  forall (pre rest : list byte) (remaining : nat) (rules : list Rule.t),
    forallb wellFormedRule rs = true ->
    length rs <= remaining ->
    rulesLoop (pre ++ encodeRules rs ++ rest) remaining (length pre) rules
    = rulesLoop (pre ++ encodeRules rs ++ rest) (remaining - length rs)
        (length (pre ++ encodeRules rs)) (rules ++ map ruleOf rs).
Proof.
  induction rs as [|r rs IH]; intros pre rest remaining rules Hwf Hn.
  - simpl. rewrite !app_nil_r, Nat.sub_0_r. reflexivity.
  - simpl in Hwf. apply andb_prop in Hwf. destruct Hwf as [Hr Hrs].
    simpl in Hn. destruct remaining as [|remaining]; [lia|].
    cbn [encodeRules flat_map]. fold (encodeRules rs).
    rewrite rulesLoop_step.
    assert (Hlt : length pre
                  < length (pre ++ (encodeRule r ++ encodeRules rs) ++ rest)).
    { rewrite !length_app. unfold encodeRule, cstring.
      rewrite !length_app. simpl. lia. }
    apply Nat.ltb_lt in Hlt. rewrite Hlt.
    rewrite <- (app_assoc (encodeRule r)).
    rewrite readRule_encoded by exact Hr. cbv beta iota.
    rewrite (app_assoc pre (encodeRule r)).
    rewrite IH by (assumption || lia).
    cbn [length map Nat.sub].
    rewrite <- !app_assoc. reflexivity.
Qed.

Lemma rulesLoop_at_end (data : list byte) (remaining offset : nat)
    (rules : list Rule.t) :
  length data <= offset ->
  rulesLoop data remaining offset rules = (rules, offset).
Proof.
  intros H. destruct remaining as [|remaining]; [reflexivity|].
  simpl. destruct (offset <? length data) eqn:E;
    [apply Nat.ltb_lt in E; lia|reflexivity].
Qed.

Lemma parseRulesResponse_eq (n0 n1 : byte) (body : list byte) :
  parseRulesResponse (n0 :: n1 :: body)
  = Ok (fst (rulesLoop (n0 :: n1 :: body) (Z.to_nat (le16 n0 n1)) 2 [])).
Proof. reflexivity. Qed.

(** C10.  A RULES payload: the count, some complete entries, and one more
    entry cut off after its name (the name unterminated and not empty, or
    terminated with nothing after it), with the count larger than the number
    of complete entries.  The parser returns the complete entries in order
    and then the cut-off entry, with the name as far as it goes and the
    empty string as its value. *)
Theorem parseRulesResponse_partial_entry
    (n0 n1 : byte) (rs : list (list byte * list byte))
    (name term : list byte) :
  forallb wellFormedRule rs = true ->
  nullFree name = true ->
  (term = [] /\ name <> []) \/ term = [x00] ->
  length rs < Z.to_nat (le16 n0 n1) ->
  parseRulesResponse (n0 :: n1 :: encodeRules rs ++ name ++ term)
  = Ok (map ruleOf rs
        ++ [{| Rule.Name := text name; Rule.Value := EmptyString |}]).
Proof.
  intros Hwf Hname Hterm Hn. rewrite parseRulesResponse_eq. f_equal.
  set (N := Z.to_nat (le16 n0 n1)) in *.
  change (n0 :: n1 :: encodeRules rs ++ name ++ term)
    with ([n0; n1] ++ encodeRules rs ++ name ++ term).
  change 2 with (length [n0; n1]).
  rewrite rulesLoop_encoded by (assumption || lia).
  destruct (N - length rs) as [|m] eqn:Em; [lia|].
  rewrite (app_assoc [n0; n1]).
  set (pre := [n0; n1] ++ encodeRules rs).
  rewrite rulesLoop_step.
  assert (Hlt : (length pre <? length (pre ++ name ++ term)) = true).
  { apply Nat.ltb_lt. rewrite !length_app.
    destruct Hterm as [[-> Hne]| ->]; simpl; [|lia].
    destruct name; [contradiction|simpl; lia]. }
  rewrite Hlt. unfold readRule.
  assert (Hread : readString (pre ++ name ++ term) (length pre)
                  = (text name, length (pre ++ name ++ term))).
  { destruct Hterm as [[-> Hne]| ->].
    - rewrite app_nil_r. apply readString_open; assumption.
    - pose proof (readString_cstring pre name [] Hname) as H.
      rewrite app_nil_r in H. exact H. }
  rewrite Hread.
  rewrite readString_at_end by lia.
  rewrite rulesLoop_at_end by lia.
  reflexivity.
Qed.

Lemma parseRulesResponse_partial_entry_witness :
  parseRulesResponse
    ([x02; x00] ++ encodeRules [([x6d], [x31])] ++ [x66; x66; x61] ++ [x00])
  = Ok [{| Rule.Name := "m"; Rule.Value := "1" |};
        {| Rule.Name := "ffa"; Rule.Value := "" |}].
Proof.
  apply (parseRulesResponse_partial_entry x02 x00 [([x6d], [x31])]
           [x66; x66; x61] [x00]).
  - reflexivity.
  - reflexivity.
  - right. reflexivity.
  - vm_compute. lia.
Defined.

(** ** Lists in wire order *)

Section WireOrder.

Context {A : Type}.
Variable len : nat.
Variable read : nat -> option (A * nat).

Lemma InWireOrder_snoc (start : nat) (entries : list A) (offset : nat)
    (a : A) (next : nat) :
  InWireOrder len read start entries offset ->
  offset < len -> read offset = Some (a, next) -> offset < next ->
  InWireOrder len read start (entries ++ [a]) next.
Proof.
  intros H Hlt Hr Hn. induction H as [o|o a0 n0 rest stop H1 H2 H3 H4 IH].
  - simpl. eapply wire_next; eauto. constructor.
  - simpl. eapply wire_next; eauto.
Qed.

Lemma InWireOrder_increasing (start : nat) (entries : list A) (stop : nat) :
  InWireOrder len read start entries stop -> start <= stop.
Proof.
  intros H. induction H; lia.
Qed.

End WireOrder.

Lemma readRule_advance (data : list byte) (offset : nat) :
  offset < length data -> offset < snd (readRule data offset).
Proof.
  intros H. unfold readRule.
  pose proof (readString_advance data offset) as [_ H1].
  specialize (H1 H).
  destruct (readString data offset) as [name o1]. simpl in H1.
  pose proof (readString_advance data o1) as [H2 _].
  destruct (readString data o1) as [value o2]. simpl in *. lia.
Qed.

Lemma rulesLoop_spec (data : list byte) (start : nat) (remaining : nat) :
  forall (offset : nat) (rules : list Rule.t),
    InWireOrder (length data) (ruleAt data) start rules offset ->
    let '(out, stop) := rulesLoop data remaining offset rules in
    InWireOrder (length data) (ruleAt data) start out stop /\
    length out <= length rules + remaining /\
    (length out = length rules + remaining \/ length data <= stop).
Proof.
  induction remaining as [|remaining IH]; intros offset rules Hw.
  - simpl. repeat split; [exact Hw|lia|left; lia].
  - rewrite rulesLoop_step. destruct (offset <? length data) eqn:E.
    + apply Nat.ltb_lt in E.
      pose proof (readRule_advance data offset E) as Hadv.
      destruct (readRule data offset) as [rule next] eqn:Er. simpl in Hadv.
      assert (Hw' : InWireOrder (length data) (ruleAt data) start
                      (rules ++ [rule]) next).
      { eapply InWireOrder_snoc; eauto. unfold ruleAt. rewrite Er.
        reflexivity. }
      specialize (IH next (rules ++ [rule]) Hw').
      destruct (rulesLoop data remaining next (rules ++ [rule]))
        as [out stop].
      rewrite length_app in IH. simpl in IH.
      destruct IH as (H1 & H2 & H3). repeat split; [exact H1|lia|lia].
    + apply Nat.ltb_ge in E. repeat split; [exact Hw|lia|right; exact E].
Qed.

Lemma readPlayer_advance (data : list byte) (offset : nat)
    (p : PlayerInfo.t) (next : nat) :
  readPlayer data offset = Ok (p, next) -> offset < next.
Proof.
  unfold readPlayer, obind. intros H.
  destruct (index data offset) as [idx| | |]; try discriminate.
  pose proof (readString_advance data (offset + 1)) as [H1 _].
  destruct (readString data (offset + 1)) as [name o1]. simpl in H1.
  destruct (length data <? o1 + 4); [discriminate|].
  destruct (Uint32_at data o1) as [score| | |]; try discriminate.
  destruct (length data <? o1 + 4 + 4); [discriminate|].
  destruct (Uint32_at data (o1 + 4)) as [bits| | |]; try discriminate.
  injection H as _ <-. lia.
Qed.

Lemma playersLoop_step (data : list byte) (remaining offset : nat)
    (players : list PlayerInfo.t) :
  playersLoop data (S remaining) offset players
  = if offset <? length data
    then obind (readPlayer data offset)
           (fun '(player, next) =>
              playersLoop data remaining next (players ++ [player]))
    else Ok (players, offset).
Proof. cbn [playersLoop]. unfold readPlayer, obind. crunch; reflexivity. Qed.

Lemma playersLoop_spec (data : list byte) (start : nat) (remaining : nat) :
  forall (offset : nat) (players out : list PlayerInfo.t) (stop : nat),
    InWireOrder (length data) (playerAt data) start players offset ->
    playersLoop data remaining offset players = Ok (out, stop) ->
    InWireOrder (length data) (playerAt data) start out stop /\
    length out <= length players + remaining /\
    (length out = length players + remaining \/ length data <= stop).
Proof.
  induction remaining as [|remaining IH]; intros offset players out stop Hw.
  - simpl. intros H. injection H as <- <-.
    repeat split; [exact Hw|lia|left; lia].
  - rewrite playersLoop_step. destruct (offset <? length data) eqn:E.
    + apply Nat.ltb_lt in E.
      destruct (readPlayer data offset) as [[player next]| | |] eqn:Er;
        simpl; try discriminate.
      intros H.
      assert (Hw' : InWireOrder (length data) (playerAt data) start
                      (players ++ [player]) next).
      { eapply InWireOrder_snoc; eauto.
        - unfold playerAt. rewrite Er. reflexivity.
        - eapply readPlayer_advance; eauto. }
      specialize (IH next (players ++ [player]) out stop Hw' H).
      rewrite length_app in IH. simpl in IH.
      destruct IH as (H1 & H2 & H3). repeat split; [exact H1|lia|lia].
    + apply Nat.ltb_ge in E. intros H. injection H as <- <-.
      repeat split; [exact Hw|lia|right; exact E].
Qed.

(** ** Lists against the wire layout *)

Lemma encodeRules_app (a b : list (list byte * list byte)) :
  encodeRules (a ++ b) = encodeRules a ++ encodeRules b.
Proof. apply flat_map_app. Qed.

Lemma forallb_firstn {A : Type} (f : A -> bool) (n : nat) (l : list A) :
  forallb f l = true -> forallb f (firstn n l) = true.
Proof.
  revert n. induction l as [|a l IH]; intros n H.
  - rewrite firstn_nil. reflexivity.
  - destruct n as [|n]; [reflexivity|]. simpl in *.
    apply andb_prop in H. destruct H as [Ha Hl].
    rewrite Ha, IH by exact Hl. reflexivity.
Qed.

Lemma rulesLoop_done (data : list byte) (offset : nat) (rules : list Rule.t) :
  rulesLoop data 0 offset rules = (rules, offset).
Proof. reflexivity. Qed.

(** A RULES payload made of the count and complete entries decodes to the
    first N of them, or to all of them when there are fewer, in order. *)
Lemma parseRulesResponse_encoded (n0 n1 : byte)
    (rs : list (list byte * list byte)) :
  forallb wellFormedRule rs = true ->
  parseRulesResponse (n0 :: n1 :: encodeRules rs)
  = Ok (map ruleOf (firstn (Z.to_nat (le16 n0 n1)) rs)).
Proof.
  intros Hwf. rewrite parseRulesResponse_eq. f_equal.
  set (N := Z.to_nat (le16 n0 n1)).
  assert (Hsplit : encodeRules rs
                   = encodeRules (firstn N rs) ++ encodeRules (skipn N rs))
    by (rewrite <- encodeRules_app, firstn_skipn; reflexivity).
  rewrite Hsplit.
  change (n0 :: n1 :: encodeRules (firstn N rs) ++ encodeRules (skipn N rs))
    with ([n0; n1] ++ encodeRules (firstn N rs) ++ encodeRules (skipn N rs)).
  change 2 with (length [n0; n1]).
  rewrite rulesLoop_encoded
    by (try apply forallb_firstn; try assumption; apply firstn_le_length).
  destruct (Nat.le_gt_cases N (length rs)) as [Hle|Hgt].
  - rewrite length_firstn, Nat.min_l by exact Hle.
    rewrite Nat.sub_diag. reflexivity.
  - rewrite skipn_all2 by lia. simpl encodeRules. rewrite app_nil_r.
    rewrite rulesLoop_at_end by lia. reflexivity.
Qed.

Lemma Uint32_at_quad (pre rest : list byte) (q : byte * byte * byte * byte) :
  Uint32_at (pre ++ quad q ++ rest) (length pre) = Ok (quad32 q).
Proof.
  unfold Uint32_at. rewrite from_ok by (rewrite length_app; lia).
  rewrite skipn_prefix. destruct q as [[[b0 b1] b2] b3]. reflexivity.
Qed.

Lemma index_at (pre rest : list byte) (b : byte) :
  index (pre ++ b :: rest) (length pre) = Ok b.
Proof.
  unfold index. rewrite nth_error_app2, Nat.sub_diag by lia. reflexivity.
Qed.

Lemma quad_length (q : byte * byte * byte * byte) : length (quad q) = 4.
Proof. destruct q as [[[b0 b1] b2] b3]. reflexivity. Qed.

Lemma readPlayer_encoded (pre rest : list byte) (e : PlayerEntry) :
  wellFormedPlayer e = true ->
  readPlayer (pre ++ encodePlayer e ++ rest) (length pre)
  = Ok (playerOf e, length (pre ++ encodePlayer e)).
Proof.
  intros Hwf. unfold readPlayer, encodePlayer.
  set (name := pe_Name e). set (score := pe_Score e).
  set (dur := pe_Duration e).
  assert (Hdata : pre ++ ([pe_Index e] ++ cstring name ++ quad score ++ quad dur)
                         ++ rest
                  = pre ++ pe_Index e
                        :: (cstring name ++ quad score ++ quad dur ++ rest)).
  { simpl. rewrite <- !app_assoc. reflexivity. }
  rewrite Hdata at 1. rewrite index_at. unfold obind at 1.
  assert (H1 : pre ++ ([pe_Index e] ++ cstring name ++ quad score ++ quad dur)
                      ++ rest
               = (pre ++ [pe_Index e]) ++ cstring name
                   ++ (quad score ++ quad dur ++ rest)).
  { rewrite <- !app_assoc. reflexivity. }
  assert (L1 : length pre + 1 = length (pre ++ [pe_Index e]))
    by (rewrite length_app; reflexivity).
  rewrite L1. rewrite H1 at 1.
  rewrite readString_cstring by exact Hwf.
  set (p2 := (pre ++ [pe_Index e]) ++ cstring name).
  assert (H2 : pre ++ ([pe_Index e] ++ cstring name ++ quad score ++ quad dur)
                      ++ rest
               = p2 ++ quad score ++ (quad dur ++ rest)).
  { unfold p2. rewrite <- !app_assoc. reflexivity. }
  assert (H3 : pre ++ ([pe_Index e] ++ cstring name ++ quad score ++ quad dur)
                      ++ rest
               = (p2 ++ quad score) ++ quad dur ++ rest).
  { unfold p2. rewrite <- !app_assoc. reflexivity. }
  assert (L3 : length p2 + 4 = length (p2 ++ quad score))
    by (rewrite length_app, quad_length; reflexivity).
  assert (Hlen : length (pre ++ ([pe_Index e] ++ cstring name ++ quad score
                                 ++ quad dur) ++ rest)
                 = length p2 + 4 + 4 + length rest).
  { rewrite H3, !length_app, !quad_length. lia. }
  rewrite Hlen.
  destruct (length p2 + 4 + 4 + length rest <? length p2 + 4) eqn:E1;
    [apply Nat.ltb_lt in E1; lia|].
  rewrite H2 at 1. rewrite Uint32_at_quad. unfold obind at 1.
  destruct (length p2 + 4 + 4 + length rest <? length p2 + 4 + 4) eqn:E2;
    [apply Nat.ltb_lt in E2; lia|].
  rewrite L3. rewrite H3 at 1. rewrite Uint32_at_quad. unfold obind.
  unfold playerOf. fold name score dur. repeat f_equal.
  unfold p2. rewrite !length_app, !quad_length. simpl. lia.
Qed.

Lemma encodePlayers_app (a b : list PlayerEntry) :
  encodePlayers (a ++ b) = encodePlayers a ++ encodePlayers b.
Proof. apply flat_map_app. Qed.

Lemma playersLoop_encoded (es : list PlayerEntry) :
  forall (pre rest : list byte) (remaining : nat) (players : list PlayerInfo.t),
    forallb wellFormedPlayer es = true ->
    length es <= remaining ->
    playersLoop (pre ++ encodePlayers es ++ rest) remaining (length pre) players
    = playersLoop (pre ++ encodePlayers es ++ rest) (remaining - length es)
        (length (pre ++ encodePlayers es)) (players ++ map playerOf es).
Proof.
  induction es as [|e es IH]; intros pre rest remaining players Hwf Hn.
  - simpl. rewrite !app_nil_r, Nat.sub_0_r. reflexivity.
  - simpl in Hwf. apply andb_prop in Hwf. destruct Hwf as [He Hes].
    simpl in Hn. destruct remaining as [|remaining]; [lia|].
    cbn [encodePlayers flat_map]. fold (encodePlayers es).
    rewrite playersLoop_step.
    assert (Hlt : length pre
                  < length (pre ++ (encodePlayer e ++ encodePlayers es) ++ rest)).
    { rewrite !length_app. unfold encodePlayer. simpl. lia. }
    apply Nat.ltb_lt in Hlt. rewrite Hlt.
    rewrite <- (app_assoc (encodePlayer e)).
    rewrite readPlayer_encoded by exact He. unfold obind.
    rewrite (app_assoc pre (encodePlayer e)).
    rewrite IH by (assumption || lia).
    cbn [length map Nat.sub].
    rewrite <- !app_assoc. reflexivity.
Qed.

Lemma playersLoop_at_end (data : list byte) (remaining offset : nat)
    (players : list PlayerInfo.t) :
  length data <= offset ->
  playersLoop data remaining offset players = Ok (players, offset).
Proof.
  intros H. destruct remaining as [|remaining]; [reflexivity|].
  rewrite playersLoop_step. destruct (offset <? length data) eqn:E;
    [apply Nat.ltb_lt in E; lia|reflexivity].
Qed.

(** A PLAYER payload made of the count byte and complete entries decodes to
    the first N of them, or to all of them when there are fewer, in
    order. *)
Lemma parsePlayersResponse_encoded (count : byte) (es : list PlayerEntry) :
  forallb wellFormedPlayer es = true ->
  parsePlayersResponse (count :: encodePlayers es)
  = Ok (map playerOf (firstn (Z.to_nat (u8 count)) es)).
Proof.
  intros Hwf. unfold parsePlayersResponse.
  change (length (count :: encodePlayers es) <? 1) with false. cbv iota zeta.
  change (index (count :: encodePlayers es) 0) with (Ok count).
  unfold obind at 1.
  set (N := Z.to_nat (u8 count)).
  assert (Hsplit : encodePlayers es
                   = encodePlayers (firstn N es) ++ encodePlayers (skipn N es))
    by (rewrite <- encodePlayers_app, firstn_skipn; reflexivity).
  rewrite Hsplit.
  change (count :: encodePlayers (firstn N es) ++ encodePlayers (skipn N es))
    with ([count] ++ encodePlayers (firstn N es) ++ encodePlayers (skipn N es)).
  change (0 + 1) with (length [count]).
  rewrite playersLoop_encoded
    by (try apply forallb_firstn; try assumption; apply firstn_le_length).
  destruct (Nat.le_gt_cases N (length es)) as [Hle|Hgt].
  - rewrite length_firstn, Nat.min_l by exact Hle.
    rewrite Nat.sub_diag. reflexivity.
  - rewrite skipn_all2 by lia. simpl encodePlayers. rewrite app_nil_r.
    rewrite playersLoop_at_end by lia. reflexivity.
Qed.

(** The players parser has no unguarded read: an entry is read whole or the
    call fails with ErrShortResponse. *)
Lemma readPlayer_outcome (data : list byte) (offset : nat) :
  offset < length data ->
  (exists player next, readPlayer data offset = Ok (player, next)) \/
  readPlayer data offset = Fail ErrShortResponse.
Proof.
  intros Hlt. unfold readPlayer.
  destruct (nth_error_in_range data offset Hlt) as (idx & Hi).
  rewrite (index_ok _ _ _ Hi). unfold obind at 1.
  destruct (readString data (offset + 1)) as [name o1].
  destruct (length data <? o1 + 4) eqn:E1; [right; reflexivity|].
  apply Nat.ltb_ge in E1.
  destruct (Uint32_at_ok data o1 E1) as (score & ->). unfold obind at 1.
  destruct (length data <? o1 + 4 + 4) eqn:E2; [right; reflexivity|].
  apply Nat.ltb_ge in E2.
  destruct (Uint32_at_ok data (o1 + 4) E2) as (bits & ->). unfold obind.
  left. eauto.
Qed.

Lemma playersLoop_outcome (data : list byte) (remaining : nat) :
  forall (offset : nat) (players : list PlayerInfo.t),
    (exists out stop, playersLoop data remaining offset players = Ok (out, stop))
    \/ playersLoop data remaining offset players = Fail ErrShortResponse.
Proof.
  induction remaining as [|remaining IH]; intros offset players.
  - left. simpl. eauto.
  - rewrite playersLoop_step. destruct (offset <? length data) eqn:E;
      [|left; eauto].
    apply Nat.ltb_lt in E.
    destruct (readPlayer_outcome data offset E) as [(p & next & ->)| ->];
      [|right; reflexivity].
    apply IH.
Qed.

Lemma parsePlayersResponse_outcome (data : list byte) :
  (exists players, parsePlayersResponse data = Ok players) \/
  parsePlayersResponse data = Fail ErrShortResponse.
Proof.
  unfold parsePlayersResponse. destruct data as [|count body];
    [right; reflexivity|].
  change (length (count :: body) <? 1) with false. cbv iota zeta.
  change (index (count :: body) 0) with (Ok count). unfold obind.
  destruct (playersLoop_outcome (count :: body) (Z.to_nat (u8 count)) (0 + 1) [])
    as [(out & stop & ->)| ->]; [left; eauto|right; reflexivity].
Qed.

(** An entry that begins inside the buffer fails the call exactly when
    fewer than eight bytes follow its name. *)
Lemma readPlayer_cut (data : list byte) (offset : nat) :
  offset < length data ->
  (readPlayer data offset = Fail ErrShortResponse <->
   length data < snd (readString data (offset + 1)) + 8).
Proof.
  intros Hlt. unfold readPlayer.
  destruct (nth_error_in_range data offset Hlt) as (idx & Hi).
  rewrite (index_ok _ _ _ Hi). unfold obind at 1.
  destruct (readString data (offset + 1)) as [name o1]. cbn [snd].
  destruct (length data <? o1 + 4) eqn:E1.
  - apply Nat.ltb_lt in E1. split; [intros _; lia|reflexivity].
  - apply Nat.ltb_ge in E1.
    destruct (Uint32_at_ok data o1 E1) as (score & ->). unfold obind at 1.
    destruct (length data <? o1 + 4 + 4) eqn:E2.
    + apply Nat.ltb_lt in E2. split; [intros _; lia|reflexivity].
    + apply Nat.ltb_ge in E2.
      destruct (Uint32_at_ok data (o1 + 4) E2) as (bits & ->). unfold obind.
      split; [discriminate|lia].
Qed.

(** The loop fails exactly when, after fewer than [remaining] entries read
    whole, one more begins inside the buffer and is cut in its numbers. *)
Lemma playersLoop_cut (data : list byte) (remaining : nat) :
  forall (offset : nat) (players : list PlayerInfo.t),
    playersLoop data remaining offset players = Fail ErrShortResponse <->
    exists more stop,
      InWireOrder (length data) (playerAt data) offset more stop /\
      length more < remaining /\ stop < length data /\
      length data < snd (readString data (stop + 1)) + 8.
Proof.
  induction remaining as [|remaining IH]; intros offset players.
  - simpl. split; [discriminate|]. intros (more & stop & _ & H & _). lia.
  - rewrite playersLoop_step. destruct (offset <? length data) eqn:E.
    + apply Nat.ltb_lt in E.
      pose proof (readPlayer_cut data offset E) as Hcut.
      destruct (readPlayer_outcome data offset E) as [(p & next & Er)|Er].
      * rewrite Er. cbn [obind]. rewrite IH. split.
        -- intros (more & stop & Hw & Hl & Hs & Hc).
           exists (p :: more), stop.
           repeat split; [|simpl; lia|exact Hs|exact Hc].
           apply wire_next with next; [exact E| |
             apply (readPlayer_advance data offset p next Er)|exact Hw].
           unfold playerAt. rewrite Er. reflexivity.
        -- intros (more & stop & Hw & Hl & Hs & Hc).
           inversion Hw as [o|o a n rest st H1 H2 H3 H4]; subst.
           ++ apply Hcut in Hc. congruence.
           ++ unfold playerAt in H2. rewrite Er in H2.
              injection H2 as <- <-. exists rest, stop. simpl in Hl.
              repeat split; [exact H4|lia|exact Hs|exact Hc].
      * rewrite Er. cbn [obind]. split; [intros _|reflexivity].
        exists [], offset.
        repeat split; [constructor|simpl; lia|exact E|apply Hcut; exact Er].
    + apply Nat.ltb_ge in E. split; [discriminate|].
      intros (more & stop & Hw & Hl & Hs & Hc).
      inversion Hw; subst; lia.
Qed.

Lemma parsePlayersResponse_cut (data : list byte) :
  parsePlayersResponse data = Fail ErrShortResponse <->
  data = [] \/
  exists (count : byte) (entries : list PlayerInfo.t) (offset : nat),
    nth_error data 0 = Some count /\
    InWireOrder (length data) (playerAt data) 1 entries offset /\
    length entries < Z.to_nat (u8 count) /\
    offset < length data /\
    length data < snd (readString data (offset + 1)) + 8.
Proof.
  unfold parsePlayersResponse. destruct data as [|count body].
  - split; [left; reflexivity|reflexivity].
  - change (length (count :: body) <? 1) with false. cbv iota zeta.
    change (index (count :: body) 0) with (Ok count). unfold obind at 1.
    change (0 + 1) with 1.
    pose proof (playersLoop_cut (count :: body) (Z.to_nat (u8 count)) 1 [])
      as Hcut.
    destruct (playersLoop (count :: body) (Z.to_nat (u8 count)) 1 [])
      as [[out stop]|e| |] eqn:El; cbn [obind].
    + split; [discriminate|]. intros [H|(c & es & o & Hc & H)];
        [discriminate|].
      injection Hc as <-.
      assert (Hf : Ok (out, stop) = Fail ErrShortResponse :> Outcome _)
        by (apply Hcut; exists es, o; exact H).
      discriminate Hf.
    + split.
      * intros H. injection H as ->. right.
        destruct (proj1 Hcut eq_refl) as (es & o & H).
        exists count, es, o. split; [reflexivity|exact H].
      * intros [H|(c & es & o & Hc & H)]; [discriminate|].
        injection Hc as <-. f_equal.
        assert (Hf : Fail e = Fail ErrShortResponse
                     :> Outcome (list PlayerInfo.t * nat))
          by (apply Hcut; exists es, o; exact H).
        congruence.
    + destruct (playersLoop_outcome (count :: body) (Z.to_nat (u8 count)) 1 [])
        as [(o & st & H)|H]; rewrite El in H; discriminate.
    + destruct (playersLoop_outcome (count :: body) (Z.to_nat (u8 count)) 1 [])
        as [(o & st & H)|H]; rewrite El in H; discriminate.
Qed.

(** Against the wire layout: complete entries, fewer than the count, and
    then an entry with its name but fewer than its eight number bytes. *)
Lemma parsePlayersResponse_encoded_cut (count : byte) (es : list PlayerEntry)
    (idx : byte) (name partial : list byte) :
  forallb wellFormedPlayer es = true ->
  nullFree name = true ->
  length es < Z.to_nat (u8 count) ->
  length partial < 8 ->
  parsePlayersResponse
    (count :: encodePlayers es ++ idx :: cstring name ++ partial)
  = Fail ErrShortResponse.
Proof.
  intros Hwf Hname Hn Hp. unfold parsePlayersResponse.
  set (rest := idx :: cstring name ++ partial).
  change (length (count :: encodePlayers es ++ rest) <? 1) with false.
  cbv iota zeta.
  change (index (count :: encodePlayers es ++ rest) 0) with (Ok count).
  unfold obind at 1.
  change (count :: encodePlayers es ++ rest)
    with ([count] ++ encodePlayers es ++ rest).
  change (0 + 1) with (length [count]).
  rewrite playersLoop_encoded by (assumption || lia).
  destruct (Z.to_nat (u8 count) - length es) as [|m] eqn:Em; [lia|].
  rewrite playersLoop_step.
  set (pre := [count] ++ encodePlayers es).
  assert (Hdata : [count] ++ encodePlayers es ++ rest
                  = (pre ++ [idx]) ++ cstring name ++ partial).
  { unfold pre, rest. rewrite <- !app_assoc. reflexivity. }
  assert (Hlen : length ([count] ++ encodePlayers es ++ rest)
                 = length pre + 1 + (length name + 1) + length partial).
  { rewrite Hdata. unfold cstring. rewrite !length_app. simpl. lia. }
  assert (Hlt : length pre < length ([count] ++ encodePlayers es ++ rest))
    by lia.
  pose proof Hlt as Hlt'. apply Nat.ltb_lt in Hlt'. rewrite Hlt'.
  assert (Hr : readPlayer ([count] ++ encodePlayers es ++ rest) (length pre)
               = Fail ErrShortResponse).
  { apply readPlayer_cut; [exact Hlt|].
    replace (length pre + 1) with (length (pre ++ [idx]))
      by (rewrite length_app; reflexivity).
    rewrite Hdata at 2. rewrite readString_cstring by exact Hname.
    cbn [snd]. rewrite Hlen. unfold cstring. rewrite !length_app. simpl. lia. }
  rewrite Hr. reflexivity.
Qed.

(** C7, as stated, fails: [playersCut] announces two players and holds one
    complete entry and a second one cut inside its score; parsing it gives no
    list, the call fails with ErrShortResponse and the complete entry is
    lost, while the same bytes without the cut entry parse to that one
    player. *)
Lemma players_cut_entry_no_list :
  nth_error playersCut 0 = Some x02 /\
  parsePlayersResponse playersCut = Fail ErrShortResponse /\
  parsePlayersResponse (firstn 12 playersCut)
  = Ok [{| PlayerInfo.Index := x07; PlayerInfo.Name := "a";
           PlayerInfo.Score := 1; PlayerInfo.Duration := 0;
           PlayerInfo.Deaths := 0; PlayerInfo.Money := 0 |}].
Proof. repeat split. Qed.

(** C7, amended.  A RULES payload of two bytes or more (count N in two
    bytes, little-endian) always parses to a list; a PLAYER payload (count
    byte N) parses to a list unless it is empty or one of its first N entries
    begins inside the buffer and has fewer than eight bytes after its name:
    then the call fails with ErrShortResponse and the entries read before
    are dropped.  A list that is produced is in wire order, has at most N
    entries, and stops at N entries or at the end of the buffer, whichever
    comes first.
    - A PLAYER payload returns a list or ErrShortResponse, nothing else.
    - The list holds the entries read one after the other from the byte
      after the count, in that order; it has at most N entries; it has
      exactly N, or the reading stopped at or past the end of the buffer.
    - A PLAYER payload fails exactly when it is empty, or when after fewer
      than N entries read whole, one after the other, the next entry begins
      inside the buffer and the buffer ends less than eight bytes after its
      name.
    - Against the wire layout: the count followed by complete entries
      decodes to the first N of them, or to all when there are fewer, in the
      order they stand in the payload; the count followed by fewer than N
      complete entries and an entry cut in its numbers fails. *)
Theorem lists_in_wire_order :
  (forall (data : list byte),
     (exists players, parsePlayersResponse data = Ok players) \/
     parsePlayersResponse data = Fail ErrShortResponse) /\
  (forall (data : list byte) (players : list PlayerInfo.t),
     parsePlayersResponse data = Ok players ->
     exists (count : byte) (stop : nat),
       nth_error data 0 = Some count /\
       InWireOrder (length data) (playerAt data) 1 players stop /\
       length players <= Z.to_nat (u8 count) /\
       (length players = Z.to_nat (u8 count) \/ length data <= stop)) /\
  (forall (data : list byte),
     parsePlayersResponse data = Fail ErrShortResponse <->
     data = [] \/
     exists (count : byte) (entries : list PlayerInfo.t) (offset : nat),
       nth_error data 0 = Some count /\
       InWireOrder (length data) (playerAt data) 1 entries offset /\
       length entries < Z.to_nat (u8 count) /\
       offset < length data /\
       length data < snd (readString data (offset + 1)) + 8) /\
  (forall (n0 n1 : byte) (body : list byte),
     exists (rules : list Rule.t) (stop : nat),
       parseRulesResponse (n0 :: n1 :: body) = Ok rules /\
       InWireOrder (length (n0 :: n1 :: body)) (ruleAt (n0 :: n1 :: body))
         2 rules stop /\
       length rules <= Z.to_nat (le16 n0 n1) /\
       (length rules = Z.to_nat (le16 n0 n1)
        \/ length (n0 :: n1 :: body) <= stop)) /\
  (forall (count : byte) (es : list PlayerEntry),
     forallb wellFormedPlayer es = true ->
     parsePlayersResponse (count :: encodePlayers es)
     = Ok (map playerOf (firstn (Z.to_nat (u8 count)) es))) /\
  (forall (count : byte) (es : list PlayerEntry) (idx : byte)
          (name partial : list byte),
     forallb wellFormedPlayer es = true ->
     nullFree name = true ->
     length es < Z.to_nat (u8 count) ->
     length partial < 8 ->
     parsePlayersResponse
       (count :: encodePlayers es ++ idx :: cstring name ++ partial)
     = Fail ErrShortResponse) /\
  (forall (n0 n1 : byte) (rs : list (list byte * list byte)),
     forallb wellFormedRule rs = true ->
     parseRulesResponse (n0 :: n1 :: encodeRules rs)
     = Ok (map ruleOf (firstn (Z.to_nat (le16 n0 n1)) rs))).
Proof.
  split; [apply parsePlayersResponse_outcome|].
  split.
  { intros data players H. unfold parsePlayersResponse in H.
    destruct data as [|count body]; [discriminate|].
    simpl in H. unfold obind in H.
    destruct (playersLoop (count :: body) (Z.to_nat (u8 count)) 1 [])
      as [[out stop]| | |] eqn:E; try discriminate.
    injection H as <-. exists count, stop.
    split; [reflexivity|].
    apply (playersLoop_spec (count :: body) 1 _ 1 [] out stop);
      [constructor|exact E]. }
  split; [apply parsePlayersResponse_cut|].
  split.
  { intros n0 n1 body. rewrite parseRulesResponse_eq.
    pose proof (rulesLoop_spec (n0 :: n1 :: body) 2
                  (Z.to_nat (le16 n0 n1)) 2 [] (wire_done _ _ 2)) as H.
    destruct (rulesLoop (n0 :: n1 :: body) (Z.to_nat (le16 n0 n1)) 2 [])
      as [out stop].
    exists out, stop. split; [reflexivity|]. exact H. }
  split; [apply parsePlayersResponse_encoded|].
  split; [apply parsePlayersResponse_encoded_cut|].
  apply parseRulesResponse_encoded.
Qed.

Lemma lists_in_wire_order_witness :
  (exists stop : nat,
     InWireOrder 12 (playerAt [x02; x07; x61; x00; x01; x00; x00; x00;
                               x00; x00; x00; x00])
       1 [{| PlayerInfo.Index := x07; PlayerInfo.Name := "a";
             PlayerInfo.Score := 1; PlayerInfo.Duration := 0;
             PlayerInfo.Deaths := 0; PlayerInfo.Money := 0 |}] stop /\
     12 <= stop) /\
  parseRulesResponse
    ([x01; x00] ++ encodeRules [([x6d], [x31]); ([x66], [x30])])
  = Ok [{| Rule.Name := "m"; Rule.Value := "1" |}] /\
  parsePlayersResponse
    (x03 :: encodePlayers
              [{| pe_Index := x07; pe_Name := [x61];
                  pe_Score := (x01, x00, x00, x00);
                  pe_Duration := (x00, x00, x00, x00) |}]
         ++ x08 :: cstring [x62] ++ [x05; x00; x00; x00; x09])
  = Fail ErrShortResponse /\
  (exists (entries : list PlayerInfo.t) (offset : nat),
     InWireOrder (length playersCut) (playerAt playersCut) 1 entries offset /\
     length entries < 2 /\ offset < length playersCut).
Proof.
  destruct lists_in_wire_order
    as (_ & Hplayers & Hfail & _ & _ & Hcut & Hrules).
  split; [|split; [|split]].
  - destruct (Hplayers
                [x02; x07; x61; x00; x01; x00; x00; x00; x00; x00; x00; x00]
                [{| PlayerInfo.Index := x07; PlayerInfo.Name := "a";
                    PlayerInfo.Score := 1; PlayerInfo.Duration := 0;
                    PlayerInfo.Deaths := 0; PlayerInfo.Money := 0 |}]
                ltac:(vm_compute; reflexivity))
      as (count & stop & Hc & Hw & Hle & Hstop).
    exists stop. split; [exact Hw|].
    injection Hc as <-. destruct Hstop as [Hstop|Hstop].
    + vm_compute in Hstop. discriminate Hstop.
    + exact Hstop.
  - apply (Hrules x01 x00 [([x6d], [x31]); ([x66], [x30])]). reflexivity.
  - apply Hcut; [reflexivity|reflexivity|vm_compute; lia|simpl; lia].
  - destruct (proj1 (Hfail playersCut) eq_refl)
      as [H|(count & entries & offset & Hc & Hw & Hl & Ho & _)];
      [discriminate H|].
    injection Hc as <-. exists entries, offset.
    split; [exact Hw|]. split; [exact Hl|exact Ho].
Defined.

(** ** parseSourceInfo: the optional tail *)

Section OptionalReads.

Variable data : list byte.
Variable edf : byte.

(** Each optional read returns a value for every buffer and offset. *)
Lemma readGamePort_total (offset : nat) :
  exists v next, readGamePort data edf offset = Ok (v, next).
Proof.
  unfold readGamePort.
  destruct (flag edf 128 && (offset + 2 <=? length data)) eqn:E;
    [|eauto].
  apply andb_prop in E. destruct E as [_ E]. apply Nat.leb_le in E.
  destruct (Uint16_at_ok data offset E) as (b0 & b1 & _ & _ & ->).
  simpl. eauto.
Qed.

Lemma readSteamID_total (offset : nat) :
  exists v next, readSteamID data edf offset = Ok (v, next).
Proof.
  unfold readSteamID.
  destruct (flag edf 16 && (offset + 8 <=? length data)) eqn:E; [|eauto].
  apply andb_prop in E. destruct E as [_ E]. apply Nat.leb_le in E.
  destruct (Uint64_at_ok data offset E) as (v & ->). simpl. eauto.
Qed.

Lemma readSourceTV_total (offset : nat) :
  exists v next, readSourceTV data edf offset = Ok (v, next).
Proof.
  unfold readSourceTV.
  destruct (flag edf 64 && (offset + 2 <=? length data)) eqn:E; [|eauto].
  apply andb_prop in E. destruct E as [_ E]. apply Nat.leb_le in E.
  destruct (Uint16_at_ok data offset E) as (b0 & b1 & _ & _ & ->).
  simpl. destruct (readString data (offset + 2)). eauto.
Qed.

Lemma readGameID_total (offset : nat) :
  exists v, readGameID data edf offset = Ok v.
Proof.
  unfold readGameID.
  destruct (flag edf 1 && (offset + 8 <=? length data)) eqn:E; [|eauto].
  apply andb_prop in E. destruct E as [_ E]. apply Nat.leb_le in E.
  apply Uint64_at_ok. exact E.
Qed.











End OptionalReads.


Lemma parseSourceInfo_parts (data : list byte) :
  parseSourceInfo data = parseSourceParts data.
Proof.
  unfold parseSourceInfo, parseSourceParts, parseSourceFixed, parseSourceExtra,
    readGamePort, readSteamID, readSourceTV, readKeywords, readGameID, obind.
  cbv zeta. crunch; reflexivity.
Qed.

Lemma parseSourceExtra_steps (data : list byte) (offset : nat) (edf : byte) :
  nth_error data offset = Some edf ->
  exists port o1 sid o2 tv o3 gid,
    readGamePort data edf (offset + 1) = Ok (port, o1) /\
    readSteamID data edf o1 = Ok (sid, o2) /\
    readSourceTV data edf o2 = Ok (tv, o3) /\
    readGameID data edf (readKeywords data edf o3) = Ok gid /\
    parseSourceExtra data offset
    = Ok {| se_EDF := edf; se_GamePort := port; se_SteamID := sid;
            se_SourceTV := tv; se_GameID := gid |}.
Proof.
  intros He.
  destruct (readGamePort_total data edf (offset + 1)) as (port & o1 & E1).
  destruct (readSteamID_total data edf o1) as (sid & o2 & E2).
  destruct (readSourceTV_total data edf o2) as (tv & o3 & E3).
  destruct (readGameID_total data edf (readKeywords data edf o3)) as (gid & E4).
  exists port, o1, sid, o2, tv, o3, gid.
  repeat (split; [assumption|]).
  unfold parseSourceExtra.
  assert (Hlt : offset < length data) by (apply nth_error_Some; congruence).
  apply Nat.ltb_lt in Hlt. rewrite Hlt.
  rewrite (index_ok _ _ _ He). unfold obind at 1.
  rewrite E1. unfold obind at 1. rewrite E2. unfold obind at 1.
  rewrite E3. unfold obind at 1. rewrite E4. reflexivity.
Qed.

Lemma parseSourceExtra_total (data : list byte) (offset : nat) :
  exists x, parseSourceExtra data offset = Ok x.
Proof.
  destruct (Nat.lt_ge_cases offset (length data)) as [Hlt|Hge].
  - destruct (nth_error_in_range data offset Hlt) as (edf & He).
    destruct (parseSourceExtra_steps data offset edf He)
      as (port & o1 & sid & o2 & tv & o3 & gid & _ & _ & _ & _ & ->).
    eauto.
  - unfold parseSourceExtra. apply Nat.ltb_ge in Hge. rewrite Hge. eauto.
Qed.




(** ** parseGoldSourceInfo *)

(** The two-byte check is the only typed error of parseGoldSourceInfo:
    where it fails the result is ErrShortResponse, and where it passes the
    result is a record or a panic. *)
Lemma parseGoldSourceInfo_check (data : list byte) :
  (goldCheckPasses data = false ->
   parseGoldSourceInfo data = Fail ErrShortResponse) /\
  (goldCheckPasses data = true ->
   forall e, parseGoldSourceInfo data <> Fail e).
Proof.
  unfold goldCheckPasses, goldStrings, parseGoldSourceInfo. cbv zeta.
  destruct (readString data 0) as [s0 o0].
  destruct (readString data o0) as [s1 o1].
  destruct (readString data o1) as [s2 o2].
  destruct (readString data o2) as [s3 o3].
  destruct (readString data o3) as [s4 o4].
  split.
  - intros H. apply Nat.leb_gt in H. apply Nat.ltb_lt in H. rewrite H.
    reflexivity.
  - intros H e. apply Nat.leb_le in H.
    destruct (length data <? o4 + 2) eqn:E; [apply Nat.ltb_lt in E; lia|].
    unfold obind, index.
    crunch; discriminate.
Qed.

(** Every GoldSource payload whose five strings are followed by two to seven
    bytes panics. *)
Lemma parseGoldSourceInfo_truncated (tail : list byte) :
  2 <= length tail <= 7 ->
  goldCheckPasses (goldPayload tail) = true /\
  is_panic (parseGoldSourceInfo (goldPayload tail)) = true.
Proof.
  intros H.
  destruct tail as [|a [|b [|c [|d [|e [|f [|g [|h r]]]]]]]];
    simpl in H; try lia; split; try reflexivity.
  unfold parseGoldSourceInfo, goldPayload. simpl.
  destruct (beq g x01); reflexivity.
Qed.

(** C8.  GoldSource INFO payloads that pass the two-byte check for the
    player counts and then end: the read of the protocol byte, of the server
    type, of the environment, of the visibility, of the mod flag and of the
    VAC byte each run past the end of the buffer and panic, and with the mod
    flag set the skips move the offset without a check, so that the VAC read
    is at index 23 of a 12-byte buffer.  A payload that fails the two-byte
    check gets the typed error, one that passes it never does, and every
    payload of five empty strings and two to seven more bytes panics. *)
Theorem parseGoldSourceInfo_unguarded :
  (exists data,
     goldCheckPasses data = true /\
     is_panic (parseGoldSourceInfo data) = true) /\
  (* protocol *)
  goldCheckPasses (goldPayload [x05; x10]) = true /\
  parseGoldSourceInfo (goldPayload [x05; x10]) = Panic 7 7 /\
  (* server type *)
  parseGoldSourceInfo (goldPayload [x05; x10; x2f]) = Panic 8 8 /\
  (* environment *)
  parseGoldSourceInfo (goldPayload [x05; x10; x2f; x64]) = Panic 9 9 /\
  (* visibility *)
  parseGoldSourceInfo (goldPayload [x05; x10; x2f; x64; x6c]) = Panic 10 10 /\
  (* mod flag *)
  parseGoldSourceInfo (goldPayload [x05; x10; x2f; x64; x6c; x00])
    = Panic 11 11 /\
  (* VAC *)
  parseGoldSourceInfo (goldPayload [x05; x10; x2f; x64; x6c; x00; x00])
    = Panic 12 12 /\
  (* the mod branch: twelve bytes, the VAC read at 12 + 11 *)
  parseGoldSourceInfo (goldPayload [x05; x10; x2f; x64; x6c; x00; x01])
    = Panic 23 12 /\
  (* the guarded read *)
  goldCheckPasses (goldPayload [x05]) = false /\
  parseGoldSourceInfo (goldPayload [x05]) = Fail ErrShortResponse /\
  (forall data,
     goldCheckPasses data = false ->
     parseGoldSourceInfo data = Fail ErrShortResponse) /\
  (forall data e,
     goldCheckPasses data = true -> parseGoldSourceInfo data <> Fail e) /\
  (forall tail,
     2 <= length tail <= 7 ->
     is_panic (parseGoldSourceInfo (goldPayload tail)) = true).
Proof.
  split.
  { exists (goldPayload [x05; x10]). split; reflexivity. }
  do 10 (split; [reflexivity|]).
  split; [intros data; apply parseGoldSourceInfo_check|].
  split; [intros data e H; apply parseGoldSourceInfo_check; exact H|].
  intros tail H. apply parseGoldSourceInfo_truncated. exact H.
Qed.

Lemma parseGoldSourceInfo_unguarded_witness :
  parseGoldSourceInfo (goldPayload [x05]) = Fail ErrShortResponse /\
  parseGoldSourceInfo (goldPayload [x05; x10]) <> Fail ErrShortResponse /\
  is_panic (parseGoldSourceInfo (goldPayload [x05; x10; x2f])) = true.
Proof.
  destruct parseGoldSourceInfo_unguarded
    as (_ & _ & _ & _ & _ & _ & _ & _ & _ & _ & _ & Hfail & Hpass & Htrunc).
  split; [apply Hfail; reflexivity|].
  split; [apply Hpass; reflexivity|].
  apply Htrunc. simpl. lia.
Defined.

(* ================================================================= *)
(** * Further properties *)

(** ** More on the packet codec *)

Lemma le32_inj (a0 a1 a2 a3 b0 b1 b2 b3 : byte) :
  le32 a0 a1 a2 a3 = le32 b0 b1 b2 b3 ->
  a0 = b0 /\ a1 = b1 /\ a2 = b2 /\ a3 = b3.
Proof.
  intros H. apply (f_equal bytes32) in H. rewrite !bytes32_le32 in H.
  injection H as -> -> -> ->. repeat split.
Qed.

Lemma header_single (h0 h1 h2 h3 : byte) :
  (le32 h0 h1 h2 h3 =? uint32 Header)%Z = true ->
  [h0; h1; h2; h3] = singleHeader.
Proof.
  intros H. apply Z.eqb_eq in H.
  change (uint32 Header) with (le32 xff xff xff xff) in H.
  apply le32_inj in H. destruct H as (-> & -> & -> & ->). reflexivity.
Qed.

Lemma header_split (h0 h1 h2 h3 : byte) :
  (le32 h0 h1 h2 h3 =? uint32 SPLIT_FLAG)%Z = true ->
  [h0; h1; h2; h3] = splitHeader.
Proof.
  intros H. apply Z.eqb_eq in H.
  change (uint32 SPLIT_FLAG) with (le32 xfe xff xff xff) in H.
  apply le32_inj in H. destruct H as (-> & -> & -> & ->). reflexivity.
Qed.

(** processResponse on a datagram of four bytes or more, by its header. *)
Lemma processResponse_cases (h0 h1 h2 h3 : byte) (rest : list byte)
    (expect : byte) (c : Client) :
  processResponse (h0 :: h1 :: h2 :: h3 :: rest) expect c
  = if (le32 h0 h1 h2 h3 =? uint32 Header)%Z
    then processSinglePacket rest expect c
    else if (le32 h0 h1 h2 h3 =? uint32 SPLIT_FLAG)%Z
    then processSplitPacket rest expect c
    else (Fail (ErrUnknownHeader (le32 h0 h1 h2 h3)), c).
Proof.
  unfold processResponse, mbind, lift, mfail.
  change (length (h0 :: h1 :: h2 :: h3 :: rest) <? 4) with false.
  change (Uint32 (slice (h0 :: h1 :: h2 :: h3 :: rest) 0 4))
    with (Ok (A := Z) (le32 h0 h1 h2 h3)).
  change (from (h0 :: h1 :: h2 :: h3 :: rest) 4) with (Ok rest).
  cbv iota beta.
  destruct (le32 h0 h1 h2 h3 =? uint32 Header)%Z.
  - destruct (processSinglePacket rest expect c) as [[r|e|i n|] c']; reflexivity.
  - destruct (le32 h0 h1 h2 h3 =? uint32 SPLIT_FLAG)%Z; [|reflexivity].
    destruct (processSplitPacket rest expect c) as [[r|e|i n|] c']; reflexivity.
Qed.

(** processSinglePacket, by the shape of the packet. *)
Lemma processSinglePacket_cases (data : list byte) (expect : byte) (c : Client) :
  processSinglePacket data expect c
  = match data with
    | [] => (Fail ErrShortResponse, c)
    | t :: payload =>
        if beq t S2C_CHALLENGE then
          match challengeIn data with
          | Some v => (Fail ErrChallengeRequired, set_challenge v c)
          | None => (Fail ErrShortResponse, c)
          end
        else if beq t expect then (Ok payload, c)
        else (Fail (ProtocolError expect t), c)
    end.
Proof.
  unfold processSinglePacket, challengeIn, mbind, lift, modify, mfail.
  destruct data as [|t [|b1 [|b2 [|b3 [|b4 rest]]]]]; simpl;
    try reflexivity;
    destruct (beq t S2C_CHALLENGE); try reflexivity;
    destruct (beq t expect); reflexivity.
Qed.

(** X1.  A datagram of four bytes or more whose header is neither
    0xFFFFFFFF nor 0xFFFFFFFE fails with the unknown-header error carrying
    that header, whatever follows and whatever type is expected, and the
    client is unchanged; a datagram of fewer than four bytes fails with
    ErrShortResponse. *)
Theorem processResponse_unknown_header
    (data : list byte) (expect : byte) (c : Client) :
  (length data < 4 ->
   processResponse data expect c = (Fail ErrShortResponse, c)) /\
  (forall h,
     4 <= length data ->
     Uint32 (slice data 0 4) = Ok h ->
     h <> Header -> h <> SPLIT_FLAG ->
     processResponse data expect c = (Fail (ErrUnknownHeader h), c)).
Proof.
  split.
  - intros H. unfold processResponse. apply Nat.ltb_lt in H. rewrite H.
    reflexivity.
  - intros h Hlen Hh H1 H2.
    destruct data as [|h0 [|h1 [|h2 [|h3 rest]]]]; simpl in Hlen; try lia.
    rewrite processResponse_cases.
    change (Uint32 (slice (h0 :: h1 :: h2 :: h3 :: rest) 0 4))
      with (Ok (A := Z) (le32 h0 h1 h2 h3)) in Hh.
    injection Hh as <-.
    change (uint32 Header) with Header.
    change (uint32 SPLIT_FLAG) with SPLIT_FLAG.
    apply Z.eqb_neq in H1, H2. rewrite H1, H2. reflexivity.
Qed.

Lemma processResponse_unknown_header_witness :
  processResponse [xfd; xff; xff; xff; x49; x00] S2A_INFO_SRC c_fresh
    = (Fail (ErrUnknownHeader 0xFFFFFFFD), c_fresh) /\
  processResponse [xff; xff; xff] S2A_INFO_SRC c_fresh
    = (Fail ErrShortResponse, c_fresh).
Proof.
  destruct (processResponse_unknown_header [xfd; xff; xff; xff; x49; x00]
              S2A_INFO_SRC c_fresh) as [_ H].
  destruct (processResponse_unknown_header [xff; xff; xff]
              S2A_INFO_SRC c_fresh) as [H' _].
  split.
  - apply H; [simpl; lia|reflexivity|discriminate|discriminate].
  - apply H'. simpl. lia.
Defined.

(** X2.  processResponse returns a payload exactly for a datagram that is
    the single-packet header, the expected type byte and the payload, or the
    split header, eight more bytes, the expected type byte and the payload,
    where the expected type is not the challenge type; the client is then
    unchanged. *)
Theorem processResponse_payload
    (data : list byte) (expect : byte) (payload : list byte) (c c' : Client) :
  processResponse data expect c = (Ok payload, c') <->
  (c' = c /\ expect <> S2C_CHALLENGE /\
   (data = singleHeader ++ expect :: payload \/
    exists meta, length meta = 8 /\
                 data = splitHeader ++ meta ++ expect :: payload)).
Proof.
  split.
  - intros H.
    destruct data as [|h0 [|h1 [|h2 [|h3 rest]]]]; try discriminate H.
    rewrite processResponse_cases in H.
    assert (Hsingle : forall pkt,
      processSinglePacket pkt expect c = (Ok payload, c') ->
      c' = c /\ expect <> S2C_CHALLENGE /\ pkt = expect :: payload).
    { intros pkt Hp. rewrite processSinglePacket_cases in Hp.
      destruct pkt as [|t pl]; [discriminate|].
      destruct (beq t S2C_CHALLENGE) eqn:Et.
      - destruct (challengeIn (t :: pl)); discriminate.
      - destruct (beq t expect) eqn:Ee; [|discriminate].
        apply beq_true in Ee. subst t. injection Hp as -> ->.
        repeat split. intros ->. rewrite beq_refl in Et. discriminate. }
    destruct (le32 h0 h1 h2 h3 =? uint32 Header)%Z eqn:E1.
    + apply header_single in E1. injection E1 as -> -> -> ->.
      destruct (Hsingle rest H) as (-> & Hne & ->).
      repeat split; [exact Hne|left; reflexivity].
    + destruct (le32 h0 h1 h2 h3 =? uint32 SPLIT_FLAG)%Z eqn:E2;
        [|discriminate].
      apply header_split in E2. injection E2 as -> -> -> ->.
      destruct (Nat.lt_ge_cases (length rest) 9) as [Hs|Hl].
      * unfold processSplitPacket in H. apply Nat.ltb_lt in Hs.
        rewrite Hs in H. discriminate.
      * rewrite processSplitPacket_long in H by exact Hl.
        destruct (Hsingle _ H) as (-> & Hne & Hsk).
        repeat split; [exact Hne|right].
        exists (firstn 8 rest). split.
        -- rewrite length_firstn. lia.
        -- rewrite <- Hsk, firstn_skipn. reflexivity.
  - intros (-> & Hne & [-> | (meta & Hm & ->)]).
    + unfold singleHeader. cbn [app]. rewrite processResponse_cases.
      change (le32 xff xff xff xff =? uint32 Header)%Z with true. cbv iota.
      rewrite processSinglePacket_cases.
      rewrite beq_neq by exact Hne. rewrite beq_refl. reflexivity.
    + unfold splitHeader. cbn [app]. rewrite processResponse_cases.
      change (le32 xfe xff xff xff =? uint32 Header)%Z with false.
      change (le32 xfe xff xff xff =? uint32 SPLIT_FLAG)%Z with true.
      cbv iota.
      rewrite processSplitPacket_long by (rewrite length_app; simpl; lia).
      rewrite <- Hm, skipn_prefix.
      rewrite processSinglePacket_cases.
      rewrite beq_neq by exact Hne. rewrite beq_refl. reflexivity.
Qed.

Lemma processResponse_payload_witness :
  processResponse (singleHeader ++ S2A_RULES :: [x00; x00]) S2A_RULES c_fresh
    = (Ok [x00; x00], c_fresh) /\
  processResponse
    (splitHeader ++ [x01; x00; x00; x00; x00; x02; x00; x00]
       ++ S2A_RULES :: [x00; x00]) S2A_RULES c_fresh
    = (Ok [x00; x00], c_fresh).
Proof.
  split.
  - apply (proj2 (processResponse_payload _ S2A_RULES [x00; x00]
                    c_fresh c_fresh)).
    repeat split; [discriminate|left; reflexivity].
  - apply (proj2 (processResponse_payload _ S2A_RULES [x00; x00]
                    c_fresh c_fresh)).
    repeat split; [discriminate|right].
    exists [x01; x00; x00; x00; x00; x02; x00; x00]. split; reflexivity.
Defined.

Lemma processSinglePacket_errors (data : list byte) (expect : byte) (c : Client) :
  match fst (processSinglePacket data expect c) with
  | Ok _ => True
  | Fail e =>
      e = ErrShortResponse \/ e = ErrChallengeRequired \/
      exists t, e = ProtocolError expect t /\ t <> expect /\ t <> S2C_CHALLENGE
  | Panic _ _ => False
  | PanicNil => False
  end.
Proof.
  rewrite processSinglePacket_cases.
  destruct data as [|t payload]; [simpl; auto|].
  destruct (beq t S2C_CHALLENGE) eqn:Et.
  - destruct (challengeIn (t :: payload)); simpl; auto.
  - destruct (beq t expect) eqn:Ee; simpl; [exact I|].
    right. right. exists t. repeat split.
    + apply beq_false. exact Ee.
    + apply beq_false. exact Et.
Qed.

(** X3.  processResponse never panics and never returns
    ErrInvalidResponse: it returns a payload, ErrShortResponse,
    ErrChallengeRequired, a ProtocolError whose actual type is neither the
    expected one nor the challenge type, or the unknown-header error for a
    header that is neither of the two known ones. *)
Theorem processResponse_errors (data : list byte) (expect : byte) (c : Client) :
  match fst (processResponse data expect c) with
  | Ok _ => True
  | Fail e =>
      e = ErrShortResponse \/ e = ErrChallengeRequired \/
      (exists t, e = ProtocolError expect t /\ t <> expect
                 /\ t <> S2C_CHALLENGE) \/
      (exists h, e = ErrUnknownHeader h /\ h <> Header /\ h <> SPLIT_FLAG)
  | Panic _ _ => False
  | PanicNil => False
  end.
Proof.
  assert (Hs : forall pkt,
    match fst (processSinglePacket pkt expect c) with
    | Ok _ => True
    | Fail e =>
        e = ErrShortResponse \/ e = ErrChallengeRequired \/
        (exists t, e = ProtocolError expect t /\ t <> expect
                   /\ t <> S2C_CHALLENGE) \/
        (exists h, e = ErrUnknownHeader h /\ h <> Header /\ h <> SPLIT_FLAG)
    | Panic _ _ => False
    | PanicNil => False
    end).
  { intros pkt. pose proof (processSinglePacket_errors pkt expect c) as H.
    destruct (fst (processSinglePacket pkt expect c)); try exact H.
    destruct H as [H|[H|H]]; auto. }
  destruct data as [|h0 [|h1 [|h2 [|h3 rest]]]]; try (simpl; auto; fail).
  rewrite processResponse_cases.
  change (uint32 Header) with Header.
  change (uint32 SPLIT_FLAG) with SPLIT_FLAG.
  destruct (le32 h0 h1 h2 h3 =? Header)%Z eqn:E1; [apply Hs|].
  destruct (le32 h0 h1 h2 h3 =? SPLIT_FLAG)%Z eqn:E2.
  - destruct (Nat.lt_ge_cases (length rest) 9) as [Hlt|Hge].
    + unfold processSplitPacket. apply Nat.ltb_lt in Hlt. rewrite Hlt.
      simpl. auto.
    + rewrite processSplitPacket_long by exact Hge. apply Hs.
  - simpl. right. right. right. exists (le32 h0 h1 h2 h3).
    apply Z.eqb_neq in E1, E2. auto.
Qed.

(** X4.  A split datagram is read as one fragment: the eight bytes after
    the split header are skipped unread, and the result is that of the
    single packet made of the bytes after them. *)
Theorem processResponse_split_as_single
    (meta body : list byte) (expect : byte) (c : Client) :
  length meta = 8 ->
  processResponse (splitHeader ++ meta ++ body) expect c
  = processResponse (singleHeader ++ body) expect c.
Proof.
  intros Hm. unfold splitHeader, singleHeader. cbn [app].
  rewrite !processResponse_cases.
  change (le32 xfe xff xff xff =? uint32 Header)%Z with false.
  change (le32 xfe xff xff xff =? uint32 SPLIT_FLAG)%Z with true.
  change (le32 xff xff xff xff =? uint32 Header)%Z with true.
  cbv iota.
  destruct body as [|t payload].
  - rewrite app_nil_r. unfold processSplitPacket. rewrite Hm. reflexivity.
  - rewrite processSplitPacket_long by (rewrite length_app; simpl; lia).
    rewrite <- Hm, skipn_prefix. reflexivity.
Qed.

Lemma processResponse_split_as_single_witness :
  processResponse
    (splitHeader ++ [x01; x00; x00; x00; x00; x02; x00; x00]
       ++ [x41; x2a; x00; x00; x00]) S2A_INFO_SRC c_fresh
  = (Fail ErrChallengeRequired, set_challenge 42 c_fresh).
Proof.
  rewrite (processResponse_split_as_single
             [x01; x00; x00; x00; x00; x02; x00; x00]
             [x41; x2a; x00; x00; x00] S2A_INFO_SRC c_fresh eq_refl).
  reflexivity.
Defined.

Lemma int32_minus_one (b1 b2 b3 b4 : byte) :
  int32 (le32 b1 b2 b3 b4) = (-1)%Z <-> [b1; b2; b3; b4] = [xff; xff; xff; xff].
Proof.
  split.
  - intros H. pose proof (le32_range b1 b2 b3 b4) as Hr.
    assert (Hle : le32 b1 b2 b3 b4 = le32 xff xff xff xff).
    { change (le32 xff xff xff xff) with 4294967295%Z.
      unfold int32 in H. rewrite Z.mod_small in H by exact Hr.
      destruct (le32 b1 b2 b3 b4 <? 2 ^ 31)%Z eqn:E.
      - apply Z.ltb_lt in E. lia.
      - lia. }
    apply le32_inj in Hle. destruct Hle as (-> & -> & -> & ->). reflexivity.
  - intros H. injection H as -> -> -> ->. reflexivity.
Qed.

(** X5.  The four bytes of a challenge response are echoed verbatim: once
    such a packet is processed, every PLAYER and RULES request built carries
    exactly those bytes after the type byte, and every INFO request ends with
    them, except that a challenge of four FF bytes is taken for "none" and
    the INFO request then carries no challenge. *)
Theorem challenge_echo
    (b1 b2 b3 b4 : byte) (rest : list byte) (expect : byte) (c : Client)
    (payload : list byte) :
  let c' := snd (processSinglePacket
                   (S2C_CHALLENGE :: b1 :: b2 :: b3 :: b4 :: rest) expect c) in
  buildPacket c' A2S_PLAYER payload
    = Ok (singleHeader ++ [A2S_PLAYER] ++ [b1; b2; b3; b4] ++ payload) /\
  buildPacket c' A2S_RULES payload
    = Ok (singleHeader ++ [A2S_RULES] ++ [b1; b2; b3; b4] ++ payload) /\
  ([b1; b2; b3; b4] <> [xff; xff; xff; xff] ->
   buildPacket c' A2S_INFO payload
     = Ok (singleHeader ++ [A2S_INFO] ++ payload ++ [b1; b2; b3; b4])) /\
  ([b1; b2; b3; b4] = [xff; xff; xff; xff] ->
   buildPacket c' A2S_INFO payload
     = Ok (singleHeader ++ [A2S_INFO] ++ payload)).
Proof.
  intros c'. unfold c'. rewrite processSinglePacket_challenge_eq.
  cbn [snd]. rewrite !buildPacket_layout.
  unfold requestLayout, challengeAtEnd. cbn [challenge set_challenge].
  change (challengeAtBeginning A2S_PLAYER) with true.
  change (challengeAtBeginning A2S_RULES) with true.
  change (challengeAtBeginning A2S_INFO) with false.
  change (beq A2S_PLAYER A2S_INFO) with false.
  change (beq A2S_RULES A2S_INFO) with false.
  change (beq A2S_INFO A2S_INFO) with true.
  assert (Hb : bytes32 (uint32 (int32 (le32 b1 b2 b3 b4))) = [b1; b2; b3; b4]).
  { rewrite uint32_int32, Z.mod_small by apply le32_range.
    apply bytes32_le32. }
  rewrite Hb. cbn [andb app]. rewrite !app_nil_r.
  repeat split.
  - intros Hne.
    destruct (int32 (le32 b1 b2 b3 b4) =? -1)%Z eqn:E; [|reflexivity].
    apply Z.eqb_eq, int32_minus_one in E. contradiction.
  - intros Heq. apply int32_minus_one in Heq. rewrite Heq. simpl.
    rewrite app_nil_r. reflexivity.
Qed.

Lemma challenge_echo_witness :
  buildPacket
    (snd (processSinglePacket [x41; x2a; x01; x02; x83] S2A_PLAYER c_fresh))
    A2S_INFO infoPayload
  = Ok (singleHeader ++ [A2S_INFO] ++ infoPayload ++ [x2a; x01; x02; x83]).
Proof.
  apply (challenge_echo x2a x01 x02 x83 [] S2A_PLAYER c_fresh infoPayload).
  discriminate.
Defined.

(** ** More on the query client *)

Lemma processSinglePacket_surfaces (pkt : list byte) (expect : byte)
    (c : Client) :
  match fst (processSinglePacket pkt expect c) with
  | Ok _ => True
  | Fail e =>
      e = ErrChallengeRequired \/ (surfaces e = true /\ expects expect e = true)
  | Panic _ _ => False
  | PanicNil => False
  end.
Proof.
  pose proof (processSinglePacket_errors pkt expect c) as H.
  destruct (fst (processSinglePacket pkt expect c)); try exact H.
  destruct H as [->|[->|(t & -> & _)]]; auto.
  right. split; [reflexivity|apply beq_refl].
Qed.

Lemma processResponse_surfaces (data : list byte) (expect : byte) (c : Client) :
  match fst (processResponse data expect c) with
  | Ok _ => True
  | Fail e =>
      e = ErrChallengeRequired \/ (surfaces e = true /\ expects expect e = true)
  | Panic _ _ => False
  | PanicNil => False
  end.
Proof.
  destruct data as [|h0 [|h1 [|h2 [|h3 rest]]]]; try (simpl; auto; fail).
  rewrite processResponse_cases.
  destruct (le32 h0 h1 h2 h3 =? uint32 Header)%Z;
    [apply processSinglePacket_surfaces|].
  destruct (le32 h0 h1 h2 h3 =? uint32 SPLIT_FLAG)%Z; [|simpl; auto].
  destruct (Nat.lt_ge_cases (length rest) 9) as [Hlt|Hge].
  - unfold processSplitPacket. apply Nat.ltb_lt in Hlt. rewrite Hlt.
    simpl. auto.
  - rewrite processSplitPacket_long by exact Hge.
    apply processSinglePacket_surfaces.
Qed.

Section Queries.

Variable net : Net.

Lemma sendRequestRaw_surfaces (packetType : byte) (payload : list byte)
    (expectResponse : byte) (c : Client) :
  conn c <> None ->
  match fst (sendRequestRaw net packetType payload expectResponse c) with
  | Ok _ => True
  | Fail e =>
      e = ErrChallengeRequired
      \/ (surfaces e = true /\ expects expectResponse e = true)
  | Panic _ _ => False
  | PanicNil => False
  end.
Proof.
  intros Hk. rewrite sendRequestRaw_cases. cbv zeta.
  destruct (conn c) as [k|]; [|contradiction].
  destruct (closed k); [simpl; auto|].
  destruct (net_write net (history k) (requestLayout c packetType payload));
    [|simpl; auto].
  destruct (net_read net
              (history (log_event (Wrote (requestLayout c packetType payload)) k)))
    as [| |d]; try (simpl; auto; fail).
  apply processResponse_surfaces.
Qed.

Lemma sendRequestLoop_surfaces (n : nat) (packetType : byte)
    (payload : list byte) (expectResponse : byte) (c : Client) :
  conn c <> None ->
  match fst (sendRequestLoop net n packetType payload expectResponse c) with
  | Ok _ => True
  | Fail e => surfaces e = true /\ expects expectResponse e = true
  | Panic _ _ => False
  | PanicNil => False
  end.
Proof.
  revert c. induction n as [|n IH]; intros c Hk; [simpl; auto|].
  simpl.
  pose proof (sendRequestRaw_surfaces packetType payload expectResponse c Hk)
    as H.
  pose proof (sendRequestRaw_conn net packetType payload expectResponse c Hk)
    as Hk1.
  destruct (sendRequestRaw net packetType payload expectResponse c)
    as [[r|e|i k|] c1]; simpl in H, Hk1; [exact I| |contradiction..].
  destruct (is_challenge_required e) eqn:E; [apply IH; exact Hk1|].
  simpl. destruct H as [->|H]; [discriminate E|exact H].
Qed.

Lemma sendRequest_surfaces (packetType : byte) (payload : list byte)
    (expectResponse : byte) (c : Client) :
  conn c <> None ->
  match fst (sendRequest net packetType payload expectResponse c) with
  | Ok _ => True
  | Fail e => surfaces e = true /\ expects expectResponse e = true
  | Panic _ _ => False
  | PanicNil => False
  end.
Proof. apply sendRequestLoop_surfaces. Qed.

(** What the challenge queries return: always an error, ErrNotConnected or
    the error of the probe, and the client is the one the probe left. *)
Lemma challengeQuery_fails {A : Type} (request response : byte)
    (parse : list byte -> Outcome A) (c : Client) :
  (IsConnected c = false /\
   challengeQuery net request response parse c = (Fail ErrNotConnected, c)) \/
  (IsConnected c = true /\
   exists e,
     sendRequest net request challengeReq S2C_CHALLENGE c
     = (Fail e, snd (sendRequest net request challengeReq S2C_CHALLENGE c)) /\
     challengeQuery net request response parse c
     = (Fail e, snd (sendRequest net request challengeReq S2C_CHALLENGE c)) /\
     surfaces e = true /\ expects S2C_CHALLENGE e = true).
Proof.
  unfold challengeQuery.
  destruct (IsConnected c) eqn:Hc; [right|left; split; reflexivity].
  split; [reflexivity|]. cbn [negb].
  pose proof (probe_fails net request c) as H.
  pose proof (sendRequest_surfaces request challengeReq S2C_CHALLENGE c
                (IsConnected_conn c Hc)) as Hs.
  destruct (sendRequest net request challengeReq S2C_CHALLENGE c)
    as [[r|e|i n|] c']; simpl in H, Hs; try contradiction.
  rewrite H. exists e. repeat split; apply Hs.
Qed.

End Queries.

(** X6.  GetPlayers and GetRules fail for every server and every client:
    with ErrNotConnected, or with an error of the probe, and never with a
    panic.  CheckFeatures therefore reports Info and nothing else, whatever
    the server supports. *)
Theorem CheckFeatures_reports_none (net : Net) (c : Client) :
  (exists e, fst (GetPlayers net c) = Fail e /\
             (e = ErrNotConnected \/ surfaces e = true)) /\
  (exists e, fst (GetRules net c) = Fail e /\
             (e = ErrNotConnected \/ surfaces e = true)) /\
  fst (CheckFeatures net c) = Ok featuresNone.
Proof.
  assert (Hq : forall (A : Type) request response
                 (parse : list byte -> Outcome A) c0,
             exists e, fst (challengeQuery net request response parse c0)
                       = Fail e /\
                       (e = ErrNotConnected \/ surfaces e = true)).
  { intros A request response parse c0.
    destruct (challengeQuery_fails net request response parse c0)
      as [[_ ->]|(_ & e & _ & -> & Hs & _)].
    - exists ErrNotConnected. split; [reflexivity|left; reflexivity].
    - exists e. split; [reflexivity|right; exact Hs]. }
  split; [rewrite GetPlayers_query; apply Hq|].
  split; [rewrite GetRules_query; apply Hq|].
  unfold CheckFeatures.
  destruct (Hq _ A2S_PLAYER S2A_PLAYER parsePlayersResponse c) as (e1 & H1 & _).
  rewrite <- GetPlayers_query in H1.
  destruct (GetPlayers net c) as [players c1]. simpl in H1. subst players.
  destruct (Hq _ A2S_RULES S2A_RULES parseRulesResponse c1) as (e2 & H2 & _).
  rewrite <- GetRules_query in H2.
  destruct (GetRules net c1) as [rules c2]. simpl in H2. subst rules.
  reflexivity.
Qed.

(** ** More on the parsers *)

Lemma index_in_range (data : list byte) (i : nat) :
  i < length data -> exists b, index data i = Ok b.
Proof.
  intros H. destruct (nth_error_in_range data i H) as (b & Hb).
  exists b. apply index_ok. exact Hb.
Qed.

Lemma parseSourceFixed_outcome (data : list byte) :
  (exists f offset, parseSourceFixed data = Ok (f, offset)) \/
  parseSourceFixed data = Fail ErrShortResponse.
Proof.
  unfold parseSourceFixed.
  destruct (length data <? 20) eqn:E20; [right; reflexivity|].
  apply Nat.ltb_ge in E20. cbv zeta.
  destruct (index_in_range data 0 ltac:(lia)) as (protocol & ->).
  cbn [obind].
  destruct (readString data (0 + 1)) as [name o1].
  destruct (readString data o1) as [map o2].
  destruct (readString data o2) as [folder o3].
  destruct (readString data o3) as [game o4].
  assert (Happ : exists appID o5,
            (if o4 + 2 <=? length data
             then obind (Uint16_at data o4) (fun v => Ok (v, o4 + 2))
             else Ok (0%Z, o4)) = Ok (appID, o5)).
  { destruct (o4 + 2 <=? length data) eqn:E; [|eauto].
    apply Nat.leb_le in E.
    destruct (Uint16_at_ok data o4 E) as (b0 & b1 & _ & _ & ->).
    simpl. eauto. }
  destruct Happ as (appID & o5 & ->). cbn [obind].
  destruct (length data <? o5 + 3) eqn:E3; [right; reflexivity|].
  apply Nat.ltb_ge in E3.
  destruct (index_in_range data o5 ltac:(lia)) as (players & ->).
  cbn [obind].
  destruct (index_in_range data (o5 + 1) ltac:(lia)) as (maxPlayers & ->).
  cbn [obind].
  destruct (index_in_range data (o5 + 1 + 1) ltac:(lia)) as (bots & ->).
  cbn [obind].
  destruct (length data <? o5 + 1 + 1 + 1 + 4) eqn:E4; [right; reflexivity|].
  apply Nat.ltb_ge in E4.
  destruct (index_in_range data (o5 + 1 + 1 + 1) ltac:(lia)) as (st & ->).
  cbn [obind].
  destruct (index_in_range data (o5 + 1 + 1 + 1 + 1) ltac:(lia)) as (env & ->).
  cbn [obind].
  destruct (index_in_range data (o5 + 1 + 1 + 1 + 1 + 1) ltac:(lia))
    as (vis & ->).
  cbn [obind].
  destruct (index_in_range data (o5 + 1 + 1 + 1 + 1 + 1 + 1) ltac:(lia))
    as (vac & ->).
  cbn [obind].
  destruct (readString data (o5 + 1 + 1 + 1 + 1 + 1 + 1 + 1)) as [version o6].
  left. eauto.
Qed.

Lemma parseSourceInfo_outcome (data : list byte) :
  (exists info, parseSourceInfo data = Ok info) \/
  parseSourceInfo data = Fail ErrShortResponse.
Proof.
  rewrite parseSourceInfo_parts. unfold parseSourceParts.
  destruct (parseSourceFixed_outcome data) as [(f & offset & ->)| ->];
    [|right; reflexivity].
  cbn [obind].
  destruct (parseSourceExtra_total data offset) as (x & ->).
  left. simpl. eauto.
Qed.

(** ** Reading a buffer of known layout *)

Section Layout.

Variable data : list byte.

Lemma at_index (pre : list byte) (b : byte) (rest : list byte) (offset : nat) :
  data = pre ++ b :: rest -> offset = length pre -> index data offset = Ok b.
Proof. intros -> ->. apply index_at. Qed.

Lemma at_string (pre s rest : list byte) (offset : nat) :
  data = pre ++ cstring s ++ rest -> offset = length pre ->
  nullFree s = true ->
  readString data offset = (text s, offset + length s + 1).
Proof.
  intros -> -> Hs. rewrite readString_cstring by exact Hs.
  unfold cstring. rewrite !length_app. simpl. f_equal. lia.
Qed.

Lemma at_pair16 (pre : list byte) (p : byte * byte) (rest : list byte)
    (offset : nat) :
  data = pre ++ pair16 p ++ rest -> offset = length pre ->
  Uint16_at data offset = Ok (val16 p).
Proof.
  intros -> ->. unfold Uint16_at.
  rewrite from_ok by (rewrite length_app; lia).
  rewrite skipn_prefix. reflexivity.
Qed.

Lemma at_oct (pre : list byte) (o : Oct) (rest : list byte) (offset : nat) :
  data = pre ++ oct o ++ rest -> offset = length pre ->
  Uint64_at data offset = Ok (val64 o).
Proof.
  intros -> ->. unfold Uint64_at.
  rewrite from_ok by (rewrite length_app; lia).
  rewrite skipn_prefix. reflexivity.
Qed.

End Layout.

Ltac unlet := repeat match goal with x := _ |- _ => subst x end.

Ltac lens :=
  unlet; subst;
  repeat (rewrite ?length_app, ?length_cons; unfold cstring, pair16, oct);
  cbn [length]; lia.

Ltac lists := unlet; subst; repeat (rewrite <- ?app_assoc; cbn [app]); reflexivity.

Ltac rd_index P := erewrite (at_index _ P); [cbn [obind]|lists|lens].
Ltac rd_string P S :=
  erewrite (at_string _ P S); [|lists|lens|assumption].
Ltac rd_pair16 P V := erewrite (at_pair16 _ P V); [cbn [obind]|lists|lens].
Ltac rd_oct P V := erewrite (at_oct _ P V); [cbn [obind]|lists|lens].

Lemma ltb_false_of (a b : nat) : b <= a -> (a <? b) = false.
Proof. intros H. apply Nat.ltb_ge. exact H. Qed.

Lemma leb_true_of (a b : nat) : a <= b -> (a <=? b) = true.
Proof. intros H. apply Nat.leb_le. exact H. Qed.

Ltac guard_ok :=
  match goal with
  | |- context [?a <=? length ?d] =>
      rewrite (leb_true_of a (length d)) by lens
  end.
Ltac check_ok :=
  match goal with
  | |- context [length ?d <? ?a] =>
      rewrite (ltb_false_of (length d) a) by lens
  end.

Lemma parseSourceFixed_layout (w : SourceWire) (rest : list byte) :
  sourceStringsOk w = true ->
  20 <= length (encodeSourceFixed w ++ rest) ->
  exists f,
    parseSourceFixed (encodeSourceFixed w ++ rest)
    = Ok (f, length (encodeSourceFixed w)) /\
    sf_Protocol f = sw_Protocol w /\ sf_Name f = text (sw_Name w) /\
    sf_Map f = text (sw_Map w) /\ sf_Folder f = text (sw_Folder w) /\
    sf_Game f = text (sw_Game w) /\ sf_AppID f = val16 (sw_AppID w) /\
    sf_Players f = sw_Players w /\ sf_MaxPlayers f = sw_MaxPlayers w /\
    sf_Bots f = sw_Bots w /\ sf_ServerType f = sw_ServerType w /\
    sf_Environment f = sw_Environment w /\
    sf_Visibility f = sw_Visibility w /\ sf_VAC f = sw_VAC w /\
    sf_Version f = text (sw_Version w).
Proof.
  intros Hok Hlen. unfold sourceStringsOk in Hok.
  repeat (apply andb_prop in Hok; destruct Hok as [Hok ?]).
  unfold parseSourceFixed.
  rewrite (ltb_false_of _ _ Hlen). cbv zeta.
  unfold encodeSourceFixed.
  set (p1 := [sw_Protocol w]).
  set (p2 := p1 ++ cstring (sw_Name w)).
  set (p3 := p2 ++ cstring (sw_Map w)).
  set (p4 := p3 ++ cstring (sw_Folder w)).
  set (p5 := p4 ++ cstring (sw_Game w)).
  set (p6 := p5 ++ pair16 (sw_AppID w)).
  set (p7 := p6 ++ [sw_Players w; sw_MaxPlayers w; sw_Bots w]).
  set (p8 := p7 ++ [sw_ServerType w; sw_Environment w; sw_Visibility w;
                    sw_VAC w]).
  rd_index (@nil byte).
  rd_string p1 (sw_Name w).
  rd_string p2 (sw_Map w).
  rd_string p3 (sw_Folder w).
  rd_string p4 (sw_Game w).
  guard_ok.
  rd_pair16 p5 (sw_AppID w).
  check_ok.
  rd_index p6.
  rd_index (p6 ++ [sw_Players w]).
  rd_index (p6 ++ [sw_Players w; sw_MaxPlayers w]).
  check_ok.
  rd_index p7.
  rd_index (p7 ++ [sw_ServerType w]).
  rd_index (p7 ++ [sw_ServerType w; sw_Environment w]).
  rd_index (p7 ++ [sw_ServerType w; sw_Environment w; sw_Visibility w]).
  rd_string p8 (sw_Version w).
  eexists. split.
  - f_equal. f_equal. lens.
  - cbn. repeat split.
Qed.

Section ExtraLayout.

Variable data : list byte.
Variable e : byte.

Lemma readGamePort_layout (pre : list byte) (p : byte * byte)
    (rest : list byte) (offset : nat) :
  data = pre ++ (if flag e 0x80 then pair16 p else []) ++ rest ->
  offset = length pre ->
  readGamePort data e offset
  = Ok (if flag e 0x80 then val16 p else 0%Z,
        offset + length (if flag e 0x80 then pair16 p else [])).
Proof.
  intros Hd Ho. unfold readGamePort. destruct (flag e 128).
  - cbn [andb]. guard_ok. rd_pair16 pre p. reflexivity.
  - cbn [andb length]. rewrite Nat.add_0_r. reflexivity.
Qed.

Lemma readSteamID_layout (pre : list byte) (o : Oct)
    (rest : list byte) (offset : nat) :
  data = pre ++ (if flag e 0x10 then oct o else []) ++ rest ->
  offset = length pre ->
  readSteamID data e offset
  = Ok (if flag e 0x10 then val64 o else 0%Z,
        offset + length (if flag e 0x10 then oct o else [])).
Proof.
  intros Hd Ho. unfold readSteamID. destruct (flag e 16).
  - cbn [andb]. guard_ok. rd_oct pre o. reflexivity.
  - cbn [andb length]. rewrite Nat.add_0_r. reflexivity.
Qed.

Lemma readSourceTV_layout (pre : list byte) (p : byte * byte)
    (name rest : list byte) (offset : nat) :
  data = pre ++ (if flag e 0x40 then pair16 p ++ cstring name else [])
         ++ rest ->
  offset = length pre ->
  nullFree name = true ->
  readSourceTV data e offset
  = Ok (if flag e 0x40
        then {| SourceTV.Port := val16 p; SourceTV.Name := text name |}
        else SourceTV.zero,
        offset + length (if flag e 0x40 then pair16 p ++ cstring name
                         else [])).
Proof.
  intros Hd Ho Hn. unfold readSourceTV. destruct (flag e 64).
  - cbn [andb]. guard_ok. rd_pair16 pre p.
    rd_string (pre ++ pair16 p) name.
    f_equal. f_equal. lens.
  - cbn [andb length]. rewrite Nat.add_0_r. reflexivity.
Qed.

Lemma readKeywords_layout (pre tags rest : list byte) (offset : nat) :
  data = pre ++ (if flag e 0x20 then cstring tags else []) ++ rest ->
  offset = length pre ->
  nullFree tags = true ->
  readKeywords data e offset
  = offset + length (if flag e 0x20 then cstring tags else []).
Proof.
  intros Hd Ho Hn. unfold readKeywords. destruct (flag e 32).
  - rd_string pre tags. lens.
  - cbn [length]. lia.
Qed.

Lemma readGameID_layout (pre : list byte) (o : Oct)
    (rest : list byte) (offset : nat) :
  data = pre ++ (if flag e 0x01 then oct o else []) ++ rest ->
  offset = length pre ->
  readGameID data e offset = Ok (if flag e 0x01 then val64 o else 0%Z).
Proof.
  intros Hd Ho. unfold readGameID. destruct (flag e 1).
  - cbn [andb]. guard_ok. rd_oct pre o. reflexivity.
  - reflexivity.
Qed.

End ExtraLayout.

Lemma parseSourceExtra_layout (w : SourceWire) (pre junk : list byte) :
  sourceStringsOk w = true ->
  parseSourceExtra (pre ++ encodeSourceExtra w ++ junk) (length pre)
  = Ok {| se_EDF := sw_EDF w;
          se_GamePort :=
            if flag (sw_EDF w) 0x80 then val16 (sw_GamePort w) else 0%Z;
          se_SteamID :=
            if flag (sw_EDF w) 0x10 then val64 (sw_SteamID w) else 0%Z;
          se_SourceTV :=
            if flag (sw_EDF w) 0x40
            then {| SourceTV.Port := val16 (sw_TVPort w);
                    SourceTV.Name := text (sw_TVName w) |}
            else SourceTV.zero;
          se_GameID :=
            if flag (sw_EDF w) 0x01 then val64 (sw_GameID w) else 0%Z |}.
Proof.
  intros Hok. unfold sourceStringsOk in Hok.
  repeat (apply andb_prop in Hok; destruct Hok as [Hok ?]).
  unfold encodeSourceExtra. cbv zeta.
  set (e := sw_EDF w).
  set (s1 := if flag e 128 then pair16 (sw_GamePort w) else []).
  set (s2 := if flag e 16 then oct (sw_SteamID w) else []).
  set (s3 := if flag e 64
             then pair16 (sw_TVPort w) ++ cstring (sw_TVName w) else []).
  set (s4 := if flag e 32 then cstring (sw_Keywords w) else []).
  set (s5 := if flag e 1 then oct (sw_GameID w) else []).
  remember (pre ++ ([e] ++ s1 ++ s2 ++ s3 ++ s4 ++ s5) ++ junk) as data
    eqn:Hd.
  unfold parseSourceExtra.
  assert (Hlt : (length pre <? length data) = true).
  { apply Nat.ltb_lt. subst data. rewrite !length_app. simpl. lia. }
  rewrite Hlt.
  rewrite (at_index data pre e (s1 ++ s2 ++ s3 ++ s4 ++ s5 ++ junk)
             (length pre)); [|subst data; lists|reflexivity].
  cbn [obind].
  rewrite (readGamePort_layout data e (pre ++ [e]) (sw_GamePort w)
             (s2 ++ s3 ++ s4 ++ s5 ++ junk));
    [|subst data s1; lists|rewrite length_app; reflexivity].
  cbn [obind]. fold s1.
  rewrite (readSteamID_layout data e (pre ++ [e] ++ s1) (sw_SteamID w)
             (s3 ++ s4 ++ s5 ++ junk));
    [|subst data s2; lists|rewrite !length_app; simpl; lia].
  cbn [obind]. fold s2.
  rewrite (readSourceTV_layout data e (pre ++ [e] ++ s1 ++ s2) (sw_TVPort w)
             (sw_TVName w) (s4 ++ s5 ++ junk));
    [|subst data s3; lists|rewrite !length_app; simpl; lia|assumption].
  cbn [obind]. fold s3.
  rewrite (readKeywords_layout data e (pre ++ [e] ++ s1 ++ s2 ++ s3)
             (sw_Keywords w) (s5 ++ junk));
    [|subst data s4; lists|rewrite !length_app; simpl; lia|assumption].
  fold s4.
  rewrite (readGameID_layout data e (pre ++ [e] ++ s1 ++ s2 ++ s3 ++ s4)
             (sw_GameID w) junk);
    [|subst data s5; lists|rewrite !length_app; simpl; lia].
  reflexivity.
Qed.

(** X7.  A Source INFO payload laid out as the protocol has it, with
    strings free of zero bytes and at least 20 bytes in all, parses to the
    record of its fields: with the flags byte and the optional fields its
    bits announce (whatever follows them is ignored), and, when the payload
    ends after the version string, with every optional field zero. *)
Theorem parseSourceInfo_layout (w : SourceWire) (junk : list byte) :
  sourceStringsOk w = true ->
  (20 <= length (encodeSourceFixed w ++ encodeSourceExtra w ++ junk) ->
   parseSourceInfo (encodeSourceFixed w ++ encodeSourceExtra w ++ junk)
   = Ok (sourceInfoOf w true)) /\
  (20 <= length (encodeSourceFixed w) ->
   parseSourceInfo (encodeSourceFixed w) = Ok (sourceInfoOf w false)).
Proof.
  intros Hok. split; intros Hlen.
  - rewrite parseSourceInfo_parts. unfold parseSourceParts.
    destruct (parseSourceFixed_layout w (encodeSourceExtra w ++ junk) Hok Hlen)
      as (f & -> & H1 & H2 & H3 & H4 & H5 & H6 & H7 & H8 & H9 & H10 & H11
            & H12 & H13 & H14).
    cbn [obind].
    rewrite (parseSourceExtra_layout w (encodeSourceFixed w) junk Hok).
    cbn [obind]. unfold sourceInfoOf. cbn [andb se_EDF se_GamePort se_SteamID
      se_SourceTV se_GameID].
    rewrite H1, H2, H3, H4, H5, H6, H7, H8, H9, H10, H11, H12, H13, H14.
    reflexivity.
  - rewrite parseSourceInfo_parts. unfold parseSourceParts.
    rewrite <- (app_nil_r (encodeSourceFixed w)) in Hlen |- *.
    destruct (parseSourceFixed_layout w [] Hok Hlen)
      as (f & -> & H1 & H2 & H3 & H4 & H5 & H6 & H7 & H8 & H9 & H10 & H11
            & H12 & H13 & H14).
    cbn [obind]. unfold parseSourceExtra.
    rewrite app_nil_r. rewrite Nat.ltb_irrefl. cbn [obind].
    unfold sourceInfoOf, no_extra. cbn [andb se_EDF se_GamePort se_SteamID
      se_SourceTV se_GameID].
    rewrite H1, H2, H3, H4, H5, H6, H7, H8, H9, H10, H11, H12, H13, H14.
    reflexivity.
Qed.

(** X9.  A GoldSource INFO payload laid out as the protocol has it (five
    strings, seven bytes, the mod section when the mod flag is 1, the VAC
    byte), with strings free of zero bytes, parses to the record of its
    fields; the byte after the VAC byte, if there is one, is the bot count,
    and the count is zero otherwise. *)
Theorem parseGoldSourceInfo_layout (g : GoldWire) (tail : list byte) :
  goldOk g = true ->
  parseGoldSourceInfo (encodeGold g ++ tail)
  = Ok (goldInfoOf g (hd x00 tail)).
Proof.
  intros Hok. unfold goldOk in Hok.
  repeat (apply andb_prop in Hok; destruct Hok as [Hok ?]).
  match goal with H : (length _ =? 11) = true |- _ =>
    apply Nat.eqb_eq in H; rename H into Hm end.
  unfold parseGoldSourceInfo, encodeGold. cbv zeta.
  set (p1 := cstring (gw_Address g)).
  set (p2 := p1 ++ cstring (gw_Name g)).
  set (p3 := p2 ++ cstring (gw_Map g)).
  set (p4 := p3 ++ cstring (gw_Folder g)).
  set (p5 := p4 ++ cstring (gw_Game g)).
  rd_string (@nil byte) (gw_Address g).
  rd_string p1 (gw_Name g).
  rd_string p2 (gw_Map g).
  rd_string p3 (gw_Folder g).
  rd_string p4 (gw_Game g).
  check_ok.
  rd_index p5.
  rd_index (p5 ++ [gw_Players g]).
  rd_index (p5 ++ [gw_Players g; gw_MaxPlayers g]).
  rd_index (p5 ++ [gw_Players g; gw_MaxPlayers g; gw_Protocol g]).
  rd_index (p5 ++ [gw_Players g; gw_MaxPlayers g; gw_Protocol g;
                   gw_ServerType g]).
  rd_index (p5 ++ [gw_Players g; gw_MaxPlayers g; gw_Protocol g;
                   gw_ServerType g; gw_Environment g]).
  rd_index (p5 ++ [gw_Players g; gw_MaxPlayers g; gw_Protocol g;
                   gw_ServerType g; gw_Environment g; gw_Visibility g]).
  set (p6 := p5 ++ [gw_Players g; gw_MaxPlayers g; gw_Protocol g;
                    gw_ServerType g; gw_Environment g; gw_Visibility g;
                    gw_Mod g]).
  destruct (beq (gw_Mod g) x01).
  - rd_string p6 (gw_ModURL g).
    rd_string (p6 ++ cstring (gw_ModURL g)) (gw_ModDownload g).
    rd_index (p6 ++ cstring (gw_ModURL g) ++ cstring (gw_ModDownload g)
                 ++ gw_ModRest g).
    destruct tail as [|bots tail].
    + match goal with
      | |- context [?a <? length ?d] =>
          replace (a <? length d) with false
            by (symmetry; apply Nat.ltb_ge; lens)
      end.
      reflexivity.
    + match goal with
      | |- context [?a <? length ?d] =>
          replace (a <? length d) with true
            by (symmetry; apply Nat.ltb_lt; lens)
      end.
      rd_index (p6 ++ cstring (gw_ModURL g) ++ cstring (gw_ModDownload g)
                   ++ gw_ModRest g ++ [gw_VAC g]).
      reflexivity.
  - rd_index p6.
    destruct tail as [|bots tail].
    + match goal with
      | |- context [?a <? length ?d] =>
          replace (a <? length d) with false
            by (symmetry; apply Nat.ltb_ge; lens)
      end.
      reflexivity.
    + match goal with
      | |- context [?a <? length ?d] =>
          replace (a <? length d) with true
            by (symmetry; apply Nat.ltb_lt; lens)
      end.
      rd_index (p6 ++ [gw_VAC g]).
      reflexivity.
Qed.

(** ** GetInfo *)

Lemma parseGoldSourceInfo_fail (data : list byte) (e : Error) :
  parseGoldSourceInfo data = Fail e -> e = ErrShortResponse.
Proof.
  intros H. destruct (parseGoldSourceInfo_check data) as [H1 H2].
  destruct (goldCheckPasses data).
  - exfalso. apply (H2 eq_refl e). exact H.
  - rewrite (H1 eq_refl) in H. congruence.
Qed.

Lemma parseSourceInfo_fail (data : list byte) (e : Error) :
  parseSourceInfo data = Fail e -> e = ErrShortResponse.
Proof.
  intros H. destruct (parseSourceInfo_outcome data) as [(info & Hi)|Hf];
    congruence.
Qed.

(** X10.  GetInfo on a connected client never returns ErrChallengeRequired,
    ErrInvalidResponse, ErrNotConnected, ErrUnsupportedFeature or the
    "challenge not received" error: an error it returns is a timeout, a write
    or read error, ErrTooManyRetries, ErrShortResponse, an unknown-header
    error, or a ProtocolError, and that one always names the GoldSource type
    0x6D as expected, since only the error of the second attempt is kept. *)
Theorem GetInfo_errors (net : Net) (c : Client) (e : Error) :
  IsConnected c = true ->
  fst (GetInfo net c) = Fail e ->
  surfaces e = true /\ expects S2A_INFO_GOLD e = true.
Proof.
  intros Hc. unfold GetInfo. rewrite Hc. cbn [negb].
  apply IsConnected_conn in Hc.
  pose proof (sendRequest_surfaces net A2S_INFO infoPayload S2A_INFO_SRC c Hc)
    as H1.
  pose proof (sendRequestLoop_conn net 3 A2S_INFO infoPayload S2A_INFO_SRC c Hc)
    as Hc1.
  fold (sendRequest net) in Hc1.
  destruct (sendRequest net A2S_INFO infoPayload S2A_INFO_SRC c)
    as [[r|e1|i k|] c1]; simpl in H1, Hc1; [| |contradiction..].
  - simpl. intros H. apply parseSourceInfo_fail in H. subst e.
    split; reflexivity.
  - pose proof (sendRequest_surfaces net A2S_INFO infoPayload S2A_INFO_GOLD c1
                  Hc1) as H2.
    destruct (sendRequest net A2S_INFO infoPayload S2A_INFO_GOLD c1)
      as [[r|e2|i k|] c2]; simpl in H2; [| |contradiction..].
    + simpl. intros H. apply parseGoldSourceInfo_fail in H. subst e.
      split; reflexivity.
    + simpl. intros H. injection H as <-. exact H2.
Qed.

Lemma GetInfo_errors_witness :
  surfaces ErrTooManyRetries = true /\
  expects S2A_INFO_GOLD ErrTooManyRetries = true.
Proof.
  apply (GetInfo_errors net_challenging c_connected ErrTooManyRetries).
  - reflexivity.
  - vm_compute. reflexivity.
Defined.

Section Exchange.

Variable net : Net.

Lemma exchanged_conn (request datagram : list byte) (c : Client) (k : UDPConn) :
  conn c = Some k ->
  set_conn (Some (log_event (Received (ReadOk datagram))
                    (log_event (Wrote request) k))) c
  = exchanged request datagram c.
Proof.
  intros H. unfold exchanged, log_event. rewrite H. simpl.
  rewrite <- app_assoc. reflexivity.
Qed.

(** One cycle with a server that answers. *)
Lemma sendRequestRaw_answered (packetType : byte) (payload : list byte)
    (expectResponse : byte) (c : Client) (datagram : list byte) :
  answers net c (requestLayout c packetType payload) datagram ->
  sendRequestRaw net packetType payload expectResponse c
  = processResponse (firstn 4096 datagram) expectResponse
      (exchanged (requestLayout c packetType payload) datagram c).
Proof.
  intros (k & Hk & Hcl & Hw & Hr).
  rewrite sendRequestRaw_cases. cbv zeta. rewrite Hk, Hcl, Hw.
  rewrite <- (exchanged_conn _ _ c k Hk).
  unfold log_event. cbn [history closed]. rewrite Hr. reflexivity.
Qed.

(** A reply that is a single packet of the expected type. *)
Lemma processResponse_single (expect : byte) (body : list byte) (c : Client) :
  expect <> S2C_CHALLENGE ->
  processResponse (singleHeader ++ expect :: body) expect c = (Ok body, c).
Proof.
  intros Hne. unfold singleHeader. cbn [app]. rewrite processResponse_cases.
  change (le32 xff xff xff xff =? uint32 Header)%Z with true. cbv iota.
  rewrite processSinglePacket_cases.
  rewrite beq_neq by exact Hne. rewrite beq_refl. reflexivity.
Qed.

Lemma sendRequest_first (packetType : byte) (payload : list byte)
    (expectResponse : byte) (c : Client) :
  fst (sendRequestRaw net packetType payload expectResponse c)
    <> Fail ErrChallengeRequired ->
  sendRequest net packetType payload expectResponse c
  = sendRequestRaw net packetType payload expectResponse c.
Proof. intros H. unfold sendRequest. apply sendRequestLoop_done. exact H. Qed.

Lemma sendRequest_second (packetType : byte) (payload : list byte)
    (expectResponse : byte) (c c1 : Client) :
  sendRequestRaw net packetType payload expectResponse c
    = (Fail ErrChallengeRequired, c1) ->
  fst (sendRequestRaw net packetType payload expectResponse c1)
    <> Fail ErrChallengeRequired ->
  sendRequest net packetType payload expectResponse c
  = sendRequestRaw net packetType payload expectResponse c1.
Proof.
  intros H1 H2. unfold sendRequest.
  rewrite sendRequestLoop_again by (rewrite H1; reflexivity).
  rewrite H1. cbn [snd]. apply sendRequestLoop_done. exact H2.
Qed.

Lemma exchanged_IsConnected (request datagram : list byte) (c : Client) :
  IsConnected (exchanged request datagram c) = IsConnected c.
Proof.
  unfold exchanged, IsConnected.
  destruct (conn c) eqn:E; simpl; [reflexivity|rewrite E; reflexivity].
Qed.

Lemma exchanged_challenge (request datagram : list byte) (c : Client) :
  challenge (exchanged request datagram c) = challenge c.
Proof. unfold exchanged. destruct (conn c); reflexivity. Qed.

Lemma requestLayout_challenge (c c' : Client) (packetType : byte)
    (payload : list byte) :
  challenge c' = challenge c ->
  requestLayout c' packetType payload = requestLayout c packetType payload.
Proof.
  intros H. unfold requestLayout, challengeAtEnd. rewrite H. reflexivity.
Qed.

End Exchange.

(** X11.  A connected client and a server that answers the INFO request
    with a Source info packet (header, type 0x49, body, within the 4096-byte
    buffer): GetInfo sends that one request and returns what parseSourceInfo
    makes of the body. *)
Theorem GetInfo_source (net : Net) (c : Client) (body : list byte) :
  let request := requestLayout c A2S_INFO infoPayload in
  let reply := singleHeader ++ S2A_INFO_SRC :: body in
  connected c = true ->
  length reply <= 4096 ->
  answers net c request reply ->
  GetInfo net c = (parseSourceInfo body, exchanged request reply c).
Proof.
  intros request reply Hc Hlen Ha.
  assert (Hcon : IsConnected c = true).
  { unfold IsConnected. rewrite Hc. destruct Ha as (k & -> & _). reflexivity. }
  unfold GetInfo. rewrite Hcon. cbn [negb].
  assert (Hraw : sendRequestRaw net A2S_INFO infoPayload S2A_INFO_SRC c
                 = (Ok body, exchanged request reply c)).
  { rewrite (sendRequestRaw_answered net _ _ _ c reply Ha).
    rewrite firstn_all2 by exact Hlen.
    apply processResponse_single. discriminate. }
  rewrite sendRequest_first by (rewrite Hraw; discriminate).
  rewrite Hraw. reflexivity.
Qed.

Lemma GetInfo_source_witness :
  GetInfo
    {| net_dial := fun _ => Dialed true;
       net_write := fun _ _ => true;
       net_read := fun _ => ReadOk (singleHeader ++ S2A_INFO_SRC :: sourceInfoSample) |}
    c_connected
  = (parseSourceInfo sourceInfoSample,
     exchanged (requestLayout c_connected A2S_INFO infoPayload)
       (singleHeader ++ S2A_INFO_SRC :: sourceInfoSample) c_connected).
Proof.
  apply GetInfo_source.
  - reflexivity.
  - simpl. lia.
  - exists {| closed := false; history := [] |}. repeat split.
Defined.

(** X12.  A connected client and a server that first asks for a challenge:
    it answers the INFO request with a challenge response of four bytes,
    not all FF, and the second request, which is the first with those four
    bytes appended, with a Source info packet.  GetInfo sends the two
    requests, keeps the challenge, and returns what parseSourceInfo makes of
    the body. *)
Theorem GetInfo_handshake (net : Net) (c : Client) (b1 b2 b3 b4 : byte)
    (body : list byte) :
  let request1 := requestLayout c A2S_INFO infoPayload in
  let reply1 := singleHeader ++ [S2C_CHALLENGE; b1; b2; b3; b4] in
  let c1 := set_challenge (int32 (le32 b1 b2 b3 b4))
              (exchanged request1 reply1 c) in
  let request2 := singleHeader ++ [A2S_INFO] ++ infoPayload
                  ++ [b1; b2; b3; b4] in
  let reply2 := singleHeader ++ S2A_INFO_SRC :: body in
  connected c = true ->
  [b1; b2; b3; b4] <> [xff; xff; xff; xff] ->
  length reply2 <= 4096 ->
  answers net c request1 reply1 ->
  answers net c1 request2 reply2 ->
  GetInfo net c = (parseSourceInfo body, exchanged request2 reply2 c1).
Proof.
  intros request1 reply1 c1 request2 reply2 Hc Hne Hlen Ha1 Ha2.
  assert (Hcon : IsConnected c = true).
  { unfold IsConnected. rewrite Hc. destruct Ha1 as (k & -> & _).
    reflexivity. }
  unfold GetInfo. rewrite Hcon. cbn [negb].
  assert (Hraw1 : sendRequestRaw net A2S_INFO infoPayload S2A_INFO_SRC c
                  = (Fail ErrChallengeRequired, c1)).
  { rewrite (sendRequestRaw_answered net _ _ _ c reply1 Ha1).
    rewrite firstn_all2 by (simpl; lia).
    unfold reply1, singleHeader. cbn [app]. rewrite processResponse_cases.
    change (le32 xff xff xff xff =? uint32 Header)%Z with true. cbv iota.
    apply processSinglePacket_challenge_eq. }
  assert (Hreq2 : requestLayout c1 A2S_INFO infoPayload = request2).
  { unfold requestLayout, challengeAtEnd, c1. cbn [challenge set_challenge].
    change (challengeAtBeginning A2S_INFO) with false.
    change (beq A2S_INFO A2S_INFO) with true.
    destruct (int32 (le32 b1 b2 b3 b4) =? -1)%Z eqn:E.
    - apply Z.eqb_eq, int32_minus_one in E. contradiction.
    - cbn [negb andb]. rewrite uint32_int32, Z.mod_small by apply le32_range.
      rewrite bytes32_le32. reflexivity. }
  assert (Hraw2 : sendRequestRaw net A2S_INFO infoPayload S2A_INFO_SRC c1
                  = (Ok body, exchanged request2 reply2 c1)).
  { rewrite <- Hreq2 in Ha2 |- *.
    rewrite (sendRequestRaw_answered net _ _ _ c1 reply2 Ha2).
    rewrite firstn_all2 by exact Hlen.
    apply processResponse_single. discriminate. }
  rewrite (sendRequest_second net _ _ _ c c1 Hraw1)
    by (rewrite Hraw2; discriminate).
  rewrite Hraw2. reflexivity.
Qed.

(** X13.  A connected client and a GoldSource server, which answers the
    INFO request with a packet of type 0x6D: the first attempt, which
    expects 0x49, fails on the type; GetInfo sends the same request again,
    now expecting 0x6D, and returns what parseGoldSourceInfo makes of the
    body of the second answer, panic included. *)
Theorem GetInfo_goldsource (net : Net) (c : Client) (body : list byte) :
  let request := requestLayout c A2S_INFO infoPayload in
  let reply := singleHeader ++ S2A_INFO_GOLD :: body in
  let c1 := exchanged request reply c in
  connected c = true ->
  length reply <= 4096 ->
  answers net c request reply ->
  answers net c1 request reply ->
  GetInfo net c = (parseGoldSourceInfo body, exchanged request reply c1).
Proof.
  intros request reply c1 Hc Hlen Ha1 Ha2.
  assert (Hcon : IsConnected c = true).
  { unfold IsConnected. rewrite Hc. destruct Ha1 as (k & -> & _).
    reflexivity. }
  unfold GetInfo. rewrite Hcon. cbn [negb].
  assert (Hraw1 : sendRequestRaw net A2S_INFO infoPayload S2A_INFO_SRC c
                  = (Fail (ProtocolError S2A_INFO_SRC S2A_INFO_GOLD), c1)).
  { rewrite (sendRequestRaw_answered net _ _ _ c reply Ha1).
    rewrite firstn_all2 by exact Hlen.
    unfold reply, singleHeader. cbn [app]. rewrite processResponse_cases.
    change (le32 xff xff xff xff =? uint32 Header)%Z with true. cbv iota.
    rewrite processSinglePacket_cases. reflexivity. }
  rewrite sendRequest_first by (rewrite Hraw1; discriminate).
  rewrite Hraw1.
  assert (Hreq : requestLayout c1 A2S_INFO infoPayload = request).
  { apply requestLayout_challenge. apply exchanged_challenge. }
  assert (Hraw2 : sendRequestRaw net A2S_INFO infoPayload S2A_INFO_GOLD c1
                  = (Ok body, exchanged request reply c1)).
  { rewrite <- Hreq in Ha2 |- *.
    rewrite (sendRequestRaw_answered net _ _ _ c1 reply Ha2).
    rewrite firstn_all2 by exact Hlen.
    apply processResponse_single. discriminate. }
  rewrite sendRequest_first by (rewrite Hraw2; discriminate).
  rewrite Hraw2. reflexivity.
Qed.

Lemma GetInfo_handshake_witness :
  GetInfo net_info_challenge c_connected
  = (parseSourceInfo sourceInfoSample,
     exchanged (singleHeader ++ [A2S_INFO] ++ infoPayload ++ [x2a; x00; x00; x00])
       (singleHeader ++ S2A_INFO_SRC :: sourceInfoSample)
       (set_challenge 42
          (exchanged (requestLayout c_connected A2S_INFO infoPayload)
             challengeReply c_connected))).
Proof.
  apply (GetInfo_handshake net_info_challenge c_connected x2a x00 x00 x00
           sourceInfoSample).
  - reflexivity.
  - discriminate.
  - simpl. lia.
  - exists {| closed := false; history := [] |}. repeat split.
  - eexists. repeat split.
Defined.

Lemma GetInfo_goldsource_witness :
  GetInfo net_gold c_connected
  = (parseGoldSourceInfo goldInfoSample,
     exchanged (requestLayout c_connected A2S_INFO infoPayload)
       (singleHeader ++ S2A_INFO_GOLD :: goldInfoSample)
       (exchanged (requestLayout c_connected A2S_INFO infoPayload)
          (singleHeader ++ S2A_INFO_GOLD :: goldInfoSample) c_connected)).
Proof.
  apply (GetInfo_goldsource net_gold c_connected goldInfoSample).
  - reflexivity.
  - simpl. lia.
  - exists {| closed := false; history := [] |}. repeat split.
  - eexists. repeat split.
Defined.

(** ** How much a query sends *)

Lemma traffic_refl (n : nat) (c : Client) : traffic n c c.
Proof. exists []. rewrite app_nil_r. simpl. repeat split; lia. Qed.

Lemma writes_app (a b : list Event) : writes (a ++ b) = writes a + writes b.
Proof.
  induction a as [|e a IH]; [reflexivity|].
  destruct e; simpl; rewrite IH; reflexivity.
Qed.

Lemma traffic_trans (n m : nat) (c1 c2 c3 : Client) :
  traffic n c1 c2 -> traffic m c2 c3 -> traffic (n + m) c1 c3.
Proof.
  intros (e1 & H1 & W1 & L1) (e2 & H2 & W2 & L2).
  exists (e1 ++ e2). rewrite writes_app, length_app.
  repeat split; [rewrite H2, H1, app_assoc; reflexivity|lia|lia].
Qed.

Lemma traffic_le (n m : nat) (c c' : Client) :
  n <= m -> traffic n c c' -> traffic m c c'.
Proof.
  intros Hle (e & H & W & L). exists e. repeat split; [exact H|lia|lia].
Qed.

Section Traffic.

Variable net : Net.

Lemma sendRequestRaw_traffic (packetType : byte) (payload : list byte)
    (expectResponse : byte) (c : Client) :
  traffic 1 c (snd (sendRequestRaw net packetType payload expectResponse c)).
Proof.
  rewrite sendRequestRaw_cases. cbv zeta.
  set (packet := requestLayout c packetType payload).
  destruct (conn c) as [k|] eqn:Ek; [|apply traffic_refl].
  destruct (closed k); [apply traffic_refl|].
  destruct (net_write net (history k) packet).
  - set (r := net_read net (history (log_event (Wrote packet) k))).
    exists [Wrote packet; Received r].
    assert (Hh : forall c2,
               conn c2 = Some (log_event (Received r) (log_event (Wrote packet) k)) ->
               conn_history c2 = conn_history c ++ [Wrote packet; Received r]).
    { intros c2 H2. unfold conn_history. rewrite H2, Ek. simpl.
      rewrite <- app_assoc. reflexivity. }
    split; [|simpl; lia].
    destruct r as [| |d]; try (apply Hh; reflexivity).
    apply Hh. rewrite processResponse_conn. reflexivity.
  - exists [WriteFailed packet]. unfold conn_history. simpl. rewrite Ek.
    repeat split; lia.
Qed.

Lemma sendRequestLoop_traffic (n : nat) (packetType : byte)
    (payload : list byte) (expectResponse : byte) (c : Client) :
  traffic n c (snd (sendRequestLoop net n packetType payload expectResponse c)).
Proof.
  revert c. induction n as [|n IH]; intros c; [apply traffic_refl|].
  simpl.
  pose proof (sendRequestRaw_traffic packetType payload expectResponse c) as H.
  destruct (sendRequestRaw net packetType payload expectResponse c)
    as [[r|e|i k|] c1]; simpl in H;
    try (apply traffic_le with 1; [lia|exact H]).
  destruct (is_challenge_required e);
    [|apply traffic_le with 1; [lia|exact H]].
  apply (traffic_trans 1 n c c1); [exact H|apply IH].
Qed.

Lemma challengeQuery_traffic {A : Type} (request response : byte)
    (parse : list byte -> Outcome A) (c : Client) :
  traffic 3 c (snd (challengeQuery net request response parse c)).
Proof.
  destruct (challengeQuery_fails net request response parse c)
    as [[_ ->]|(_ & e & _ & -> & _)]; [apply traffic_refl|].
  apply sendRequestLoop_traffic.
Qed.

End Traffic.

(** X14.  A query is bounded in what it sends: a request with its retries
    hands at most three packets to the socket, GetInfo at most six,
    GetPlayers and GetRules at most three each and CheckFeatures at most six,
    and the socket is read at most once for each packet written. *)
Theorem queries_traffic (net : Net) (c : Client) :
  (forall packetType payload expectResponse,
     traffic 3 c
       (snd (sendRequest net packetType payload expectResponse c))) /\
  traffic 6 c (snd (GetInfo net c)) /\
  traffic 3 c (snd (GetPlayers net c)) /\
  traffic 3 c (snd (GetRules net c)) /\
  traffic 6 c (snd (CheckFeatures net c)).
Proof.
  split; [intros; apply sendRequestLoop_traffic|].
  split.
  { unfold GetInfo. destruct (negb (IsConnected c)); [apply traffic_refl|].
    pose proof (sendRequestLoop_traffic net 3 A2S_INFO infoPayload
                  S2A_INFO_SRC c) as H1.
    fold (sendRequest net) in H1.
    destruct (sendRequest net A2S_INFO infoPayload S2A_INFO_SRC c)
      as [[r|e|i k|] c1]; simpl in H1;
      try (apply traffic_le with 3; [lia|exact H1]).
    pose proof (sendRequestLoop_traffic net 3 A2S_INFO infoPayload
                  S2A_INFO_GOLD c1) as H2.
    fold (sendRequest net) in H2.
    destruct (sendRequest net A2S_INFO infoPayload S2A_INFO_GOLD c1)
      as [[r|e'|i k|] c2]; simpl in H2;
      apply (traffic_trans 3 3 c c1); assumption. }
  split; [rewrite GetPlayers_query; apply challengeQuery_traffic|].
  split; [rewrite GetRules_query; apply challengeQuery_traffic|].
  unfold CheckFeatures.
  pose proof (challengeQuery_traffic net A2S_PLAYER S2A_PLAYER
                parsePlayersResponse c) as H1.
  rewrite <- GetPlayers_query in H1.
  destruct (GetPlayers net c) as [players c1]; simpl in H1.
  pose proof (challengeQuery_traffic net A2S_RULES S2A_RULES
                parseRulesResponse c1) as H2.
  rewrite <- GetRules_query in H2.
  destruct (GetRules net c1) as [rules c2]; simpl in H2.
  pose proof (traffic_trans 3 3 _ _ _ H1 H2) as H3.
  destruct players as [p|e|i k|];
    try (apply traffic_le with 3; [lia|exact H1]);
    destruct rules as [r|e'|i' k'|]; assumption.
Qed.

(** ** The cursor, in full *)

Lemma scan_stop (rest : list byte) (offset : nat) :
  exists k,
    scan rest offset = offset + k /\ k <= length rest /\
    nullFree (firstn k rest) = true /\
    (k < length rest -> nth_error rest k = Some x00).
Proof.
  revert offset. induction rest as [|b rest IH]; intros offset.
  - exists 0. simpl. repeat split; try lia.
  - simpl. destruct (beq b x00) eqn:E.
    + exists 0. simpl. repeat split; try lia.
      intros _. apply beq_true in E. subst b. reflexivity.
    + destruct (IH (S offset)) as (k & Hk & Hle & Hn & Hz).
      exists (S k). simpl. rewrite E, Hn. repeat split; try lia.
      intros Hlt. apply Hz. lia.
Qed.

(** X15.  readString at or past the end of the buffer returns the empty
    string and leaves the offset.  Inside the buffer it returns the bytes
    from the offset up to the first zero byte or, if there is none, to the
    end of the buffer: the text has no zero byte in it; where it stopped at a
    zero the new offset is just past that zero, and otherwise it is the end
    of the buffer. *)
Theorem readString_contract (data : list byte) (offset : nat) :
  (length data <= offset ->
   readString data offset = (EmptyString, offset)) /\
  (offset < length data ->
   exists stop,
     offset <= stop <= length data /\
     nullFree (slice data offset stop) = true /\
     fst (readString data offset) = text (slice data offset stop) /\
     ((nth_error data stop = Some x00
       /\ snd (readString data offset) = stop + 1) \/
      (stop = length data /\ snd (readString data offset) = stop))).
Proof.
  split; [apply readString_at_end|].
  intros Hlt. unfold readString.
  destruct (length data <=? offset) eqn:E; [apply Nat.leb_le in E; lia|].
  destruct (scan_stop (skipn offset data) offset) as (k & Hk & Hle & Hn & Hz).
  rewrite length_skipn in Hle, Hz.
  exists (offset + k). rewrite Hk. unfold slice.
  replace (offset + k - offset) with k by lia.
  split; [lia|]. split; [exact Hn|].
  destruct (offset + k <? length data) eqn:E'.
  - apply Nat.ltb_lt in E'. split; [reflexivity|]. left. split.
    + rewrite <- nth_error_skipn. apply Hz. lia.
    + simpl. lia.
  - apply Nat.ltb_ge in E'. split; [reflexivity|]. right. simpl. lia.
Qed.

Lemma readString_contract_witness :
  readString [x61; x62] 2 = (EmptyString, 2) /\
  exists stop,
    fst (readString [x61; x62; x00; x63] 0)
      = text (slice [x61; x62; x00; x63] 0 stop) /\
    snd (readString [x61; x62; x00; x63] 0) = stop + 1.
Proof.
  split.
  - apply (readString_contract [x61; x62] 2). simpl. lia.
  - destruct (proj2 (readString_contract [x61; x62; x00; x63] 0)
                ltac:(simpl; lia)) as (stop & Hb & Hn & Hf & Hs).
    exists stop. split; [exact Hf|].
    destruct Hs as [[_ Hs]|[He Hs]]; [exact Hs|].
    exfalso. rewrite He in Hs. vm_compute in Hs. discriminate Hs.
Defined.

(** ** The life of a client *)

Lemma not_connected_queries (net : Net) (c : Client) :
  IsConnected c = false ->
  GetInfo net c = (Fail ErrNotConnected, c) /\
  GetPlayers net c = (Fail ErrNotConnected, c) /\
  GetRules net c = (Fail ErrNotConnected, c) /\
  CheckFeatures net c = (Ok featuresNone, c).
Proof.
  intros H.
  assert (HP : GetPlayers net c = (Fail ErrNotConnected, c))
    by (unfold GetPlayers; rewrite H; reflexivity).
  assert (HR : GetRules net c = (Fail ErrNotConnected, c))
    by (unfold GetRules; rewrite H; reflexivity).
  repeat split; try assumption.
  - unfold GetInfo. rewrite H. reflexivity.
  - unfold CheckFeatures. rewrite HP, HR. reflexivity.
Qed.

(** X16.  A client that was never connected, or was closed, answers every
    query with ErrNotConnected without touching the socket (CheckFeatures
    reports Info alone), until Connect succeeds; Connect that dials through
    gives a fresh socket and a connected client even when setting the
    deadline fails and Connect returns that error, and leaves the client as
    it was when resolving or dialling fails.  The cached challenge survives
    Close and Connect. *)
Theorem client_lifecycle (net : Net) (c : Client) (addr : string) :
  let closedClient := snd (Close c) in
  let opened := snd (Connect net addr c) in
  (forall timeout,
     GetInfo net (NewClient timeout)
     = (Fail ErrNotConnected, NewClient timeout)) /\
  (GetInfo net closedClient = (Fail ErrNotConnected, closedClient) /\
   GetPlayers net closedClient = (Fail ErrNotConnected, closedClient) /\
   GetRules net closedClient = (Fail ErrNotConnected, closedClient) /\
   CheckFeatures net closedClient = (Ok featuresNone, closedClient)) /\
  challenge closedClient = challenge c /\
  (forall deadlineSet,
     net_dial net addr = Dialed deadlineSet ->
     IsConnected opened = true /\ conn_history opened = [] /\
     challenge opened = challenge c /\
     fst (Connect net addr c) = if deadlineSet then Ok tt else Fail ErrNet) /\
  (net_dial net addr = ResolveFailed \/ net_dial net addr = DialFailed ->
   Connect net addr c = (Fail ErrNet, c)).
Proof.
  cbv zeta. split; [intros timeout; apply not_connected_queries; reflexivity|].
  split.
  { apply not_connected_queries. unfold Close, IsConnected.
    destruct (conn c) as [k|] eqn:Ek.
    - destruct (closed k); reflexivity.
    - simpl. rewrite Ek. apply andb_false_r. }
  split.
  { unfold Close. destruct (conn c) as [k|]; [|reflexivity].
    destruct (closed k); reflexivity. }
  split.
  - intros d Hd. unfold Connect. rewrite Hd. repeat split.
  - intros [H|H]; unfold Connect; rewrite H; reflexivity.
Qed.

Lemma client_lifecycle_witness :
  IsConnected (snd (Connect net_challenging "host:27015" c_fresh)) = true /\
  GetInfo net_challenging (snd (Close c_connected))
  = (Fail ErrNotConnected, snd (Close c_connected)).
Proof.
  destruct (client_lifecycle net_challenging c_fresh "host:27015")
    as (_ & _ & _ & Hopen & _).
  destruct (client_lifecycle net_challenging c_connected "host:27015")
    as (_ & (Hclosed & _) & _).
  split; [apply (Hopen true eq_refl)|exact Hclosed].
Defined.

Lemma parseSourceInfo_layout_witness :
  parseSourceInfo (encodeSourceFixed sourceWireSample
                   ++ encodeSourceExtra sourceWireSample ++ [x99])
  = Ok (sourceInfoOf sourceWireSample true) /\
  ServerInfo.GamePort (sourceInfoOf sourceWireSample true) = 27015%Z /\
  ServerInfo.GameID (sourceInfoOf sourceWireSample true) = 10%Z /\
  parseSourceInfo (encodeSourceFixed sourceWireSample)
  = Ok (sourceInfoOf sourceWireSample false).
Proof.
  destruct (parseSourceInfo_layout sourceWireSample [x99] eq_refl)
    as [H1 H2].
  split; [apply H1; vm_compute; lia|].
  split; [reflexivity|]. split; [reflexivity|].
  apply H2. vm_compute. lia.
Defined.

Lemma parseGoldSourceInfo_layout_witness :
  parseGoldSourceInfo (encodeGold goldWireSample ++ [x02])
  = Ok (goldInfoOf goldWireSample x02) /\
  parseGoldSourceInfo (encodeGold goldWireSample)
  = Ok (goldInfoOf goldWireSample x00).
Proof.
  split.
  - apply (parseGoldSourceInfo_layout goldWireSample [x02]). reflexivity.
  - rewrite <- (app_nil_r (encodeGold goldWireSample)).
    apply (parseGoldSourceInfo_layout goldWireSample []). reflexivity.
Defined.

(** X8.  parseSourceInfo has no unguarded read: for every buffer it returns
    a record or ErrShortResponse, never a panic and no other error.  A
    buffer of fewer than 20 bytes is refused even when it is a complete
    payload: the one with every string empty is 15 bytes long. *)
Theorem parseSourceInfo_safe :
  (forall data,
     (exists info, parseSourceInfo data = Ok info) \/
     parseSourceInfo data = Fail ErrShortResponse) /\
  (forall data,
     length data < 20 -> parseSourceInfo data = Fail ErrShortResponse) /\
  (sourceStringsOk sourceWireMinimal = true /\
   length (encodeSourceFixed sourceWireMinimal) = 15 /\
   parseSourceInfo (encodeSourceFixed sourceWireMinimal)
   = Fail ErrShortResponse).
Proof.
  split; [apply parseSourceInfo_outcome|].
  split.
  - intros data H. unfold parseSourceInfo. apply Nat.ltb_lt in H.
    rewrite H. reflexivity.
  - repeat split.
Qed.

Lemma parseSourceInfo_safe_witness :
  parseSourceInfo [x11; x00] = Fail ErrShortResponse.
Proof.
  apply (proj1 (proj2 parseSourceInfo_safe)). simpl. lia.
Defined.

(** ** Requests that get no answer *)

Section NoAnswer.

Variable net : Net.

Lemma sendRequestRaw_silent (packetType : byte) (payload : list byte)
    (expectResponse : byte) (c : Client) :
  silent net c (requestLayout c packetType payload) ->
  sendRequestRaw net packetType payload expectResponse c
  = (Fail ErrTimeout, timedOut (requestLayout c packetType payload) c).
Proof.
  intros (k & Hk & Hcl & Hw & Hr).
  rewrite sendRequestRaw_cases. cbv zeta. rewrite Hk, Hcl, Hw.
  unfold log_event. cbn [history closed]. rewrite Hr.
  unfold timedOut. rewrite Hk. rewrite <- app_assoc. reflexivity.
Qed.

Lemma timedOut_challenge (request : list byte) (c : Client) :
  challenge (timedOut request c) = challenge c.
Proof. unfold timedOut. destruct (conn c); reflexivity. Qed.

End NoAnswer.

(** X17.  A request that is not answered is not retried: when the read
    times out, sendRequest returns ErrTimeout after the one write; when the
    write fails it returns a write error and does not read; on a client with
    a closed socket it returns a write error and the client is unchanged;
    and on a client without a socket, which the public operations never
    pass, it panics with a nil-pointer dereference where the deadline is
    set, once and with the client unchanged. *)
Theorem sendRequest_no_answer (net : Net) (packetType : byte)
    (payload : list byte) (expectResponse : byte) (c : Client) :
  let request := requestLayout c packetType payload in
  (silent net c request ->
   sendRequest net packetType payload expectResponse c
   = (Fail ErrTimeout, timedOut request c)) /\
  (forall k,
     conn c = Some k -> closed k = false ->
     net_write net (history k) request = false ->
     sendRequest net packetType payload expectResponse c
     = (Fail ErrWrite,
        set_conn (Some {| closed := false;
                          history := history k ++ [WriteFailed request] |})
          c)) /\
  (forall k,
     conn c = Some k -> closed k = true ->
     sendRequest net packetType payload expectResponse c = (Fail ErrWrite, c)) /\
  (conn c = None ->
   sendRequest net packetType payload expectResponse c = (PanicNil, c)).
Proof.
  intros request. split; [|split; [|split]].
  - intros Hs.
    pose proof (sendRequestRaw_silent net packetType payload expectResponse
                  c Hs) as Hraw.
    rewrite sendRequest_first by (rewrite Hraw; discriminate).
    exact Hraw.
  - intros k Hk Hcl Hw.
    assert (Hraw : sendRequestRaw net packetType payload expectResponse c
                   = (Fail ErrWrite,
                      set_conn (Some {| closed := false;
                                        history := history k
                                          ++ [WriteFailed request] |}) c)).
    { rewrite sendRequestRaw_cases. cbv zeta. fold request.
      rewrite Hk, Hcl, Hw. unfold log_event. rewrite Hcl. reflexivity. }
    rewrite sendRequest_first by (rewrite Hraw; discriminate).
    exact Hraw.
  - intros k Hk Hcl.
    assert (Hraw : sendRequestRaw net packetType payload expectResponse c
                   = (Fail ErrWrite, c)).
    { rewrite sendRequestRaw_cases. cbv zeta. rewrite Hk, Hcl. reflexivity. }
    rewrite sendRequest_first by (rewrite Hraw; discriminate).
    exact Hraw.
  - intros Hk.
    pose proof (sendRequestRaw_nil net packetType payload expectResponse c Hk)
      as Hraw.
    rewrite sendRequest_first by (rewrite Hraw; discriminate).
    exact Hraw.
Qed.

Lemma sendRequest_no_answer_witness :
  sendRequest net_silent A2S_INFO infoPayload S2A_INFO_SRC c_connected
    = (Fail ErrTimeout,
       timedOut (requestLayout c_connected A2S_INFO infoPayload) c_connected) /\
  sendRequest net_silent A2S_INFO infoPayload S2A_INFO_SRC
    (snd (Close c_connected))
    = (Fail ErrWrite, snd (Close c_connected)) /\
  sendRequest net_silent A2S_INFO infoPayload S2A_INFO_SRC c_fresh
    = (PanicNil, c_fresh).
Proof.
  destruct (sendRequest_no_answer net_silent A2S_INFO infoPayload
              S2A_INFO_SRC c_connected) as (H1 & _ & _ & _).
  destruct (sendRequest_no_answer net_silent A2S_INFO infoPayload
              S2A_INFO_SRC (snd (Close c_connected))) as (_ & _ & H3 & _).
  destruct (sendRequest_no_answer net_silent A2S_INFO infoPayload
              S2A_INFO_SRC c_fresh) as (_ & _ & _ & H4).
  split; [|split].
  - apply H1. exists {| closed := false; history := [] |}. repeat split.
  - apply (H3 {| closed := true; history := [] |}); reflexivity.
  - apply H4. reflexivity.
Defined.

(** X18.  GetInfo against a server that does not answer waits twice: the
    timeout of the first attempt is taken for "not a Source server", the
    same request is sent again expecting the GoldSource type, and the timeout
    of that second attempt is the error returned. *)
Theorem GetInfo_timeout (net : Net) (c : Client) :
  let request := requestLayout c A2S_INFO infoPayload in
  connected c = true ->
  silent net c request ->
  silent net (timedOut request c) request ->
  GetInfo net c = (Fail ErrTimeout, timedOut request (timedOut request c)).
Proof.
  intros request Hc H1 H2.
  assert (Hcon : IsConnected c = true).
  { unfold IsConnected. rewrite Hc. destruct H1 as (k & -> & _).
    reflexivity. }
  unfold GetInfo. rewrite Hcon. cbn [negb].
  pose proof (sendRequestRaw_silent net A2S_INFO infoPayload S2A_INFO_SRC
                c H1) as Hraw1.
  rewrite sendRequest_first by (rewrite Hraw1; discriminate).
  rewrite Hraw1. fold request.
  assert (Hreq : requestLayout (timedOut request c) A2S_INFO infoPayload
                 = request).
  { apply requestLayout_challenge. apply timedOut_challenge. }
  assert (H2' : silent net (timedOut request c)
                  (requestLayout (timedOut request c) A2S_INFO infoPayload))
    by (rewrite Hreq; exact H2).
  pose proof (sendRequestRaw_silent net A2S_INFO infoPayload S2A_INFO_GOLD
                (timedOut request c) H2') as Hraw2.
  rewrite sendRequest_first by (rewrite Hraw2; discriminate).
  rewrite Hraw2, Hreq. reflexivity.
Qed.

Lemma GetInfo_timeout_witness :
  GetInfo net_silent c_connected
  = (Fail ErrTimeout,
     timedOut (requestLayout c_connected A2S_INFO infoPayload)
       (timedOut (requestLayout c_connected A2S_INFO infoPayload)
          c_connected)).
Proof.
  apply (GetInfo_timeout net_silent c_connected).
  - reflexivity.
  - exists {| closed := false; history := [] |}. repeat split.
  - eexists. repeat split.
Defined.
